(** * DealTrail ingest core: states, tasks and transactions

    A shallow embedding of [src/ingest/task.py], [src/ingest/state.py] and
    [src/ingest/transaction.py], followed by the properties of the
    transaction state machine, of template expansion and of the
    dictionary projections.

    Layout: the Python run-time model ([Py], [UUID], [Datetime], [World]),
    then one module per source class with the source's method names, the
    vocabulary of the properties and a small configuration, then the
    lemmas and theorems. *)

From stdpp Require Import gmap strings list fin_maps.
From Stdlib Require Import ZArith Ascii Lia.

Set Warnings "-register-all,-clear-no-such-hyp".

(** ** Python values, exceptions and results *)

Module Py.

(** The exceptions the modelled code can raise.  [OutsideModel] is not a
    Python exception: it marks the two places where the typed model stops
    although Python would go on (a value that does not have the type its
    dataclass annotation declares, and a reference to an object that is
    not in the store, which Python's memory model excludes). *)
Inductive exn :=
| ValueError (msg : string)
| KeyError (key : string)
| TypeError (msg : string)
| AttributeError (msg : string)
| OverflowError (msg : string)
| OutsideModel (why : string).

Inductive result (A : Type) :=
| Ok (a : A)
| Raise (e : exn).
Arguments Ok {A} a.
Arguments Raise {A} e.

Global Instance result_ret : MRet result := λ A a, Ok a.
Global Instance result_bind : MBind result := λ A B k r,
  match r with
  | Ok a => k a
  | Raise e => Raise e
  end.

(** [Dict[str, Any]] and the values found in it.  A dictionary is an
    association list in insertion order with pairwise distinct keys
    ([dict_set] keeps it so). *)
Inductive pyval :=
| PNone
| PBool (b : bool)
| PInt (z : Z)
| PStr (s : string)
| PList (l : list pyval)
| PDict (d : list (string * pyval)).

Abbreviation dict := (list (string * pyval)).

Fixpoint dict_lookup (k : string) (d : dict) : option pyval :=
  match d with
  | [] => None
  | (k', v) :: d' => if String.eqb k k' then Some v else dict_lookup k d'
  end.

(** [d[k] = v] *)
Fixpoint dict_set (k : string) (v : pyval) (d : dict) : dict :=
  match d with
  | [] => [(k, v)]
  | (k', v') :: d' =>
      if String.eqb k k' then (k', v) :: d' else (k', v') :: dict_set k v d'
  end.

(** [data[k]] *)
Definition getitem (data : dict) (k : string) : result pyval :=
  match dict_lookup k data with
  | Some v => Ok v
  | None => Raise (KeyError k)
  end.

(** [data.get(k, default)]; [data.get(k)] is [get data k PNone]. *)
Definition get (data : dict) (k : string) (default : pyval) : pyval :=
  match dict_lookup k data with
  | Some v => v
  | None => default
  end.

(** Truth value of an object, as tested by [if x:]. *)
Definition truthy (v : pyval) : bool :=
  match v with
  | PNone => false
  | PBool b => b
  | PInt z => negb (Z.eqb z 0)
  | PStr s => negb (String.eqb s "")
  | PList l => match l with [] => false | _ => true end
  | PDict d => match d with [] => false | _ => true end
  end.

(** Subscripting [v[...]] with a string key needs a dictionary. *)
Definition as_dict (v : pyval) : result dict :=
  match v with
  | PDict d => Ok d
  | _ => Raise (TypeError "indices must be integers or object is not subscriptable")
  end.

(** [for x in v]: a list yields its items, a string its characters, a
    dictionary its keys; nothing else is iterable. *)
Definition iterate (v : pyval) : result (list pyval) :=
  match v with
  | PList l => Ok l
  | PStr s => Ok ((λ c, PStr (String c EmptyString)) <$> String.list_ascii_of_string s)
  | PDict d => Ok ((λ kv, PStr kv.1) <$> d)
  | _ => Raise (TypeError "object is not iterable")
  end.

(** [v.items()] *)
Definition items (v : pyval) : result dict :=
  match v with
  | PDict d => Ok d
  | _ => Raise (AttributeError "object has no attribute 'items'")
  end.

(** Whether [v] can be a dictionary key or a set element. *)
Definition hashable (v : pyval) : bool :=
  match v with
  | PList _ | PDict _ => false
  | _ => true
  end.

(** The typed fields of the dataclasses.  A value of another type is
    stored as it is by Python; the typed model stops there. *)
Definition expect_str (field : string) (v : pyval) : result string :=
  match v with
  | PStr s => Ok s
  | _ => Raise (OutsideModel field)
  end.

Definition expect_opt_str (field : string) (v : pyval) : result (option string) :=
  match v with
  | PNone => Ok None
  | PStr s => Ok (Some s)
  | _ => Raise (OutsideModel field)
  end.

Definition expect_opt_int (field : string) (v : pyval) : result (option Z) :=
  match v with
  | PNone => Ok None
  | PInt z => Ok (Some z)
  | _ => Raise (OutsideModel field)
  end.

Fixpoint mapM {A B} (f : A → result B) (l : list A) : result (list B) :=
  match l with
  | [] => Ok []
  | a :: l' =>
      match f a with
      | Ok b => match mapM f l' with
                | Ok bs => Ok (b :: bs)
                | Raise e => Raise e
                end
      | Raise e => Raise e
      end
  end.

Definition expect_str_list (field : string) (v : pyval) : result (list string) :=
  match v with
  | PList l => mapM (expect_str field) l
  | _ => Raise (OutsideModel field)
  end.

End Py.
Import Py.

(** ** Fixed-width numerals, as printed by [%0wd] and [%0wx] *)

Module Numeral.
Local Open Scope Z_scope.

Definition digit_char (d : Z) : ascii :=
  nth (Z.to_nat d) (String.list_ascii_of_string "0123456789abcdef") "0"%char.

Definition digit_val (c : ascii) : option Z :=
  let n := Z.of_N (N_of_ascii c) in
  if (48 <=? n) && (n <=? 57) then Some (n - 48)
  else if (97 <=? n) && (n <=? 102) then Some (n - 87)
  else if (65 <=? n) && (n <=? 70) then Some (n - 55)
  else None.

(** The [width] low-order digits of [n] in [base], most significant first:
    what [%0wd] prints for [0 <= n < base ^ width]. *)
Fixpoint digits_fixed (base : Z) (width : nat) (n : Z) : list ascii :=
  match width with
  | O => []
  | S w => digit_char ((n / base ^ Z.of_nat w) mod base) :: digits_fixed base w n
  end.

(** Reads exactly [width] digits, returning the number and the rest. *)
Fixpoint parse_digits (base : Z) (width : nat) (acc : Z) (s : list ascii)
  : option (Z * list ascii) :=
  match width with
  | O => Some (acc, s)
  | S w =>
      match s with
      | c :: s' =>
          match digit_val c with
          | Some d => if d <? base then parse_digits base w (acc * base + d) s' else None
          | None => None
          end
      | [] => None
      end
  end.

(** Consumes the character [c]. *)
Definition expect_char (c : ascii) (s : list ascii) : option (list ascii) :=
  match s with
  | c' :: s' => if Ascii.eqb c c' then Some s' else None
  | [] => None
  end.

(** Consumes one character, whatever it is. *)
Definition any_char (s : list ascii) : option (list ascii) :=
  match s with
  | _ :: s' => Some s'
  | [] => None
  end.

End Numeral.
Import Numeral.

(** ** [uuid.UUID] *)

Module UUID.
Local Open Scope Z_scope.

(** A UUID is its 128-bit integer ([UUID.int]). *)
Record t := mk { int : Z }.

Global Instance eq_dec : EqDecision t.
Proof. solve_decision. Defined.

Global Instance countable : Countable t.
Proof.
  exact (inj_countable' int mk (λ u, match u with mk _ => eq_refl end)).
Defined.

Definition wf (u : t) : Prop := 0 <= int u < 2 ^ 128.

Definition hyphen : ascii := "-"%char.

(** [str(u)]: 32 lower-case hexadecimal digits in groups 8-4-4-4-12. *)
Definition str (u : t) : string :=
  let hex := digits_fixed 16 32 (int u) in
  String.string_of_list_ascii
    (take 8 hex ++ hyphen :: take 4 (drop 8 hex) ++ hyphen ::
     take 4 (drop 12 hex) ++ hyphen :: take 4 (drop 16 hex) ++ hyphen ::
     drop 20 hex).

(** [UUID(s)]: the hyphens are removed, 32 characters must remain and are
    read as a hexadecimal number.  (The standard library also strips a
    [urn:uuid:] prefix and braces, and [int(_, 16)] tolerates a few more
    spellings; [str] writes none of them.) *)
Definition of_str (s : string) : result t :=
  let hex := filter (λ c, c ≠ hyphen) (String.list_ascii_of_string s) in
  if decide (length hex = 32%nat) then
    match parse_digits 16 32 0 hex with
    | Some (n, _) => Ok (mk n)
    | None => Raise (ValueError "invalid literal for int() with base 16")
    end
  else Raise (ValueError "badly formed hexadecimal UUID string").

(** [UUID(v)] for a value taken from a dictionary. *)
Definition of_py (v : pyval) : result t :=
  match v with
  | PStr s => of_str s
  | _ => Raise (TypeError "UUID() argument must be a string")
  end.

End UUID.

(** ** Naive [datetime.datetime] *)

Module Datetime.
Local Open Scope Z_scope.

(** The fields a [datetime] object stores.  The code only creates naive
    values ([datetime.now()]), so there is no [tzinfo]. *)
Record t := mk {
  year : Z; month : Z; day : Z;
  hour : Z; minute : Z; second : Z; microsecond : Z
}.

Definition is_leap (y : Z) : bool :=
  (y mod 4 =? 0) && (negb (y mod 100 =? 0) || (y mod 400 =? 0)).

Definition DAYS_IN_MONTH : list Z :=
  [-1; 31; 28; 31; 30; 31; 30; 31; 31; 30; 31; 30; 31].

Definition DAYS_BEFORE_MONTH : list Z :=
  [-1; 0; 31; 59; 90; 120; 151; 181; 212; 243; 273; 304; 334].

Definition days_in_month (y m : Z) : Z :=
  if (m =? 2) && is_leap y then 29 else nth (Z.to_nat m) DAYS_IN_MONTH 0.

Definition days_before_year (y : Z) : Z :=
  let y := y - 1 in y * 365 + y / 4 - y / 100 + y / 400.

Definition days_before_month (y m : Z) : Z :=
  nth (Z.to_nat m) DAYS_BEFORE_MONTH 0 + (if (2 <? m) && is_leap y then 1 else 0).

Definition ymd2ord (y m d : Z) : Z :=
  days_before_year y + days_before_month y m + d.

Definition DI400Y : Z := 146097.
Definition DI100Y : Z := 36524.
Definition DI4Y : Z := 1461.
Definition MAXORDINAL : Z := 3652059.

Definition ord2ymd (n : Z) : Z * Z * Z :=
  let n := n - 1 in
  let n400 := n / DI400Y in
  let n := n mod DI400Y in
  let n100 := n / DI100Y in
  let n := n mod DI100Y in
  let n4 := n / DI4Y in
  let n := n mod DI4Y in
  let n1 := n / 365 in
  let n := n mod 365 in
  let y := n400 * 400 + 1 + n100 * 100 + n4 * 4 + n1 in
  if (n1 =? 4) || (n100 =? 4) then (y - 1, 12, 31)
  else
    let leapyear := (n1 =? 3) && (negb (n4 =? 24) || (n100 =? 3)) in
    let m := Z.shiftr (n + 50) 5 in
    let preceding :=
      nth (Z.to_nat m) DAYS_BEFORE_MONTH 0 + (if (2 <? m) && leapyear then 1 else 0) in
    if n <? preceding then
      let m := m - 1 in
      let preceding :=
        preceding - (nth (Z.to_nat m) DAYS_IN_MONTH 0
                     + (if (m =? 2) && leapyear then 1 else 0)) in
      (y, m, n - preceding + 1)
    else (y, m, n - preceding + 1).

(** The ranges the constructor enforces: every [datetime] object has them. *)
Definition valid (d : t) : bool :=
  (1 <=? year d) && (year d <=? 9999) &&
  (1 <=? month d) && (month d <=? 12) &&
  (1 <=? day d) && (day d <=? days_in_month (year d) (month d)) &&
  (0 <=? hour d) && (hour d <=? 23) &&
  (0 <=? minute d) && (minute d <=? 59) &&
  (0 <=? second d) && (second d <=? 59) &&
  (0 <=? microsecond d) && (microsecond d <=? 999999).

(** [self + timedelta(days=days)]: [timedelta] refuses more than 999999999
    days, and the sum must be an ordinal of the years 1 to 9999.  The time
    of day is kept. *)
Definition add_days (self : t) (days : Z) : result t :=
  if 999999999 <? Z.abs days then
    Raise (OverflowError "days must have magnitude <= 999999999")
  else
    let o := ymd2ord (year self) (month self) (day self) + days in
    if (0 <? o) && (o <=? MAXORDINAL) then
      let '(y, m, d) := ord2ymd o in
      Ok (mk y m d (hour self) (minute self) (second self) (microsecond self))
    else Raise (OverflowError "date value out of range").

(** [self.isoformat()]: [YYYY-MM-DDTHH:MM:SS], followed by [.ffffff] when the
    microsecond is not zero. *)
Definition isoformat_chars (self : t) : list ascii :=
  digits_fixed 10 4 (year self) ++ "-"%char ::
  digits_fixed 10 2 (month self) ++ "-"%char ::
  digits_fixed 10 2 (day self) ++ "T"%char ::
  digits_fixed 10 2 (hour self) ++ ":"%char ::
  digits_fixed 10 2 (minute self) ++ ":"%char ::
  digits_fixed 10 2 (second self) ++
  (if microsecond self =? 0 then []
   else "."%char :: digits_fixed 10 6 (microsecond self)).

Definition isoformat (self : t) : string :=
  String.string_of_list_ascii (isoformat_chars self).

(** The two shapes [isoformat] writes, with any character as separator
    between date and time.  (The standard library reads further ISO 8601
    spellings; this code writes none of them.) *)
Definition parse_iso (s : list ascii) : option t :=
  '(y, s) ← parse_digits 10 4 0 s;
  s ← expect_char "-"%char s;
  '(m, s) ← parse_digits 10 2 0 s;
  s ← expect_char "-"%char s;
  '(d, s) ← parse_digits 10 2 0 s;
  s ← any_char s;
  '(h, s) ← parse_digits 10 2 0 s;
  s ← expect_char ":"%char s;
  '(mi, s) ← parse_digits 10 2 0 s;
  s ← expect_char ":"%char s;
  '(sec, s) ← parse_digits 10 2 0 s;
  match s with
  | [] => Some (mk y m d h mi sec 0)
  | _ =>
      s ← expect_char "."%char s;
      '(us, s) ← parse_digits 10 6 0 s;
      match s with
      | [] => Some (mk y m d h mi sec us)
      | _ => None
      end
  end.

(** [datetime.fromisoformat(s)] *)
Definition fromisoformat (s : string) : result t :=
  match parse_iso (String.list_ascii_of_string s) with
  | Some d =>
      if valid d then Ok d else Raise (ValueError "value out of range")
  | None => Raise (ValueError "Invalid isoformat string")
  end.

Definition of_py (v : pyval) : result t :=
  match v with
  | PStr s => fromisoformat s
  | _ => Raise (TypeError "fromisoformat: argument must be str")
  end.

End Datetime.

(** ** The sources of identifiers and of time

    [uuid4()] and [datetime.now()] read the outside world.  A world holds
    the answers they will give and counts the calls made so far. *)

Module World.

Record t := mk {
  uuid_source : nat → UUID.t;
  uuid_calls : nat;
  clock : nat → Datetime.t;
  clock_calls : nat
}.

Definition uuid4 (w : t) : UUID.t * t :=
  (uuid_source w (uuid_calls w),
   mk (uuid_source w) (S (uuid_calls w)) (clock w) (clock_calls w)).

Definition now (w : t) : Datetime.t * t :=
  (clock w (clock_calls w),
   mk (uuid_source w) (uuid_calls w) (clock w) (S (clock_calls w))).

End World.

(** ** [task.py] *)

Module TaskStatus.

Inductive t := PENDING | IN_PROGRESS | COMPLETED | BLOCKED.

Global Instance eq_dec : EqDecision t.
Proof. solve_decision. Defined.

(** [status.value] *)
Definition value (s : t) : string :=
  match s with
  | PENDING => "pending"
  | IN_PROGRESS => "in_progress"
  | COMPLETED => "completed"
  | BLOCKED => "blocked"
  end.

(** [TaskStatus(v)] *)
Definition of_value (v : pyval) : result t :=
  match v with
  | PStr s =>
      if String.eqb s "pending" then Ok PENDING
      else if String.eqb s "in_progress" then Ok IN_PROGRESS
      else if String.eqb s "completed" then Ok COMPLETED
      else if String.eqb s "blocked" then Ok BLOCKED
      else Raise (ValueError "not a valid TaskStatus")
  | _ => Raise (ValueError "not a valid TaskStatus")
  end.

End TaskStatus.

Definition expect_dict (field : string) (v : pyval) : result dict :=
  match v with
  | PDict d => Ok d
  | _ => Raise (OutsideModel field)
  end.

Definition opt_to_py {A} (f : A → pyval) (o : option A) : pyval :=
  match o with
  | Some a => f a
  | None => PNone
  end.

Module Task.
Import TaskStatus.

Record t := mk {
  id : UUID.t;
  title : string;
  description : string;
  status : TaskStatus.t;
  created_at : Datetime.t;
  completed_at : option Datetime.t;
  assignee : option string;
  due_date : option Datetime.t;
  dependencies : list UUID.t;
  metadata : dict
}.

Definition set_status (s : TaskStatus.t) (self : t) : t :=
  mk (id self) (title self) (description self) s (created_at self)
     (completed_at self) (assignee self) (due_date self) (dependencies self)
     (metadata self).

Definition set_completed_at (c : option Datetime.t) (self : t) : t :=
  mk (id self) (title self) (description self) (status self) (created_at self)
     c (assignee self) (due_date self) (dependencies self) (metadata self).

Definition set_due_date (d : option Datetime.t) (self : t) : t :=
  mk (id self) (title self) (description self) (status self) (created_at self)
     (completed_at self) (assignee self) d (dependencies self) (metadata self).

Definition set_dependencies (ds : list UUID.t) (self : t) : t :=
  mk (id self) (title self) (description self) (status self) (created_at self)
     (completed_at self) (assignee self) (due_date self) ds (metadata self).

(** [Task(title=..., description=..., assignee=..., metadata=...)]: the
    default factories run in field order, [uuid4()] for [id] and then
    [datetime.now()] for [created_at]. *)
Definition create (title description : string) (assignee : option string)
    (metadata : dict) (w : World.t) : t * World.t :=
  let '(i, w) := World.uuid4 w in
  let '(c, w) := World.now w in
  (mk i title description PENDING c None assignee None [] metadata, w).

Definition mark_in_progress (self : t) : t :=
  if decide (status self = PENDING) then set_status IN_PROGRESS self else self.

Definition mark_completed (self : t) (w : World.t) : t * World.t :=
  let self := set_status COMPLETED self in
  let '(n, w) := World.now w in
  (set_completed_at (Some n) self, w).

Definition mark_blocked (self : t) : t :=
  set_status BLOCKED self.

(** The loop of [is_blocked_by_dependencies] over [self.dependencies]. *)
Fixpoint blocked_loop (all_tasks : gmap UUID.t t) (deps : list UUID.t) : bool :=
  match deps with
  | [] => false
  | dep_id :: rest =>
      match all_tasks !! dep_id with
      | Some dep_task =>
          if decide (status dep_task ≠ COMPLETED) then true
          else blocked_loop all_tasks rest
      | None => blocked_loop all_tasks rest
      end
  end.

Definition is_blocked_by_dependencies (self : t) (all_tasks : gmap UUID.t t) : bool :=
  blocked_loop all_tasks (dependencies self).

Definition can_start (self : t) (all_tasks : gmap UUID.t t) : bool :=
  negb (is_blocked_by_dependencies self all_tasks).

Definition to_dict (self : t) : dict :=
  [ ("id", PStr (UUID.str (id self)));
    ("title", PStr (title self));
    ("description", PStr (description self));
    ("status", PStr (value (status self)));
    ("created_at", PStr (Datetime.isoformat (created_at self)));
    ("completed_at", opt_to_py (λ d, PStr (Datetime.isoformat d)) (completed_at self));
    ("assignee", opt_to_py PStr (assignee self));
    ("due_date", opt_to_py (λ d, PStr (Datetime.isoformat d)) (due_date self));
    ("dependencies", PList ((λ dep_id, PStr (UUID.str dep_id)) <$> dependencies self));
    ("metadata", PDict (metadata self)) ].

(** [datetime.fromisoformat(data[k]) if data.get(k) else None] *)
Definition opt_datetime (data : dict) (k : string) : result (option Datetime.t) :=
  if truthy (get data k PNone) then
    v ← getitem data k; d ← Datetime.of_py v; Ok (Some d)
  else Ok None.

Definition from_dict (data : dict) : result t :=
  id ← getitem data "id" ≫= UUID.of_py;
  title ← getitem data "title" ≫= expect_str "title";
  description ← getitem data "description" ≫= expect_str "description";
  status ← getitem data "status" ≫= of_value;
  created_at ← getitem data "created_at" ≫= Datetime.of_py;
  completed_at ← opt_datetime data "completed_at";
  assignee ← expect_opt_str "assignee" (get data "assignee" PNone);
  due_date ← opt_datetime data "due_date";
  dependencies ← iterate (get data "dependencies" (PList [])) ≫= mapM UUID.of_py;
  metadata ← expect_dict "metadata" (get data "metadata" (PDict []));
  Ok (mk id title description status created_at completed_at assignee due_date
         dependencies metadata).

End Task.

(** ** [state.py] *)

Module TaskTemplate.

Record t := mk {
  title : string;
  description : string;
  assignee : option string;
  days_until_due : option Z;
  dependencies : list string;
  metadata : dict
}.

Definition field_names : list string :=
  ["title"; "description"; "assignee"; "days_until_due"; "dependencies"; "metadata"].

(** The dictionary [State.to_dict] writes for one template. *)
Definition to_dict (tt : t) : dict :=
  [ ("title", PStr (title tt));
    ("description", PStr (description tt));
    ("assignee", opt_to_py PStr (assignee tt));
    ("days_until_due", opt_to_py PInt (days_until_due tt));
    ("dependencies", PList (PStr <$> dependencies tt));
    ("metadata", PDict (metadata tt)) ].

(** [TaskTemplate] called with the keyword arguments of the dictionary
    [tt]: every key must be a field, and [title] has no default. *)
Definition from_kwargs (tt : pyval) : result t :=
  match tt with
  | PDict kw =>
      if forallb (λ kv, bool_decide (kv.1 ∈ field_names)) kw then
        match dict_lookup "title" kw with
        | None => Raise (TypeError "missing 1 required positional argument: 'title'")
        | Some v =>
            title ← expect_str "title" v;
            description ← expect_str "description" (get kw "description" (PStr ""));
            assignee ← expect_opt_str "assignee" (get kw "assignee" PNone);
            days_until_due ← expect_opt_int "days_until_due" (get kw "days_until_due" PNone);
            dependencies ← expect_str_list "dependencies" (get kw "dependencies" (PList []));
            metadata ← expect_dict "metadata" (get kw "metadata" (PDict []));
            Ok (mk title description assignee days_until_due dependencies metadata)
        end
      else Raise (TypeError "got an unexpected keyword argument")
  | _ => Raise (TypeError "keyword arguments must be a mapping")
  end.

End TaskTemplate.

(** [State] objects are mutable and shared: the registry, a transaction's
    [current_state] and a child's [parent] all refer to the same object.
    An object is a location of a store. *)
Abbreviation loc := positive.

Module State.

Record t := mk {
  name : string;
  display_name : string;
  description : string;
  parent : option loc;
  children : list loc;
  allowed_transitions : gset string;
  task_templates : list TaskTemplate.t;
  metadata : dict
}.

Abbreviation store := (gmap loc t).

(** Reading through a reference.  In Python a reference always leads to an
    object; the store of the model is closed when it does here too. *)
Definition deref (h : store) (l : loc) : result t :=
  match h !! l with
  | Some s => Ok s
  | None => Raise (OutsideModel "reference to an object that is not in the store")
  end.

Definition can_transition_to (self : t) (target_state_name : string) : bool :=
  bool_decide (target_state_name ∈ allowed_transitions self).

Definition add_allowed_transition (self : t) (state_name : string) : t :=
  mk (name self) (display_name self) (description self) (parent self)
     (children self) ({[state_name]} ∪ allowed_transitions self)
     (task_templates self) (metadata self).

(** The loop of [get_full_path]: [path.insert(0, current.name)] then
    [current = current.parent], while [current] is an object.  [fuel]
    bounds the number of iterations; [None] means the loop was still
    running when it was used up. *)
Fixpoint get_full_path_loop (h : store) (fuel : nat) (path : list string)
    (current : option loc) : option (result (list string)) :=
  match current with
  | None => Some (Ok path)
  | Some l =>
      match fuel with
      | O => None
      | S fuel =>
          match deref h l with
          | Ok s => get_full_path_loop h fuel (name s :: path) (parent s)
          | Raise e => Some (Raise e)
          end
      end
  end.

Definition get_full_path (h : store) (fuel : nat) (self : loc)
  : option (result (list string)) :=
  get_full_path_loop h fuel [] (Some self).

(** The dictionary [to_dict] returns, given the value of
    [self.parent.name if self.parent else None]. *)
Definition fields (parent_name : pyval) (self : t) : dict :=
  [ ("name", PStr (name self));
    ("display_name", PStr (display_name self));
    ("description", PStr (description self));
    ("parent", parent_name);
    ("allowed_transitions", PList (PStr <$> elements (allowed_transitions self)));
    ("task_templates",
     PList ((λ tt, PDict (TaskTemplate.to_dict tt)) <$> task_templates self));
    ("metadata", PDict (metadata self)) ].

Definition to_dict (h : store) (self : t) : result dict :=
  parent_name ←
    match parent self with
    | Some p => s ← deref h p; Ok (PStr (name s))
    | None => Ok PNone
    end;
  Ok (fields parent_name self).

(** A state as [from_dict] builds it: a new object, without children. *)
Definition rebuilt (parent : option loc) (self : t) : t :=
  mk (name self) (display_name self) (description self) parent []
     (allowed_transitions self) (task_templates self) (metadata self).

(** An element of [set(...)] must be hashable; the set is a set of
    strings. *)
Definition set_element (v : pyval) : result string :=
  if hashable v then expect_str "allowed_transitions" v
  else Raise (TypeError "unhashable type").

(** Looking a value up as a key of a dictionary whose keys are strings:
    [v in d] and [d.get(v)]. *)
Definition lookup_key {A} (d : gmap string A) (v : pyval) : result (option A) :=
  match v with
  | PStr n => Ok (d !! n)
  | _ => if hashable v then Ok None else Raise (TypeError "unhashable type")
  end.

(** [State.from_dict(data, state_registry)]; [_states] is
    [state_registry._states]. *)
Definition from_dict (data : dict) (_states : gmap string loc) : result t :=
  name ← getitem data "name" ≫= expect_str "name";
  display_name ← getitem data "display_name" ≫= expect_str "display_name";
  description ← expect_str "description" (get data "description" (PStr ""));
  allowed ← iterate (get data "allowed_transitions" (PList [])) ≫= mapM set_element;
  task_templates ←
    iterate (get data "task_templates" (PList [])) ≫= mapM TaskTemplate.from_kwargs;
  metadata ← expect_dict "metadata" (get data "metadata" (PDict []));
  let state :=
    mk name display_name description None [] (list_to_set allowed) task_templates
       metadata in
  let parent_name := get data "parent" PNone in
  if truthy parent_name then
    found ← lookup_key _states parent_name;
    match found with
    | Some p =>
        Ok (mk name display_name description (Some p) [] (list_to_set allowed)
               task_templates metadata)
    | None => Ok state
    end
  else Ok state.

Definition set_parent (p : option loc) (self : t) : t :=
  mk (name self) (display_name self) (description self) p (children self)
     (allowed_transitions self) (task_templates self) (metadata self).

Definition set_children (cs : list loc) (self : t) : t :=
  mk (name self) (display_name self) (description self) (parent self) cs
     (allowed_transitions self) (task_templates self) (metadata self).

(** [a == b] for two [State] objects, where it is decided by identity or
    by the first field: the same object is equal to itself, and the
    dataclass comparison of two objects stops at [name] when the names
    differ.  Two distinct objects of the same name are compared field by
    field through [parent] and [children]; the model stops there. *)
Definition equal (h : store) (a b : loc) : result bool :=
  if decide (a = b) then Ok true
  else
    sa ← deref h a;
    sb ← deref h b;
    if decide (name sa = name sb)
    then Raise (OutsideModel "comparison of two states of the same name")
    else Ok false.

(** [child_state in children] *)
Fixpoint contains (h : store) (children : list loc) (child_state : loc)
  : result bool :=
  match children with
  | [] => Ok false
  | c :: rest =>
      match equal h c child_state with
      | Ok true => Ok true
      | Ok false => contains h rest child_state
      | Raise e => Raise e
      end
  end.

(** [self.add_child(child_state)]: the store after
    [child_state.parent = self] and, if the child is not among
    [self.children], after the append. *)
Definition add_child (h : store) (self child_state : loc) : result store :=
  child ← deref h child_state;
  let h := <[child_state := set_parent (Some self) child]> h in
  self_obj ← deref h self;
  match contains h (children self_obj) child_state with
  | Ok true => Ok h
  | Ok false =>
      Ok (<[self := set_children (children self_obj ++ [child_state]) self_obj]> h)
  | Raise e => Raise e
  end.

End State.

Module StateRegistry.

Record t := mk { _states : gmap string loc }.

Definition init : t := mk ∅.

Definition register (h : State.store) (self : t) (state : loc) : result t :=
  s ← State.deref h state;
  Ok (mk (<[State.name s := state]> (_states self))).

Definition get (self : t) (name : string) : option loc :=
  _states self !! name.

Definition all_states (self : t) : gmap string loc :=
  _states self.

Definition undefined_message (state_name target_name : string) : string :=
  "State '" +:+ state_name +:+ "' allows transition to undefined state '"
    +:+ target_name +:+ "'".

(** The inner loop of [validate_transitions], over one state's
    [allowed_transitions]. *)
Definition check_targets (self : t) (state : State.t) (errors : list string)
  : list string :=
  fold_left
    (λ errors target_name,
       if decide (_states self !! target_name = None)
       then errors ++ [undefined_message (State.name state) target_name]
       else errors)
    (elements (State.allowed_transitions state)) errors.

(** The outer loop, over [self._states.values()]. *)
Fixpoint validate_loop (h : State.store) (self : t) (values : list loc)
    (errors : list string) : result (list string) :=
  match values with
  | [] => Ok errors
  | l :: rest =>
      match State.deref h l with
      | Ok state => validate_loop h self rest (check_targets self state errors)
      | Raise e => Raise e
      end
  end.

Definition validate_transitions (h : State.store) (self : t) : result (list string) :=
  validate_loop h self ((map_to_list (_states self)).*2) [].

End StateRegistry.

(** ** [transaction.py] *)

Module StateTransition.

Record t := mk {
  timestamp : Datetime.t;
  from_state : option string;
  to_state : string;
  notes : string;
  metadata : dict
}.

Definition to_dict (self : t) : dict :=
  [ ("timestamp", PStr (Datetime.isoformat (timestamp self)));
    ("from_state", opt_to_py PStr (from_state self));
    ("to_state", PStr (to_state self));
    ("notes", PStr (notes self));
    ("metadata", PDict (metadata self)) ].

Definition from_dict (data : dict) : result t :=
  timestamp ← getitem data "timestamp" ≫= Datetime.of_py;
  from_state ← expect_opt_str "from_state" (get data "from_state" PNone);
  to_state ← getitem data "to_state" ≫= expect_str "to_state";
  notes ← expect_str "notes" (get data "notes" (PStr ""));
  metadata ← expect_dict "metadata" (get data "metadata" (PDict []));
  Ok (mk timestamp from_state to_state notes metadata).

End StateTransition.

Module Transaction.

Record t := mk {
  id : UUID.t;
  property_address : string;
  current_state : option loc;
  state_history : list StateTransition.t;
  tasks : gmap UUID.t Task.t;
  property_metadata : dict;
  created_at : Datetime.t;
  metadata : dict;
  _state_registry : option StateRegistry.t
}.

Definition set_current_state (c : option loc) (self : t) : t :=
  mk (id self) (property_address self) c (state_history self) (tasks self)
     (property_metadata self) (created_at self) (metadata self)
     (_state_registry self).

Definition set_state_history (hist : list StateTransition.t) (self : t) : t :=
  mk (id self) (property_address self) (current_state self) hist (tasks self)
     (property_metadata self) (created_at self) (metadata self)
     (_state_registry self).

Definition set_tasks (ts : gmap UUID.t Task.t) (self : t) : t :=
  mk (id self) (property_address self) (current_state self) (state_history self)
     ts (property_metadata self) (created_at self) (metadata self)
     (_state_registry self).

Definition set_state_registry (registry : StateRegistry.t) (self : t) : t :=
  mk (id self) (property_address self) (current_state self) (state_history self)
     (tasks self) (property_metadata self) (created_at self) (metadata self)
     (Some registry).

(** The body of the first loop of [_create_tasks_from_templates] up to the
    due date: the new [Task], or the overflow of the date arithmetic.
    [template.metadata.copy()] is a new dictionary with the same entries:
    the same value here, where no two objects share a dictionary. *)
Definition instantiate (template : TaskTemplate.t) (w : World.t)
  : result Task.t * World.t :=
  let '(task, w) :=
    Task.create (TaskTemplate.title template) (TaskTemplate.description template)
                (TaskTemplate.assignee template) (TaskTemplate.metadata template) w in
  match TaskTemplate.days_until_due template with
  | Some days =>
      let '(now, w) := World.now w in
      match Datetime.add_days now days with
      | Ok due => (Ok (Task.set_due_date (Some due) task), w)
      | Raise e => (Raise e, w)
      end
  | None => (Ok task, w)
  end.

(** First loop: one task per template, recorded under the template's
    title and inserted into [self.tasks]. *)
Fixpoint instantiate_loop (templates : list TaskTemplate.t)
    (template_to_task : gmap string UUID.t) (self : t) (w : World.t)
  : result (gmap string UUID.t) * t * World.t :=
  match templates with
  | [] => (Ok template_to_task, self, w)
  | template :: rest =>
      match instantiate template w with
      | (Ok task, w) =>
          let template_to_task :=
            <[TaskTemplate.title template := Task.id task]> template_to_task in
          let self := set_tasks (<[Task.id task := task]> (tasks self)) self in
          instantiate_loop rest template_to_task self w
      | (Raise e, w) => (Raise e, self, w)
      end
  end.

(** The innermost loop: each dependency name found in [template_to_task]
    appends the task id recorded for it. *)
Definition wire (template_to_task : gmap string UUID.t) (deps : list string)
    (task : Task.t) : Task.t :=
  fold_left
    (λ task dep_template_name,
       match template_to_task !! dep_template_name with
       | Some dep_id =>
           Task.set_dependencies (Task.dependencies task ++ [dep_id]) task
       | None => task
       end)
    deps task.

(** Second loop.  The task is an object held by [self.tasks]; appending to
    its [dependencies] changes the entry of the map. *)
Fixpoint resolve_loop (templates : list TaskTemplate.t)
    (template_to_task : gmap string UUID.t) (self : t) : result unit * t :=
  match templates with
  | [] => (Ok (), self)
  | template :: rest =>
      match TaskTemplate.dependencies template with
      | [] => resolve_loop rest template_to_task self
      | deps =>
          match template_to_task !! TaskTemplate.title template with
          | None => (Raise (KeyError (TaskTemplate.title template)), self)
          | Some task_id =>
              match tasks self !! task_id with
              | None => (Raise (KeyError (UUID.str task_id)), self)
              | Some task =>
                  let task := wire template_to_task deps task in
                  resolve_loop rest template_to_task
                    (set_tasks (<[task_id := task]> (tasks self)) self)
              end
          end
      end
  end.

Definition _create_tasks_from_templates (state : State.t) (self : t) (w : World.t)
  : result unit * t * World.t :=
  match instantiate_loop (State.task_templates state) ∅ self w with
  | (Ok template_to_task, self, w) =>
      let '(r, self) := resolve_loop (State.task_templates state) template_to_task self in
      (r, self, w)
  | (Raise e, self, w) => (Raise e, self, w)
  end.

(** The part of [transition_to] after validation: record the transition,
    replace the current state, expand the templates. *)
Definition enter (h : State.store) (from_state : option string)
    (target_state : loc) (target_state_name notes : string)
    (auto_create_tasks : bool) (self : t) (w : World.t)
  : result bool * t * World.t :=
  let '(now, w) := World.now w in
  let transition := StateTransition.mk now from_state target_state_name notes [] in
  let self := set_state_history (state_history self ++ [transition]) self in
  let self := set_current_state (Some target_state) self in
  if auto_create_tasks then
    match State.deref h target_state with
    | Ok state =>
        match _create_tasks_from_templates state self w with
        | (Ok _, self, w) => (Ok true, self, w)
        | (Raise e, self, w) => (Raise e, self, w)
        end
    | Raise e => (Raise e, self, w)
    end
  else (Ok true, self, w).

Definition transition_to (h : State.store) (target_state_name notes : string)
    (auto_create_tasks : bool) (self : t) (w : World.t)
  : result bool * t * World.t :=
  match _state_registry self with
  | None =>
      (Raise (ValueError "State registry not set. Call set_state_registry() first."),
       self, w)
  | Some registry =>
      match StateRegistry.get registry target_state_name with
      | None => (Raise (ValueError ("Unknown state: " +:+ target_state_name)), self, w)
      | Some target_state =>
          match current_state self with
          | Some current =>
              match State.deref h current with
              | Ok current_obj =>
                  if State.can_transition_to current_obj target_state_name then
                    enter h (Some (State.name current_obj)) target_state
                          target_state_name notes auto_create_tasks self w
                  else (Ok false, self, w)
              | Raise e => (Raise e, self, w)
              end
          | None =>
              enter h None target_state target_state_name notes auto_create_tasks
                    self w
          end
      end
  end.

Definition add_task (task : Task.t) (self : t) : UUID.t * t :=
  (Task.id task, set_tasks (<[Task.id task := task]> (tasks self)) self).

Definition get_task (self : t) (task_id : UUID.t) : option Task.t :=
  tasks self !! task_id.

(** [{str(task_id): task.to_dict() for task_id, task in self.tasks.items()}] *)
Definition tasks_to_dict (ts : gmap UUID.t Task.t) : dict :=
  fold_left
    (λ d kv, dict_set (UUID.str kv.1) (PDict (Task.to_dict kv.2)) d)
    (map_to_list ts) [].

(** The dictionary [to_dict] returns, given the value of
    [self.current_state.name if self.current_state else None]. *)
Definition fields (current_state_name : pyval) (self : t) : dict :=
  [ ("id", PStr (UUID.str (id self)));
    ("property_address", PStr (property_address self));
    ("current_state", current_state_name);
    ("state_history",
     PList ((λ t, PDict (StateTransition.to_dict t)) <$> state_history self));
    ("tasks", PDict (tasks_to_dict (tasks self)));
    ("property_metadata", PDict (property_metadata self));
    ("created_at", PStr (Datetime.isoformat (created_at self)));
    ("metadata", PDict (metadata self)) ].

Definition to_dict (h : State.store) (self : t) : result dict :=
  current_state_name ←
    match current_state self with
    | Some c => s ← State.deref h c; Ok (PStr (State.name s))
    | None => Ok PNone
    end;
  Ok (fields current_state_name self).

(** [{UUID(task_id): Task.from_dict(task_data) for task_id, task_data in ...}] *)
Fixpoint tasks_from_items (entries : dict) (acc : gmap UUID.t Task.t)
  : result (gmap UUID.t Task.t) :=
  match entries with
  | [] => Ok acc
  | (task_id, task_data) :: rest =>
      match UUID.of_str task_id with
      | Ok k =>
          match as_dict task_data ≫= Task.from_dict with
          | Ok task => tasks_from_items rest (<[k := task]> acc)
          | Raise e => Raise e
          end
      | Raise e => Raise e
      end
  end.

Definition from_dict (data : dict) (state_registry : StateRegistry.t) : result t :=
  id ← getitem data "id" ≫= UUID.of_py;
  property_address ← getitem data "property_address" ≫= expect_str "property_address";
  state_history ←
    iterate (get data "state_history" (PList []))
      ≫= mapM (λ t, as_dict t ≫= StateTransition.from_dict);
  tasks ← items (get data "tasks" (PDict [])) ≫= λ entries, tasks_from_items entries ∅;
  property_metadata ←
    expect_dict "property_metadata" (get data "property_metadata" (PDict []));
  created_at ← getitem data "created_at" ≫= Datetime.of_py;
  metadata ← expect_dict "metadata" (get data "metadata" (PDict []));
  let transaction :=
    mk id property_address None state_history tasks property_metadata created_at
       metadata None in
  let transaction := set_state_registry state_registry transaction in
  let current_state_name := get data "current_state" PNone in
  if truthy current_state_name then
    found ← State.lookup_key (StateRegistry._states state_registry) current_state_name;
    Ok (set_current_state found transaction)
  else Ok transaction.

(** [[t for t in self.tasks.values() if t.status == status]] *)
Definition get_tasks_by_status (self : t) (status : TaskStatus.t) : list Task.t :=
  filter (λ task, Task.status task = status) (map_to_list (tasks self)).*2.

(** [[t for t in self.tasks.values()
      if t.status == TaskStatus.PENDING and t.can_start(self.tasks)]] *)
Definition get_pending_tasks (self : t) : list Task.t :=
  filter (λ task, Task.status task = TaskStatus.PENDING
                  ∧ Task.can_start task (tasks self) = true)
         (map_to_list (tasks self)).*2.

(** [get_state_path]: the path of the current state, the empty list when
    there is none.  [fuel] is that of [get_full_path]. *)
Definition get_state_path (h : State.store) (fuel : nat) (self : t)
  : option (result (list string)) :=
  match current_state self with
  | Some c => State.get_full_path h fuel c
  | None => Some (Ok [])
  end.

End Transaction.

(** ** Vocabulary of the properties *)

Module Hierarchy.

(** The object reached from [l] after [k] steps along [parent]. *)
Fixpoint nth_parent (h : State.store) (k : nat) (l : loc) : option loc :=
  match k with
  | O => Some l
  | S k => s ← h !! l; p ← State.parent s; nth_parent h k p
  end.

(** No state on the parent chain of [l] is its own ancestor. *)
Definition acyclic (h : State.store) (l : loc) : Prop :=
  ∀ i k x, nth_parent h i l = Some x → nth_parent h (S k) x ≠ Some x.

(** Every [parent] reference of the store leads to an object of the store. *)
Definition closed (h : State.store) : Prop :=
  ∀ l s p, h !! l = Some s → State.parent s = Some p → is_Some (h !! p).

(** [root_path h l path]: [path] lists the names on the parent chain of
    [l], from the ancestor that has no parent down to [l] itself. *)
Inductive root_path (h : State.store) : loc → list string → Prop :=
| root_path_root l s :
    h !! l = Some s → State.parent s = None →
    root_path h l [State.name s]
| root_path_child l s p path :
    h !! l = Some s → State.parent s = Some p → root_path h p path →
    root_path h l (path ++ [State.name s]).

End Hierarchy.

Module Consistency.

(** Every state the registry holds is an object of the store. *)
Definition registry_in_store (h : State.store) (registry : StateRegistry.t) : Prop :=
  ∀ k l, StateRegistry._states registry !! k = Some l → is_Some (h !! l).

(** [target_name] is allowed by the state registered under [key] and is
    itself not registered. *)
Definition undefined_target (h : State.store) (registry : StateRegistry.t)
    (key target_name : string) : Prop :=
  ∃ l state,
    StateRegistry._states registry !! key = Some l ∧ h !! l = Some state ∧
    target_name ∈ State.allowed_transitions state ∧
    StateRegistry._states registry !! target_name = None.

(** The names a state allows that the registry does not hold. *)
Definition undefined_targets (registry : StateRegistry.t) (state : State.t)
  : list string :=
  filter (λ target_name, StateRegistry._states registry !! target_name = None)
         (elements (State.allowed_transitions state)).

Definition pairs_of_entry (h : State.store) (registry : StateRegistry.t)
    (entry : string * loc) : list (string * string) :=
  match h !! entry.2 with
  | Some state => (λ target_name, (entry.1, target_name)) <$> undefined_targets registry state
  | None => []
  end.

(** All pairs (key of a registered state, undefined target), in the order
    of the two loops. *)
Definition undefined_pairs (h : State.store) (registry : StateRegistry.t)
  : list (string * string) :=
  map_to_list (StateRegistry._states registry) ≫= pairs_of_entry h registry.

Definition pair_message (h : State.store) (registry : StateRegistry.t)
    (pair : string * string) : string :=
  match StateRegistry._states registry !! pair.1 ≫= (h !!.) with
  | Some state => StateRegistry.undefined_message (State.name state) pair.2
  | None => ""
  end.

(** Every key of the registry is the name of the state it leads to, as
    [register] files a state under its [name]. *)
Definition named (h : State.store) (registry : StateRegistry.t) : Prop :=
  ∀ k l, StateRegistry._states registry !! k = Some l →
         ∃ s, h !! l = Some s ∧ State.name s = k.

End Consistency.

Module Audit.

(** The history is a chain: the first transition starts from no state and
    each later one starts from the state the one before it led to. *)
Definition chained (history : list StateTransition.t) : Prop :=
  (∀ first, head history = Some first → StateTransition.from_state first = None)
  ∧ (∀ i before after,
       history !! i = Some before → history !! S i = Some after →
       StateTransition.from_state after = Some (StateTransition.to_state before)).

(** The history ends where the transaction is: no transition and no
    current state, or a last transition into the current state. *)
Definition tracks (h : State.store) (self : Transaction.t) : Prop :=
  match Transaction.current_state self with
  | Some c =>
      ∃ final s,
        last (Transaction.state_history self) = Some final
        ∧ h !! c = Some s ∧ State.name s = StateTransition.to_state final
  | None => Transaction.state_history self = []
  end.

End Audit.

Module Expansion.

(** A loop of [m[k] = v] over the pairs of [l]. *)
Definition insert_all `{Countable K} {A : Type} (l : list (K * A))
    (m : gmap K A) : gmap K A :=
  fold_left (λ m kv, <[kv.1 := kv.2]> m) l m.

(** From [w] to [w']: [n] calls of [uuid4()] and some calls of
    [datetime.now()]. *)
Definition advances (w w' : World.t) (n : nat) : Prop :=
  World.uuid_source w' = World.uuid_source w
  ∧ World.clock w' = World.clock w
  ∧ World.uuid_calls w' = World.uuid_calls w + n
  ∧ World.clock_calls w ≤ World.clock_calls w'.

(** What the second loop does to the map of tasks: the task recorded for
    each template's title receives the identifiers its dependency names
    resolve to. *)
Definition wire_all (template_to_task : gmap string UUID.t)
    (templates : list TaskTemplate.t) (tasks : gmap UUID.t Task.t)
  : gmap UUID.t Task.t :=
  fold_left
    (λ tasks template,
       match template_to_task !! TaskTemplate.title template with
       | Some task_id =>
           alter (Transaction.wire template_to_task
                    (TaskTemplate.dependencies template)) task_id tasks
       | None => tasks
       end)
    templates tasks.

(** The pairs [self.tasks[task.id] = task] of the first loop. *)
Definition entries_of (created : list Task.t) : list (UUID.t * Task.t) :=
  (λ task, (Task.id task, task)) <$> created.

(** The mapping from titles to identifiers the first loop builds, and the
    map of tasks after both loops, given the tasks the first loop
    created. *)
Definition title_map (templates : list TaskTemplate.t) (created : list Task.t)
  : gmap string UUID.t :=
  insert_all (zip (TaskTemplate.title <$> templates) (Task.id <$> created)) ∅.

Definition final_tasks (templates : list TaskTemplate.t) (created : list Task.t)
    (tasks : gmap UUID.t Task.t) : gmap UUID.t Task.t :=
  wire_all (title_map templates created) templates
           (insert_all (entries_of created) tasks).

(** The identifiers the next [n] calls of [uuid4()] return. *)
Definition batch_ids (w : World.t) (n : nat) : list UUID.t :=
  (λ i, World.uuid_source w (World.uuid_calls w + i)) <$> seq 0 n.

(** Generated identifiers are unique: pairwise distinct, and not the
    identifier of a task the transaction already holds. *)
Definition fresh (tasks : gmap UUID.t Task.t) (ids : list UUID.t) : Prop :=
  NoDup ids ∧ ∀ id, id ∈ ids → tasks !! id = None.

(** What a new task carries over from its template.  The due date is the
    reading [now] of the clock at some call made between the worlds [w]
    and [w'], plus [days_until_due]. *)
Definition carries (w w' : World.t) (template : TaskTemplate.t) (task : Task.t)
  : Prop :=
  Task.title task = TaskTemplate.title template
  ∧ Task.description task = TaskTemplate.description template
  ∧ Task.assignee task = TaskTemplate.assignee template
  ∧ Task.metadata task = TaskTemplate.metadata template
  ∧ Task.status task = TaskStatus.PENDING
  ∧ Task.completed_at task = None
  ∧ match TaskTemplate.days_until_due template with
    | Some days =>
        ∃ k due,
          World.clock_calls w ≤ k < World.clock_calls w'
          ∧ Datetime.add_days (World.clock w k) days = Ok due
          ∧ Task.due_date task = Some due
    | None => Task.due_date task = None
    end.

(** [resolves templates ids f]: [f] sends the title of each template of
    the batch to the identifier of the task created for it, and sends
    every other name to nothing. *)
Definition resolves (templates : list TaskTemplate.t) (ids : list UUID.t)
    (f : string → option UUID.t) : Prop :=
  (∀ i template, templates !! i = Some template →
                 f (TaskTemplate.title template) = ids !! i)
  ∧ (∀ name, name ∉ TaskTemplate.title <$> templates → f name = None).

End Expansion.

Module WellFormed.

(** The invariants of the run-time values: a UUID is a 128-bit number, the
    fields of a [datetime] are in range. *)
Definition task (t : Task.t) : Prop :=
  UUID.wf (Task.id t)
  ∧ Datetime.valid (Task.created_at t) = true
  ∧ (∀ d, Task.completed_at t = Some d → Datetime.valid d = true)
  ∧ (∀ d, Task.due_date t = Some d → Datetime.valid d = true)
  ∧ Forall UUID.wf (Task.dependencies t).

Definition transition (s : StateTransition.t) : Prop :=
  Datetime.valid (StateTransition.timestamp s) = true.

Definition transaction (x : Transaction.t) : Prop :=
  UUID.wf (Transaction.id x)
  ∧ Datetime.valid (Transaction.created_at x) = true
  ∧ Forall transition (Transaction.state_history x)
  ∧ map_Forall (λ k t, UUID.wf k ∧ task t) (Transaction.tasks x).

(** The entry of the [tasks] dictionary written for one task. *)
Definition encode_entry (kv : UUID.t * Task.t) : string * pyval :=
  (UUID.str kv.1, PDict (Task.to_dict kv.2)).

(** The current state, if any, is the state the registry holds under its
    name, and that name is not empty. *)
Definition linked (h : State.store) (registry : StateRegistry.t)
    (x : Transaction.t) : Prop :=
  match Transaction.current_state x with
  | Some c =>
      ∃ s, h !! c = Some s ∧ State.name s ≠ ""
           ∧ StateRegistry.get registry (State.name s) = Some c
  | None => True
  end.

End WellFormed.

(** ** A small configuration

    The registry of the lifecycle [new_listing] -> [under_contract] ->
    [cancelled], with one template on [under_contract], and a world whose
    clock ticks once a second. *)

Module Scenario.
Local Open Scope Z_scope.

Definition start : Datetime.t := Datetime.mk 2024 2 25 13 5 0 0.

Definition world : World.t :=
  World.mk (λ n, UUID.mk (Z.of_nat n + 256)) 0
           (λ n, Datetime.mk 2024 2 25 13 5 (Z.of_nat n mod 60) 0) 0.

Definition order_inspection : TaskTemplate.t :=
  TaskTemplate.mk "Order inspection" "" None (Some 7) [] [].

Definition new_listing : State.t :=
  State.mk "new_listing" "New Listing" "" None [] {["under_contract"]} [] [].

Definition under_contract : State.t :=
  State.mk "under_contract" "Under Contract" "" None []
           ({["pending_inspection"]} ∪ {["cancelled"]}) [order_inspection] [].

Definition cancelled : State.t :=
  State.mk "cancelled" "Cancelled" "" None [] ∅ [] [].

Definition store : State.store :=
  <[1%positive := new_listing]>
    (<[2%positive := under_contract]> (<[3%positive := cancelled]> ∅)).

Definition registry : StateRegistry.t :=
  StateRegistry.mk
    (<["new_listing" := 1%positive]>
       (<["under_contract" := 2%positive]> (<["cancelled" := 3%positive]> ∅))).

(** A transaction before its first transition, and one in [new_listing]. *)
Definition fresh : Transaction.t :=
  Transaction.mk (UUID.mk 1) "7250 Franklin Ave" None [] ∅ [] start [] (Some registry).

Definition listed : Transaction.t :=
  Transaction.mk (UUID.mk 1) "7250 Franklin Ave" (Some 1%positive)
    [StateTransition.mk start None "new_listing" "" []] ∅ [] start []
    (Some registry).

Definition detached : Transaction.t :=
  Transaction.mk (UUID.mk 1) "7250 Franklin Ave" None [] ∅ [] start [] None.

Definition pending_task : Task.t :=
  Task.mk (UUID.mk 77) "Inspect" "" TaskStatus.PENDING start None None None [] [].

Definition blocked_task : Task.t :=
  Task.mk (UUID.mk 78) "Repair" "" TaskStatus.BLOCKED start None None None
          [UUID.mk 77] [].

(** A state with two templates: [Repair] depends on [Inspect], which is
    of the same state, and names [Order inspection], which is a template
    of [under_contract]. *)
Definition inspect : TaskTemplate.t :=
  TaskTemplate.mk "Inspect" "" None (Some 7) [] [].

Definition repair : TaskTemplate.t :=
  TaskTemplate.mk "Repair" "" (Some "contractor@example.com") None
                  ["Inspect"; "Order inspection"] [].

Definition pending_inspection : State.t :=
  State.mk "pending_inspection" "Pending Inspection" "" None [] ∅
           [inspect; repair] [].

(** A state whose template is due in more days than the calendar has. *)
Definition far_template : TaskTemplate.t :=
  TaskTemplate.mk "Archive" "" None (Some 4000000) [] [].

Definition archived : State.t :=
  State.mk "archived" "Archived" "" None [] ∅ [far_template] [].

Definition store4 : State.store := <[4%positive := archived]> store.

Definition registry4 : StateRegistry.t :=
  StateRegistry.mk (<["archived" := 4%positive]> (StateRegistry._states registry)).

Definition fresh4 : Transaction.t :=
  Transaction.mk (UUID.mk 1) "7250 Franklin Ave" None [] ∅ [] start [] (Some registry4).

(** A three-level hierarchy: [active] > [escrow] > [inspection]. *)
Definition active : State.t :=
  State.mk "active" "Active" "" None [2%positive] ∅ [] [].

Definition escrow : State.t :=
  State.mk "escrow" "In Escrow" "" (Some 1%positive) [3%positive] ∅ [] [].

Definition inspection : State.t :=
  State.mk "inspection" "Inspection" "" (Some 2%positive) [] ∅ [] [].

Definition tree : State.store :=
  <[1%positive := active]> (<[2%positive := escrow]> (<[3%positive := inspection]> ∅)).

(** A state whose name is the empty string, registered under that name,
    and the transaction that has entered it. *)
Definition unnamed : State.t :=
  State.mk "" "Unnamed" "" None [] ∅ [] [].

Definition store5 : State.store := <[5%positive := unnamed]> store.

Definition registry5 : StateRegistry.t :=
  StateRegistry.mk (<["" := 5%positive]> (StateRegistry._states registry)).

Definition fresh5 : Transaction.t :=
  Transaction.mk (UUID.mk 1) "7250 Franklin Ave" None [] ∅ [] start [] (Some registry5).

Definition in_unnamed : Transaction.t :=
  (Transaction.transition_to store5 "" "" true fresh5 world).1.2.

(** The tasks of [pending_inspection], as template expansion leaves
    them. *)
Definition inspecting : Transaction.t :=
  (Transaction._create_tasks_from_templates pending_inspection listed world).1.2.

(** A dictionary with only the keys [Task.from_dict] cannot do without. *)
Definition minimal_task : dict :=
  [ ("id", PStr "00000000-0000-0000-0000-00000000004d");
    ("title", PStr "Inspect");
    ("description", PStr "");
    ("status", PStr "pending");
    ("created_at", PStr "2024-02-25T13:05:00") ].

(** The same for [StateTransition.from_dict]. *)
Definition minimal_transition : dict :=
  [ ("timestamp", PStr "2024-02-25T13:05:00");
    ("to_state", PStr "new_listing") ].

(** A state whose second template cannot be given a due date. *)
Definition overdue : State.t :=
  State.mk "overdue" "Overdue" "" None [] ∅ [inspect; far_template] [].

(** A state that has two templates titled [Repair]. *)
Definition repair_again : TaskTemplate.t :=
  TaskTemplate.mk "Repair" "second visit" None None [] [].

Definition repairs : State.t :=
  State.mk "repairs" "Repairs" "" None [] ∅ [repair; inspect; repair_again] [].

(** The lifecycle with [pending_inspection] registered too, so that every
    allowed name is a registered one, and a transaction under contract. *)
Definition store_full : State.store := <[4%positive := pending_inspection]> store.

Definition registry_full : StateRegistry.t :=
  StateRegistry.mk
    (<["pending_inspection" := 4%positive]> (StateRegistry._states registry)).

Definition contracted : Transaction.t :=
  Transaction.mk (UUID.mk 1) "7250 Franklin Ave" (Some 2%positive)
    [StateTransition.mk start None "new_listing" "" [];
     StateTransition.mk start (Some "new_listing") "under_contract" "" []]
    ∅ [] start [] (Some registry_full).

(** The registry of the hierarchy. *)
Definition tree_registry : StateRegistry.t :=
  StateRegistry.mk
    (<["active" := 1%positive]>
       (<["escrow" := 2%positive]> (<["inspection" := 3%positive]> ∅))).

(** A transaction of the hierarchy, before its first transition. *)
Definition fresh_tree : Transaction.t :=
  Transaction.mk (UUID.mk 1) "7250 Franklin Ave" None [] ∅ [] start []
                 (Some tree_registry).

(** A dictionary with only the keys [State.from_dict] cannot do
    without. *)
Definition minimal_state : dict :=
  [ ("name", PStr "closed"); ("display_name", PStr "Closed") ].

(** The same for [Transaction.from_dict]. *)
Definition minimal_transaction : dict :=
  [ ("id", PStr "00000000-0000-0000-0000-000000000001");
    ("property_address", PStr "7250 Franklin Ave");
    ("created_at", PStr "2024-02-25T13:05:00") ].

(** A registry that lacks [new_listing] and [active]. *)
Definition registry_small : StateRegistry.t :=
  StateRegistry.mk (<["cancelled" := 3%positive]> ∅).

End Scenario.

(** * Properties *)

Import TaskStatus.

(** ** Task status operations *)

Lemma set_status_same (t : Task.t) : Task.set_status (Task.status t) t = t.
Proof. by destruct t. Qed.

(** C8: [mark_in_progress] moves a PENDING task to IN_PROGRESS and leaves
    any other task as it is; [mark_completed] sets COMPLETED and stamps
    [completed_at] with the current time whatever the status was;
    [mark_blocked] sets BLOCKED whatever the status was.  No operation can
    fail, and no other field changes. *)
Theorem C8_status_operations (t : Task.t) (w : World.t) :
  (Task.status t = PENDING →
   Task.mark_in_progress t = Task.set_status IN_PROGRESS t)
  ∧ (Task.status t ≠ PENDING → Task.mark_in_progress t = t)
  ∧ Task.mark_completed t w
    = (Task.set_completed_at (Some (World.clock w (World.clock_calls w)))
         (Task.set_status COMPLETED t),
       (World.now w).2)
  ∧ Task.status (Task.mark_completed t w).1 = COMPLETED
  ∧ Task.completed_at (Task.mark_completed t w).1
    = Some (World.clock w (World.clock_calls w))
  ∧ Task.mark_blocked t = Task.set_status BLOCKED t
  ∧ Task.status (Task.mark_blocked t) = BLOCKED.
Proof.
  unfold Task.mark_in_progress, Task.mark_completed, Task.mark_blocked.
  repeat split; try done.
  - intros ->. by rewrite decide_True.
  - intros Hne. by rewrite decide_False.
Qed.

Lemma C8_status_operations_witness :
  Task.mark_in_progress Scenario.pending_task
  = Task.set_status IN_PROGRESS Scenario.pending_task
  ∧ Task.mark_in_progress Scenario.blocked_task = Scenario.blocked_task
  ∧ Task.status (Task.mark_completed Scenario.blocked_task Scenario.world).1
    = COMPLETED.
Proof.
  pose proof (C8_status_operations Scenario.pending_task Scenario.world)
    as (Hp & _).
  pose proof (C8_status_operations Scenario.blocked_task Scenario.world)
    as (_ & Hb & _ & Hc & _).
  split; [apply Hp; reflexivity|].
  split; [apply Hb; discriminate|exact Hc].
Defined.

(** ** Transition gating *)

(** C1: with a registry attached and a current state [A], a transition to
    a registered state whose name is not in [A.allowed_transitions]
    returns false and changes nothing: the transaction (so its
    [current_state], [state_history] and [tasks]) and the world are the
    ones before the call. *)
Theorem C1_transition_gating (h : State.store) (target_state_name notes : string)
    (auto_create_tasks : bool) (tx : Transaction.t) (w : World.t)
    (registry : StateRegistry.t) (a b : loc) (A : State.t) :
  Transaction._state_registry tx = Some registry →
  Transaction.current_state tx = Some a →
  h !! a = Some A →
  StateRegistry.get registry target_state_name = Some b →
  target_state_name ∉ State.allowed_transitions A →
  Transaction.transition_to h target_state_name notes auto_create_tasks tx w
  = (Ok false, tx, w).
Proof.
  intros Hreg Hcur HA Hb Hnot.
  unfold Transaction.transition_to, State.deref, State.can_transition_to.
  rewrite Hreg, Hb, Hcur, HA.
  by rewrite bool_decide_eq_false_2.
Qed.

Lemma C1_transition_gating_witness :
  Transaction.transition_to Scenario.store "cancelled" "" true Scenario.listed
    Scenario.world
  = (Ok false, Scenario.listed, Scenario.world).
Proof.
  apply (C1_transition_gating Scenario.store "cancelled" "" true Scenario.listed
           Scenario.world Scenario.registry 1%positive 3%positive
           Scenario.new_listing); try reflexivity.
  intros Hin. simpl in Hin. apply elem_of_singleton in Hin. discriminate Hin.
Defined.

(** ** The parent chain *)

Section full_path.
Import Hierarchy.
Context (h : State.store).

Lemma nth_parent_succ (k : nat) (l p : loc) (s : State.t) :
  h !! l = Some s → State.parent s = Some p →
  nth_parent h (S k) l = nth_parent h k p.
Proof. intros Hl Hp. simpl. rewrite Hl. simpl. by rewrite Hp. Qed.

Lemma nth_parent_in_store (Hclosed : closed h) (k : nat) :
  ∀ l x, is_Some (h !! l) → nth_parent h k l = Some x → is_Some (h !! x).
Proof.
  induction k as [|k IH]; intros l x Hl Hk; simpl in Hk.
  - by simplify_eq.
  - destruct (h !! l) as [s|] eqn:Hs; simpl in Hk; [|done].
    destruct (State.parent s) as [p|] eqn:Hp; simpl in Hk; [|done].
    eapply IH; [|exact Hk]. by eapply Hclosed.
Qed.

Lemma acyclic_parent (l p : loc) (s : State.t) :
  h !! l = Some s → State.parent s = Some p → acyclic h l → acyclic h p.
Proof.
  intros Hl Hp Hac i k x Hi. apply (Hac (S i)).
  by rewrite (nth_parent_succ i l p s).
Qed.

(** A chain that stays inside a finite set of objects and never comes back
    to an object ends at a root after at most as many steps as the set has
    elements. *)
Lemma root_path_bounded (Hclosed : closed h) (n : nat) :
  ∀ (D : gset loc) (l : loc),
    size D ≤ n → is_Some (h !! l) →
    (∀ i x, nth_parent h i l = Some x → x ∈ D) →
    acyclic h l →
    ∃ path, root_path h l path ∧ length path ≤ n.
Proof.
  induction n as [|n IH]; intros D l Hsize [s Hs] HD Hac.
  - assert (l ∈ D) as Hin by (apply (HD 0); done).
    apply Nat.le_0_r, size_empty_inv in Hsize. set_solver.
  - destruct (State.parent s) as [p|] eqn:Hp.
    + destruct (IH (D ∖ {[l]}) p) as (path & Hpath & Hlen).
      * assert (l ∈ D) as Hin by (apply (HD 0); done).
        assert ({[l]} ⊆ D) as Hsub by (by apply singleton_subseteq_l).
        rewrite (size_difference D {[l]} Hsub), size_singleton.
        assert (size D ≠ 0) by (intros ?%size_empty_inv; set_solver).
        lia.
      * by eapply Hclosed.
      * intros i x Hi. apply elem_of_difference. split.
        -- apply (HD (S i)). by rewrite (nth_parent_succ i l p s).
        -- rewrite elem_of_singleton. intros ->.
           apply (Hac 0 i l); [done|]. by rewrite (nth_parent_succ i l p s).
      * by eapply acyclic_parent.
      * exists (path ++ [State.name s]). split.
        -- by eapply root_path_child.
        -- rewrite length_app. simpl. lia.
    + exists [State.name s]. split; [by apply root_path_root|simpl; lia].
Qed.

Lemma get_full_path_loop_root_path (l : loc) (path : list string) :
  root_path h l path →
  ∀ fuel acc, length path ≤ fuel →
    State.get_full_path_loop h fuel acc (Some l) = Some (Ok (path ++ acc)).
Proof.
  induction 1 as [l s Hs Hp|l s p path Hs Hp _ IH]; intros fuel acc Hfuel.
  - destruct fuel as [|fuel]; simpl in *; [lia|].
    unfold State.deref. rewrite Hs, Hp. by destruct fuel.
  - rewrite length_app in Hfuel. simpl in Hfuel.
    destruct fuel as [|fuel]; [lia|]. simpl.
    unfold State.deref. rewrite Hs, Hp, IH by lia.
    by rewrite <- app_assoc.
Qed.

Lemma root_path_last (l : loc) (path : list string) (s : State.t) :
  root_path h l path → h !! l = Some s → last path = Some (State.name s).
Proof.
  destruct 1 as [l s' Hs' _|l s' p path Hs' _ _]; intros Hs; simplify_eq.
  - done.
  - by rewrite last_snoc.
Qed.

Lemma root_path_head (l : loc) (path : list string) :
  root_path h l path →
  ∃ k r root, nth_parent h k l = Some r ∧ h !! r = Some root ∧
              State.parent root = None ∧ head path = Some (State.name root) ∧
              length path = S k.
Proof.
  induction 1 as [l s Hs Hp|l s p path Hs Hp Hpath IH].
  - by exists 0, l, s.
  - destruct IH as (k & r & root & Hk & Hr & Hroot & Hhead & Hlen).
    exists (S k), r, root.
    rewrite (nth_parent_succ k l p s), length_app by done.
    repeat split; try done; simpl; [|lia].
    destruct path; [done|]. by simplify_eq/=.
Qed.

End full_path.

(** C9: for a state whose parent chain is acyclic (in a store whose
    parent references lead to objects of the store), the loop of
    [get_full_path] ends: with at least as many iterations allowed as the
    store has objects it returns a path.  The path lists the names from
    the root ancestor down to the state: it starts with the name of the
    ancestor without parent, has one name per state of the chain, and
    ends with the state's own name. *)
Theorem C9_get_full_path (h : State.store) (self : loc) (s : State.t) :
  Hierarchy.closed h →
  h !! self = Some s →
  Hierarchy.acyclic h self →
  ∃ path,
    (∀ fuel, size h ≤ fuel → State.get_full_path h fuel self = Some (Ok path))
    ∧ Hierarchy.root_path h self path
    ∧ last path = Some (State.name s)
    ∧ ∃ k r root,
        Hierarchy.nth_parent h k self = Some r ∧ h !! r = Some root ∧
        State.parent root = None ∧ head path = Some (State.name root) ∧
        length path = S k.
Proof.
  intros Hclosed Hs Hac.
  destruct (root_path_bounded h Hclosed (size h) (dom h) self)
    as (path & Hpath & Hlen); [by rewrite size_dom|by eexists| |done|].
  { intros i x Hi. apply elem_of_dom. by eapply nth_parent_in_store. }
  exists path. repeat split.
  - intros fuel Hfuel. unfold State.get_full_path.
    rewrite (get_full_path_loop_root_path h self path Hpath) by lia.
    by rewrite app_nil_r.
  - done.
  - by eapply root_path_last.
  - by apply root_path_head.
Qed.

Lemma scenario_tree_lookup (l : loc) (s : State.t) :
  Scenario.tree !! l = Some s →
  (l = 1%positive ∧ s = Scenario.active) ∨ (l = 2%positive ∧ s = Scenario.escrow)
  ∨ (l = 3%positive ∧ s = Scenario.inspection).
Proof.
  unfold Scenario.tree. rewrite !lookup_insert_Some, lookup_empty.
  intros [[<- <-]|[_ [[<- <-]|[_ [[<- <-]|[_ ?]]]]]]; auto; done.
Qed.

Lemma scenario_tree_closed : Hierarchy.closed Scenario.tree.
Proof.
  intros l s p [[-> ->]|[[-> ->]|[-> ->]]]%scenario_tree_lookup Hp;
    simpl in Hp; simplify_eq; by eexists.
Qed.

Lemma scenario_tree_acyclic : Hierarchy.acyclic Scenario.tree 3%positive.
Proof.
  intros i k x Hi.
  destruct i as [|[|[|i]]]; vm_compute in Hi; try discriminate Hi;
    injection Hi as <-;
    destruct k as [|[|[|k]]]; intros Hk; vm_compute in Hk; discriminate Hk.
Qed.

Lemma C9_get_full_path_witness :
  ∃ path,
    (∀ fuel, size Scenario.tree ≤ fuel →
             State.get_full_path Scenario.tree fuel 3%positive = Some (Ok path))
    ∧ Hierarchy.root_path Scenario.tree 3%positive path
    ∧ last path = Some "inspection"
    ∧ ∃ k r root,
        Hierarchy.nth_parent Scenario.tree k 3%positive = Some r ∧
        Scenario.tree !! r = Some root ∧
        State.parent root = None ∧ head path = Some (State.name root) ∧
        length path = S k.
Proof.
  apply (C9_get_full_path Scenario.tree 3%positive Scenario.inspection).
  - exact scenario_tree_closed.
  - reflexivity.
  - exact scenario_tree_acyclic.
Defined.

Example get_full_path_tree :
  State.get_full_path Scenario.tree 3 3%positive
  = Some (Ok ["active"; "escrow"; "inspection"]).
Proof. reflexivity. Qed.

(** ** Validation of the registry *)

Section validate.
Import Consistency.
Context (h : State.store) (registry : StateRegistry.t).

Lemma check_targets_spec (state : State.t) (errors : list string) :
  StateRegistry.check_targets registry state errors
  = errors ++ (StateRegistry.undefined_message (State.name state)
                 <$> undefined_targets registry state).
Proof.
  unfold StateRegistry.check_targets, undefined_targets.
  generalize (elements (State.allowed_transitions state)) as targets.
  intros targets. revert errors.
  induction targets as [|t targets IH]; intros errors; simpl.
  - by rewrite app_nil_r.
  - rewrite IH, filter_cons. destruct (decide _) as [Hnone|Hsome].
    + by rewrite <- app_assoc.
    + done.
Qed.

Lemma validate_loop_spec (entries : list (string * loc)) :
  ∀ errors,
    (∀ k l, (k, l) ∈ entries →
            StateRegistry._states registry !! k = Some l ∧ is_Some (h !! l)) →
    StateRegistry.validate_loop h registry entries.*2 errors
    = Ok (errors ++ (pair_message h registry
                       <$> (entries ≫= pairs_of_entry h registry))).
Proof.
  induction entries as [|[k l] entries IH]; intros errors Hin.
  - simpl. by rewrite app_nil_r.
  - destruct (Hin k l) as [Hk [state Hstate]]; [by left|].
    rewrite bind_cons, fmap_app, fmap_cons.
    cbn [StateRegistry.validate_loop snd]. unfold State.deref.
    rewrite Hstate, IH, check_targets_spec.
    2:{ intros k' l' Hin'. apply Hin. by right. }
    rewrite <- app_assoc. do 3 f_equal.
    unfold pairs_of_entry; simpl. rewrite Hstate, <- list_fmap_compose.
    apply list_fmap_ext. intros _ t _. unfold pair_message; simpl.
    rewrite Hk; simpl. by rewrite Hstate.
Qed.

Lemma elem_of_undefined_pairs (key target_name : string) :
  (key, target_name) ∈ undefined_pairs h registry
  ↔ undefined_target h registry key target_name.
Proof.
  unfold undefined_pairs, undefined_target. rewrite list_elem_of_bind. split.
  - intros ([k l] & Hpair & Hentry%elem_of_map_to_list).
    unfold pairs_of_entry in Hpair; simpl in Hpair.
    destruct (h !! l) as [state|] eqn:Hstate; [|by apply elem_of_nil in Hpair].
    apply list_elem_of_fmap in Hpair as (t & [= -> ->] & Ht).
    apply list_elem_of_filter in Ht as [Hnone Ht%elem_of_elements].
    by exists l, state.
  - intros (l & state & Hk & Hstate & Ht & Hnone). exists (key, l). split.
    + unfold pairs_of_entry; simpl. rewrite Hstate.
      apply list_elem_of_fmap. exists target_name. split; [done|].
      apply list_elem_of_filter. by rewrite elem_of_elements.
    + by apply elem_of_map_to_list.
Qed.

Lemma NoDup_undefined_pairs : NoDup (undefined_pairs h registry).
Proof.
  apply NoDup_bind.
  - intros [k1 l1] [k2 l2] [k t] Hin1%elem_of_map_to_list
      Hin2%elem_of_map_to_list H1 H2.
    unfold pairs_of_entry in H1, H2; simpl in H1, H2.
    destruct (h !! l1); [|by apply elem_of_nil in H1].
    destruct (h !! l2); [|by apply elem_of_nil in H2].
    apply list_elem_of_fmap in H1 as (? & [= -> ->] & _).
    apply list_elem_of_fmap in H2 as (? & [= -> _] & _).
    by simplify_eq.
  - intros [k l] _. unfold pairs_of_entry; simpl.
    destruct (h !! l); [|constructor].
    apply NoDup_fmap_2; [by intros ?? [= ->]|].
    apply NoDup_filter, NoDup_elements.
  - apply NoDup_map_to_list.
Qed.

End validate.

(** C7: [validate_transitions] returns one message per pair of a
    registered state and a name in its [allowed_transitions] that is not a
    key of the registry ([undefined_pairs] lists each such pair once), so
    the list is non-empty exactly when there is such a pair and empty
    exactly when every allowed name is registered. *)
Theorem C7_validate_transitions (h : State.store) (registry : StateRegistry.t) :
  Consistency.registry_in_store h registry →
  ∃ errors,
    StateRegistry.validate_transitions h registry = Ok errors
    ∧ errors = Consistency.pair_message h registry
                 <$> Consistency.undefined_pairs h registry
    ∧ NoDup (Consistency.undefined_pairs h registry)
    ∧ (∀ key target_name,
         (key, target_name) ∈ Consistency.undefined_pairs h registry
         ↔ Consistency.undefined_target h registry key target_name)
    ∧ (errors ≠ []
       ↔ ∃ key target_name, Consistency.undefined_target h registry key target_name)
    ∧ (errors = []
       ↔ ∀ key l state target_name,
           StateRegistry._states registry !! key = Some l →
           h !! l = Some state →
           target_name ∈ State.allowed_transitions state →
           is_Some (StateRegistry._states registry !! target_name)).
Proof.
  intros Hstore. eexists. split; [|split; [reflexivity|]].
  { unfold StateRegistry.validate_transitions.
    rewrite validate_loop_spec; [done|].
    intros k l Hin%elem_of_map_to_list. split; [done|by eapply Hstore]. }
  split; [apply NoDup_undefined_pairs|].
  split; [apply elem_of_undefined_pairs|].
  split.
  - split.
    + intros Hne.
      destruct (Consistency.undefined_pairs h registry) as [|[k t] ps] eqn:Hps;
        [done|].
      exists k, t. apply elem_of_undefined_pairs. rewrite Hps. by left.
    + intros (k & t & Hkt%elem_of_undefined_pairs) Hnil.
      apply fmap_nil_inv in Hnil. rewrite Hnil in Hkt.
      by apply elem_of_nil in Hkt.
  - split.
    + intros Hnil%fmap_nil_inv k l state t Hk Hstate Ht.
      destruct (StateRegistry._states registry !! t) eqn:Hlook; [by eexists|].
      assert ((k, t) ∈ Consistency.undefined_pairs h registry) as Hin.
      { apply elem_of_undefined_pairs. by exists l, state. }
      rewrite Hnil in Hin. by apply elem_of_nil in Hin.
    + intros Hall.
      destruct (Consistency.undefined_pairs h registry) as [|[k t] ps] eqn:Hps;
        [done|].
      assert ((k, t) ∈ Consistency.undefined_pairs h registry) as Hin
        by (rewrite Hps; by left).
      apply elem_of_undefined_pairs in Hin as (l & state & Hk & Hstate & Ht & Hnone).
      destruct (Hall k l state t Hk Hstate Ht) as [? Hsome]. congruence.
Qed.

Lemma scenario_registry_in_store :
  Consistency.registry_in_store Scenario.store Scenario.registry.
Proof.
  intros k l. unfold Scenario.registry; simpl.
  rewrite !lookup_insert_Some, lookup_empty.
  intros [[_ <-]|[_ [[_ <-]|[_ [[_ <-]|[_ ?]]]]]]; [| |by eexists|done].
  - by exists Scenario.new_listing.
  - by exists Scenario.under_contract.
Qed.

Lemma C7_validate_transitions_witness :
  ∃ errors,
    StateRegistry.validate_transitions Scenario.store Scenario.registry = Ok errors
    ∧ errors = Consistency.pair_message Scenario.store Scenario.registry
                 <$> Consistency.undefined_pairs Scenario.store Scenario.registry
    ∧ NoDup (Consistency.undefined_pairs Scenario.store Scenario.registry)
    ∧ (∀ key target_name,
         (key, target_name)
           ∈ Consistency.undefined_pairs Scenario.store Scenario.registry
         ↔ Consistency.undefined_target Scenario.store Scenario.registry key
             target_name)
    ∧ (errors ≠ []
       ↔ ∃ key target_name,
           Consistency.undefined_target Scenario.store Scenario.registry key
             target_name)
    ∧ (errors = []
       ↔ ∀ key l state target_name,
           StateRegistry._states Scenario.registry !! key = Some l →
           Scenario.store !! l = Some state →
           target_name ∈ State.allowed_transitions state →
           is_Some (StateRegistry._states Scenario.registry !! target_name)).
Proof.
  apply (C7_validate_transitions Scenario.store Scenario.registry).
  exact scenario_registry_in_store.
Defined.

Example validate_scenario :
  StateRegistry.validate_transitions Scenario.store Scenario.registry
  = Ok ["State 'under_contract' allows transition to undefined state 'pending_inspection'"].
Proof. vm_compute. reflexivity. Qed.

(** ** Maps built by a loop of insertions *)

Section insert_loops.
Import Expansion.
Context `{Countable K} {A : Type}.
Implicit Types (m : gmap K A) (l : list (K * A)).

Lemma insert_all_lookup_notin l : ∀ m k,
  k ∉ l.*1 → insert_all l m !! k = m !! k.
Proof.
  induction l as [|[k' v] l IH]; intros m k Hk; [done|].
  rewrite fmap_cons, not_elem_of_cons in Hk. destruct Hk as [Hne Hk].
  unfold insert_all in *. simpl. rewrite IH by done.
  by rewrite lookup_insert_ne.
Qed.

Lemma insert_all_lookup_in l : ∀ m k v,
  NoDup l.*1 → (k, v) ∈ l → insert_all l m !! k = Some v.
Proof.
  induction l as [|[k' v'] l IH]; intros m k v Hnd Hin.
  - by apply elem_of_nil in Hin.
  - rewrite fmap_cons in Hnd. apply NoDup_cons in Hnd as [Hk' Hnd].
    unfold insert_all in *. simpl. apply elem_of_cons in Hin as [[= -> ->]|Hin].
    + fold (insert_all l (<[k' := v']> m)).
      rewrite insert_all_lookup_notin by done. apply lookup_insert_eq.
    + by apply IH.
Qed.

Lemma insert_all_size l : ∀ m,
  NoDup l.*1 → (∀ k, k ∈ l.*1 → m !! k = None) →
  size (insert_all l m) = size m + length l.
Proof.
  induction l as [|[k v] l IH]; intros m Hnd Hnone; simpl; [lia|].
  rewrite fmap_cons in Hnd, Hnone. apply NoDup_cons in Hnd as [Hk Hnd].
  unfold insert_all in *. simpl. rewrite IH; [| done |].
  - rewrite map_size_insert_None; [lia|]. apply Hnone. by left.
  - intros k' Hk'. rewrite lookup_insert_ne by (intros ->; done).
    apply Hnone. by right.
Qed.

Lemma insert_all_is_Some l : ∀ m k,
  is_Some (m !! k) → is_Some (insert_all l m !! k).
Proof.
  induction l as [|[k' v] l IH]; intros m k Hk; [done|].
  unfold insert_all in *. simpl. apply IH.
  rewrite lookup_insert_is_Some. destruct (decide (k' = k)); auto.
Qed.

Lemma insert_all_lookup_inv l : ∀ m k v,
  insert_all l m !! k = Some v → (k, v) ∈ l ∨ m !! k = Some v.
Proof.
  induction l as [|[k' v'] l IH]; intros m k v Hk; [by right|].
  unfold insert_all in *. simpl in Hk. apply IH in Hk as [Hin|Hk].
  - left. by right.
  - apply lookup_insert_Some in Hk as [[-> ->]|[_ Hk]]; [left; by left|by right].
Qed.

Lemma insert_all_is_Some_in l : ∀ m k,
  k ∈ l.*1 → is_Some (insert_all l m !! k).
Proof.
  induction l as [|[k' v'] l IH]; intros m k Hk.
  - by apply elem_of_nil in Hk.
  - rewrite fmap_cons in Hk. unfold insert_all in *. simpl.
    destruct (decide (k ∈ l.*1)) as [Hin|Hnotin]; [by apply IH|].
    apply elem_of_cons in Hk as [->|Hk]; [|done].
    fold (insert_all l (<[k' := v']> m)).
    rewrite insert_all_lookup_notin by done. rewrite lookup_insert_eq. by eexists.
Qed.

Lemma insert_all_app l1 l2 m :
  insert_all (l1 ++ l2) m = insert_all l2 (insert_all l1 m).
Proof. unfold insert_all. by rewrite fold_left_app. Qed.

End insert_loops.

(** ** Template expansion, first loop *)

Section first_loop.
Import Expansion.

Lemma advances_refl (w : World.t) : advances w w 0.
Proof. unfold advances. repeat split; lia. Qed.

Lemma advances_trans (w1 w2 w3 : World.t) (n m : nat) :
  advances w1 w2 n → advances w2 w3 m → advances w1 w3 (n + m).
Proof.
  intros (Hu1 & Hc1 & Hn1 & Hk1) (Hu2 & Hc2 & Hn2 & Hk2). unfold advances.
  rewrite Hu2, Hu1, Hc2, Hc1, Hn2, Hn1. repeat split; lia.
Qed.

Lemma batch_ids_succ (w w' : World.t) (n : nat) :
  advances w w' 1 →
  batch_ids w (S n) = World.uuid_source w (World.uuid_calls w) :: batch_ids w' n.
Proof.
  intros (Hu & _ & Hn & _). unfold batch_ids. simpl.
  rewrite Nat.add_0_r. f_equal.
  rewrite <- fmap_S_seq, <- list_fmap_compose.
  apply list_fmap_ext. intros _ i _. simpl. rewrite Hu, Hn. f_equal. lia.
Qed.

Lemma batch_ids_advances (w w' : World.t) (n : nat) :
  advances w w' 0 → batch_ids w' n = batch_ids w n.
Proof.
  intros (Hu & _ & Hn & _). unfold batch_ids.
  apply list_fmap_ext. intros _ i _. rewrite Hu, Hn. f_equal. lia.
Qed.

Lemma carries_mono (w1 w1' w w' : World.t) (template : TaskTemplate.t)
    (task : Task.t) :
  World.clock w1 = World.clock w →
  World.clock_calls w ≤ World.clock_calls w1 →
  World.clock_calls w1' ≤ World.clock_calls w' →
  carries w1 w1' template task → carries w w' template task.
Proof.
  intros Hclock Hlo Hhi (? & ? & ? & ? & ? & ? & Hdue).
  unfold carries. repeat split; try done.
  destruct (TaskTemplate.days_until_due template); [|done].
  destruct Hdue as (k & due & Hk & Hadd & Hdue).
  exists k, due. rewrite <- Hclock. repeat split; try done; lia.
Qed.

(** The only error of [add_days] is the overflow of the date range. *)
Lemma add_days_raise (d : Datetime.t) (days : Z) (e : exn) :
  Datetime.add_days d days = Raise e → ∃ msg, e = OverflowError msg.
Proof.
  unfold Datetime.add_days. repeat case_match; intros [= <-]; by eexists.
Qed.

Lemma instantiate_ok (template : TaskTemplate.t) (w w' : World.t) (task : Task.t) :
  Transaction.instantiate template w = (Ok task, w') →
  Task.id task = World.uuid_source w (World.uuid_calls w)
  ∧ Task.dependencies task = []
  ∧ carries w w' template task
  ∧ advances w w' 1.
Proof.
  unfold Transaction.instantiate, Task.create, World.uuid4, World.now, carries,
    advances.
  destruct (TaskTemplate.days_until_due template) as [days|]; simpl.
  - destruct (Datetime.add_days _ days) as [due|] eqn:Hadd; intros [= <- <-];
      simpl.
    repeat split; try done; try lia.
    exists (S (World.clock_calls w)), due. repeat split; try done; lia.
  - intros [= <- <-]; simpl. repeat split; try done; lia.
Qed.

Lemma instantiate_raise (template : TaskTemplate.t) (w w' : World.t) (e : exn) :
  Transaction.instantiate template w = (Raise e, w') →
  ∃ msg, e = OverflowError msg.
Proof.
  unfold Transaction.instantiate, Task.create, World.uuid4, World.now.
  destruct (TaskTemplate.days_until_due template) as [days|]; simpl; [|done].
  destruct (Datetime.add_days _ days) as [due|] eqn:Hadd; intros [= <- <-].
  by eapply add_days_raise.
Qed.

End first_loop.

Section first_loop_run.
Import Expansion.

Lemma set_tasks_same (self : Transaction.t) :
  Transaction.set_tasks (Transaction.tasks self) self = self.
Proof. by destruct self. Qed.

Lemma set_tasks_set_tasks (ts ts' : gmap UUID.t Task.t) (self : Transaction.t) :
  Transaction.set_tasks ts (Transaction.set_tasks ts' self)
  = Transaction.set_tasks ts self.
Proof. done. Qed.

(** Both loops only write [self.tasks]. *)
Lemma instantiate_loop_frame (templates : list TaskTemplate.t) :
  ∀ t2t self w r self' w',
    Transaction.instantiate_loop templates t2t self w = (r, self', w') →
    ∃ ts, self' = Transaction.set_tasks ts self.
Proof.
  induction templates as [|template templates IH]; intros t2t self w r self' w';
    simpl.
  - intros [= <- <- <-]. exists (Transaction.tasks self).
    by rewrite set_tasks_same.
  - destruct (Transaction.instantiate template w) as [[task|e] w1].
    + intros (ts & ->)%IH. by exists ts.
    + intros [= <- <- <-]. exists (Transaction.tasks self).
      by rewrite set_tasks_same.
Qed.

Lemma instantiate_loop_raise (templates : list TaskTemplate.t) :
  ∀ t2t self w e self' w',
    Transaction.instantiate_loop templates t2t self w = (Raise e, self', w') →
    ∃ msg, e = OverflowError msg.
Proof.
  induction templates as [|template templates IH]; intros t2t self w e self' w';
    simpl; [done|].
  destruct (Transaction.instantiate template w) as [[task|e'] w1] eqn:Hinst.
  - apply IH.
  - intros [= <- <- <-]. by eapply instantiate_raise.
Qed.

Lemma instantiate_loop_ok (templates : list TaskTemplate.t) :
  ∀ t2t self w t2t' self' w',
    Transaction.instantiate_loop templates t2t self w = (Ok t2t', self', w') →
    ∃ created,
      Task.id <$> created = batch_ids w (length templates)
      ∧ Forall2 (carries w w') templates created
      ∧ Forall (λ task, Task.dependencies task = []) created
      ∧ self' = Transaction.set_tasks
                  (insert_all ((λ task, (Task.id task, task)) <$> created)
                              (Transaction.tasks self)) self
      ∧ t2t' = insert_all (zip (TaskTemplate.title <$> templates)
                               (Task.id <$> created)) t2t
      ∧ advances w w' (length templates).
Proof.
  induction templates as [|template templates IH]; intros t2t self w t2t' self' w';
    simpl.
  - intros [= <- <- <-]. exists []. simpl.
    rewrite set_tasks_same. repeat split; try done; try constructor.
    all: unfold advances; repeat split; lia.
  - destruct (Transaction.instantiate template w) as [[task|e] w1] eqn:Hinst;
      [|done].
    apply instantiate_ok in Hinst as (Hid & Hdeps & Hcarries & Hadv1).
    intros (created & Hids & Hall & Hnodeps & -> & -> & Hadv)%IH.
    exists (task :: created).
    pose proof Hadv1 as (Hu1 & Hc1 & Hn1 & Hk1).
    pose proof Hadv as (Hu & Hc & Hn & Hk).
    split_and!.
    + rewrite fmap_cons, Hids, Hid. symmetry. by apply batch_ids_succ.
    + constructor.
      * by apply (carries_mono w w1 w w').
      * eapply Forall2_impl; [exact Hall|]. intros tpl tk.
        by apply (carries_mono w1 w' w w').
    + by constructor.
    + reflexivity.
    + reflexivity.
    + apply (advances_trans w w1 w' 1 (length templates) Hadv1 Hadv).
Qed.

End first_loop_run.

(** ** Template expansion, second loop *)

Section second_loop.
Import Expansion.
Context (t2t : gmap string UUID.t).

Lemma set_dependencies_set_dependencies (ds ds' : list UUID.t) (task : Task.t) :
  Task.set_dependencies ds (Task.set_dependencies ds' task)
  = Task.set_dependencies ds task.
Proof. done. Qed.

Lemma set_dependencies_same (task : Task.t) :
  Task.set_dependencies (Task.dependencies task) task = task.
Proof. by destruct task. Qed.

(** The inner loop appends, in order, the identifier of every dependency
    name the mapping knows, and nothing for the others. *)
Lemma wire_spec (deps : list string) : ∀ task,
  Transaction.wire t2t deps task
  = Task.set_dependencies (Task.dependencies task ++ omap (t2t !!.) deps) task.
Proof.
  unfold Transaction.wire.
  induction deps as [|dep deps IH]; intros task; simpl.
  - by rewrite app_nil_r, set_dependencies_same.
  - rewrite IH. destruct (t2t !! dep) as [dep_id|]; simpl; [|done].
    by rewrite <- app_assoc.
Qed.

Lemma wire_nil (task : Task.t) : Transaction.wire t2t [] task = task.
Proof. done. Qed.

Lemma alter_lookup_insert (m : gmap UUID.t Task.t) (k : UUID.t) (x : Task.t)
    (f : Task.t → Task.t) :
  m !! k = Some x → <[k := f x]> m = alter f k m.
Proof.
  intros Hk. apply map_eq. intros k'.
  destruct (decide (k = k')) as [<-|Hne].
  - by rewrite lookup_insert_eq, lookup_alter_eq, Hk.
  - by rewrite lookup_insert_ne, lookup_alter_ne.
Qed.

(** When every title is recorded and every recorded identifier is a key of
    [self.tasks], the second loop ends without error. *)
Lemma resolve_loop_spec (templates : list TaskTemplate.t) : ∀ self,
  (∀ title id, t2t !! title = Some id → is_Some (Transaction.tasks self !! id)) →
  (∀ template, template ∈ templates →
               is_Some (t2t !! TaskTemplate.title template)) →
  Transaction.resolve_loop templates t2t self
  = (Ok (), Transaction.set_tasks
              (wire_all t2t templates (Transaction.tasks self)) self).
Proof.
  induction templates as [|template templates IH]; intros self Hkeys Htitles.
  - simpl. by rewrite set_tasks_same.
  - destruct (Htitles template) as [task_id Hid]; [by left|].
    destruct (Hkeys _ _ Hid) as [task Htask].
    assert (∀ tpl, tpl ∈ templates → is_Some (t2t !! TaskTemplate.title tpl))
      as Htitles' by (intros tpl Hin; apply Htitles; by right).
    unfold wire_all. simpl. rewrite Hid.
    fold (wire_all t2t templates
            (alter (Transaction.wire t2t (TaskTemplate.dependencies template))
                   task_id (Transaction.tasks self))).
    destruct (TaskTemplate.dependencies template) as [|dep deps] eqn:Hdeps.
    + rewrite IH by done. do 3 f_equal. symmetry. by apply alter_id.
    + rewrite <- (alter_lookup_insert (Transaction.tasks self) task_id task
                    (Transaction.wire t2t (dep :: deps)) Htask).
      rewrite Htask, IH; [reflexivity| |done].
      intros title id Hlook.
      change (is_Some (<[task_id := Transaction.wire t2t (dep :: deps) task]>
                         (Transaction.tasks self) !! id)).
      rewrite lookup_insert_is_Some.
      destruct (decide (task_id = id)); [by left|right]. split; [done|].
      by eapply Hkeys.
Qed.

Lemma wire_all_dom (templates : list TaskTemplate.t) : ∀ tasks,
  dom (wire_all t2t templates tasks) = dom tasks.
Proof.
  unfold wire_all.
  induction templates as [|template templates IH]; intros tasks; simpl; [done|].
  rewrite IH. destruct (t2t !! _); [apply dom_alter_L|done].
Qed.

Lemma wire_all_lookup_other (templates : list TaskTemplate.t) : ∀ tasks k,
  (∀ template, template ∈ templates →
               t2t !! TaskTemplate.title template ≠ Some k) →
  wire_all t2t templates tasks !! k = tasks !! k.
Proof.
  unfold wire_all.
  induction templates as [|template templates IH]; intros tasks k Hk; simpl;
    [done|].
  rewrite IH by (intros tpl Hin; apply Hk; by right).
  destruct (t2t !! TaskTemplate.title template) as [id|] eqn:Hid; [|done].
  apply lookup_alter_ne. intros ->. by apply (Hk template); [left|].
Qed.

Lemma wire_all_lookup (templates : list TaskTemplate.t) (ids : list UUID.t) :
  Forall2 (λ template id, t2t !! TaskTemplate.title template = Some id)
          templates ids →
  NoDup ids →
  ∀ tasks i template id,
    templates !! i = Some template → ids !! i = Some id →
    wire_all t2t templates tasks !! id
    = Transaction.wire t2t (TaskTemplate.dependencies template) <$> tasks !! id.
Proof.
  induction 1 as [|template0 id0 templates ids Hid0 Hall IH];
    intros Hnd tasks i template id Hi Hid; [done|].
  apply NoDup_cons in Hnd as [Hnotin Hnd].
  unfold wire_all. simpl. rewrite Hid0.
  fold (wire_all t2t templates
          (alter (Transaction.wire t2t (TaskTemplate.dependencies template0))
                 id0 tasks)).
  destruct i as [|i]; simpl in Hi, Hid; simplify_eq.
  - rewrite wire_all_lookup_other; [by rewrite lookup_alter_eq|].
    intros tpl Hin Htpl.
    apply list_elem_of_lookup in Hin as [j Hj].
    destruct (Forall2_lookup_l _ _ _ _ _ Hall Hj) as (id' & Hid' & Heq).
    simplify_eq. apply Hnotin. by eapply list_elem_of_lookup_2.
  - rewrite (IH Hnd _ i template id) by done.
    rewrite lookup_alter_ne; [done|]. intros ->.
    apply Hnotin. by eapply list_elem_of_lookup_2.
Qed.

End second_loop.

(** ** Template expansion as a whole *)

Section expansion.
Import Expansion.

Lemma entries_of_keys (created : list Task.t) :
  (entries_of created).*1 = Task.id <$> created.
Proof.
  unfold entries_of. rewrite <- list_fmap_compose. by apply list_fmap_ext.
Qed.

Lemma recorded_ids_are_keys (titles : list string) (created : list Task.t)
    (tasks : gmap UUID.t Task.t) (title : string) (id : UUID.t) :
  insert_all (zip titles (Task.id <$> created)) ∅ !! title = Some id →
  is_Some (insert_all (entries_of created) tasks !! id).
Proof.
  intros [Hin|Hempty]%insert_all_lookup_inv; [|by rewrite lookup_empty in Hempty].
  apply insert_all_is_Some_in. rewrite entries_of_keys.
  by eapply elem_of_zip_r.
Qed.

Lemma titles_are_recorded (templates : list TaskTemplate.t) (ids : list UUID.t)
    (template : TaskTemplate.t) :
  length ids = length templates → template ∈ templates →
  is_Some (insert_all (zip (TaskTemplate.title <$> templates) ids) (∅ : gmap string UUID.t)
             !! TaskTemplate.title template).
Proof.
  intros Hlen Hin. apply insert_all_is_Some_in.
  rewrite fst_zip by (rewrite length_fmap; lia).
  apply list_elem_of_fmap. by exists template.
Qed.

(** The whole expansion in terms of the first loop: when the first loop
    ends, the second one ends too, and never raises. *)
Lemma create_tasks_run (state : State.t) (self : Transaction.t) (w : World.t) :
  Transaction._create_tasks_from_templates state self w
  = match Transaction.instantiate_loop (State.task_templates state) ∅ self w with
    | (Ok t2t, self1, w1) =>
        (Ok (),
         Transaction.set_tasks
           (wire_all t2t (State.task_templates state) (Transaction.tasks self1))
           self1,
         w1)
    | (Raise e, self1, w1) => (Raise e, self1, w1)
    end.
Proof.
  unfold Transaction._create_tasks_from_templates.
  destruct (Transaction.instantiate_loop _ _ _ _) as [[[t2t|e] self1] w1] eqn:Hloop;
    [|done].
  apply instantiate_loop_ok in Hloop
    as (created & Hids & Hall & _ & -> & -> & _).
  apply Forall2_length in Hall.
  rewrite resolve_loop_spec; [done| |].
  - intros title id. apply recorded_ids_are_keys.
  - intros template. apply titles_are_recorded. by rewrite length_fmap.
Qed.

(** The only error of template expansion is the overflow of a due date,
    and whatever happens only [self.tasks] is written. *)
Lemma create_tasks_outcome (state : State.t) (self self' : Transaction.t)
    (w w' : World.t) (out : result unit) :
  Transaction._create_tasks_from_templates state self w = (out, self', w') →
  (∀ e, out = Raise e → ∃ msg, e = OverflowError msg)
  ∧ ∃ ts, self' = Transaction.set_tasks ts self.
Proof.
  rewrite create_tasks_run.
  destruct (Transaction.instantiate_loop _ _ _ _) as [[[t2t|e] self1] w1] eqn:Hloop;
    intros [= <- <- <-].
  - split; [done|]. apply instantiate_loop_frame in Hloop as (ts & ->).
    by eexists.
  - split; [|by eapply instantiate_loop_frame].
    intros e' [= <-]. by eapply instantiate_loop_raise.
Qed.

(** A run of the expansion that ends: the created tasks, the mapping from
    titles to identifiers, and the final map of tasks. *)
Lemma create_tasks_ok (state : State.t) (self self' : Transaction.t)
    (w w' : World.t) :
  Transaction._create_tasks_from_templates state self w = (Ok (), self', w') →
  ∃ created,
    let templates := State.task_templates state in
    Task.id <$> created = batch_ids w (length templates)
    ∧ Forall2 (carries w w') templates created
    ∧ Forall (λ task, Task.dependencies task = []) created
    ∧ advances w w' (length templates)
    ∧ self' = Transaction.set_tasks
                (final_tasks templates created (Transaction.tasks self)) self.
Proof.
  rewrite create_tasks_run.
  destruct (Transaction.instantiate_loop _ _ _ _) as [[[t2t|e] self1] w1] eqn:Hloop;
    intros [= <- <-].
  apply instantiate_loop_ok in Hloop
    as (created & Hids & Hall & Hnodeps & -> & -> & Hadv).
  exists created. by split_and!.
Qed.

End expansion.

Section expansion_result.
Import Expansion.
Context (templates : list TaskTemplate.t) (created : list Task.t).
Context (tasks : gmap UUID.t Task.t).
Context (Hlen : length created = length templates).

Local Abbreviation ids := (Task.id <$> created).
Local Abbreviation t2t := (title_map templates created).
Local Abbreviation final := (final_tasks templates created tasks).

Lemma recorded_id_in_batch (title : string) (id : UUID.t) :
  t2t !! title = Some id → id ∈ ids.
Proof.
  unfold title_map.
  intros [Hin|Hempty]%insert_all_lookup_inv; [|by rewrite lookup_empty in Hempty].
  by eapply elem_of_zip_r.
Qed.

(** Tasks that are not of the batch are left as they were. *)
Lemma final_lookup_other (k : UUID.t) : k ∉ ids → final !! k = tasks !! k.
Proof.
  intros Hk. unfold final_tasks. rewrite wire_all_lookup_other.
  - apply insert_all_lookup_notin. by rewrite entries_of_keys.
  - intros template _ Hrec. by apply Hk, (recorded_id_in_batch _ _ Hrec).
Qed.

Lemma final_size : fresh tasks ids → size final = size tasks + length templates.
Proof.
  intros [Hnd Hnone]. unfold final_tasks.
  rewrite <- size_dom, wire_all_dom, size_dom, insert_all_size.
  - unfold entries_of. by rewrite length_fmap, Hlen.
  - by rewrite entries_of_keys.
  - intros k. rewrite entries_of_keys. apply Hnone.
Qed.

Lemma wire_all_lookup_fields (tpls : list TaskTemplate.t) : ∀ m k x,
  m !! k = Some x →
  ∃ ds, wire_all t2t tpls m !! k = Some (Task.set_dependencies ds x).
Proof.
  unfold wire_all.
  induction tpls as [|tpl tpls IH]; intros m k x Hk; simpl.
  - exists (Task.dependencies x). by rewrite set_dependencies_same.
  - destruct (t2t !! TaskTemplate.title tpl) as [id|]; [|by apply IH].
    destruct (decide (id = k)) as [->|Hne].
    + destruct (IH (alter (Transaction.wire t2t (TaskTemplate.dependencies tpl)) k m)
                  k (Transaction.wire t2t (TaskTemplate.dependencies tpl) x))
        as [ds Hds]; [by rewrite lookup_alter_eq, Hk|].
      rewrite wire_spec in Hds. by exists ds.
    + apply IH. by rewrite lookup_alter_ne.
Qed.

(** Each created task is in the final map under its identifier, with all
    its fields but [dependencies] as the first loop set them. *)
Lemma final_lookup_created (i : nat) (task : Task.t) :
  NoDup ids → created !! i = Some task →
  ∃ ds, final !! Task.id task = Some (Task.set_dependencies ds task).
Proof.
  intros Hnd Hi. unfold final_tasks. apply wire_all_lookup_fields.
  apply insert_all_lookup_in; [by rewrite entries_of_keys|].
  apply list_elem_of_fmap. exists task. split; [done|].
  by eapply list_elem_of_lookup_2.
Qed.

Lemma recorded_title (i : nat) (template : TaskTemplate.t) :
  NoDup (TaskTemplate.title <$> templates) →
  templates !! i = Some template →
  t2t !! TaskTemplate.title template = ids !! i.
Proof.
  intros Hnd Hi.
  destruct (lookup_lt_is_Some_2 ids i) as [id Hid].
  { rewrite length_fmap, Hlen. by eapply lookup_lt_Some. }
  rewrite Hid. unfold title_map. apply insert_all_lookup_in.
  - rewrite fst_zip; [done|]. rewrite !length_fmap. lia.
  - apply list_elem_of_lookup. exists i. apply lookup_zip_with_Some.
    exists (TaskTemplate.title template), id. split_and!; [done| |done].
    by rewrite list_lookup_fmap, Hi.
Qed.

Lemma unknown_title (name : string) :
  name ∉ TaskTemplate.title <$> templates → t2t !! name = None.
Proof.
  intros Hname. unfold title_map. rewrite insert_all_lookup_notin; [done|].
  rewrite fst_zip; [done|]. rewrite !length_fmap. lia.
Qed.

Lemma t2t_resolves :
  NoDup (TaskTemplate.title <$> templates) → resolves templates ids (t2t !!.).
Proof.
  intros Hnd. split.
  - intros i template. by apply recorded_title.
  - apply unknown_title.
Qed.

(** With distinct titles and distinct identifiers, the task created for
    the [i]-th template ends with exactly the identifiers its dependency
    names resolve to, in the order of the names. *)
Lemma final_lookup_wired (i : nat) (template : TaskTemplate.t) (task : Task.t) :
  NoDup (TaskTemplate.title <$> templates) → NoDup ids →
  templates !! i = Some template → created !! i = Some task →
  Task.dependencies task = [] →
  final !! Task.id task
  = Some (Task.set_dependencies
            (omap (t2t !!.) (TaskTemplate.dependencies template)) task).
Proof.
  intros Hndt Hndi Hi Hci Hnodeps. unfold final_tasks.
  assert (ids !! i = Some (Task.id task)) as Hid
    by (by rewrite list_lookup_fmap, Hci).
  assert (Forall2 (λ tpl id, t2t !! TaskTemplate.title tpl = Some id)
                  templates ids) as Hall.
  { apply Forall2_same_length_lookup. split.
    - by rewrite length_fmap.
    - intros j tpl id Htpl Hidj. by rewrite (recorded_title j tpl). }
  rewrite (wire_all_lookup t2t templates ids Hall Hndi _ i template) by done.
  rewrite (insert_all_lookup_in _ _ _ task).
  - simpl. by rewrite wire_spec, Hnodeps.
  - by rewrite entries_of_keys.
  - apply list_elem_of_fmap. exists task. split; [done|].
    by eapply list_elem_of_lookup_2.
Qed.

End expansion_result.

Lemma carries_set_dependencies (w w' : World.t) (template : TaskTemplate.t)
    (task : Task.t) (ds : list UUID.t) :
  Expansion.carries w w' template task →
  Expansion.carries w w' template (Task.set_dependencies ds task).
Proof. done. Qed.

(** C3: in template expansion, with the titles of the batch distinct (the
    data model's requirement on a state's template list) and the
    identifiers [uuid4()] returns distinct, the task created for each
    template ends with exactly the identifiers its dependency names
    resolve to, in order: a name that is the title of a template of the
    batch gives the identifier of that template's task, any other name
    gives nothing.  No name can make the expansion fail: its only error
    is the overflow of a due date in the first loop.  So every identifier
    in a created task's [dependencies] is the identifier of a task of the
    same batch, and a name of a template of another state resolves to no
    edge. *)
Theorem C3_dependency_wiring (state : State.t) (self self' : Transaction.t)
    (w w' : World.t) (out : result unit) :
  let templates := State.task_templates state in
  let ids := Expansion.batch_ids w (length templates) in
  NoDup (TaskTemplate.title <$> templates) →
  NoDup ids →
  Transaction._create_tasks_from_templates state self w = (out, self', w') →
  (∀ e, out = Raise e → ∃ msg, e = OverflowError msg)
  ∧ (out = Ok () →
     ∃ f, Expansion.resolves templates ids f
       ∧ ∀ i template id,
           templates !! i = Some template → ids !! i = Some id →
           ∃ task,
             Transaction.tasks self' !! id = Some task
             ∧ Task.id task = id
             ∧ Task.dependencies task
               = omap f (TaskTemplate.dependencies template)
             ∧ ∀ dep_id, dep_id ∈ Task.dependencies task →
                 ∃ j template_j,
                   templates !! j = Some template_j
                   ∧ TaskTemplate.title template_j
                       ∈ TaskTemplate.dependencies template
                   ∧ ids !! j = Some dep_id).
Proof.
  intros templates ids Hndt Hndi Hrun. split.
  { by apply (create_tasks_outcome state self self' w w' out). }
  intros ->. apply create_tasks_ok in Hrun
    as (created & Hids & Hall & Hnodeps & Hadv & ->).
  fold templates in Hids, Hall, Hadv |- *. fold ids in Hids.
  pose proof (Forall2_length _ _ _ Hall) as Hlen. symmetry in Hlen.
  set (t2t := Expansion.title_map templates created).
  pose proof (t2t_resolves templates created Hlen Hndt) as Hres.
  fold t2t in Hres. rewrite Hids in Hres.
  exists (t2t !!.). split; [exact Hres|].
  intros i template id Hi Hid.
  destruct (lookup_lt_is_Some_2 created i) as [task Htask].
  { rewrite Hlen. by eapply lookup_lt_Some. }
  assert (Task.id task = id) as Htid.
  { rewrite <- Hids, list_lookup_fmap, Htask in Hid. by simplify_eq/=. }
  exists (Task.set_dependencies (omap (t2t !!.) (TaskTemplate.dependencies template))
                                task).
  split_and!; [|done|done|].
  - rewrite <- Htid.
    apply (final_lookup_wired templates created (Transaction.tasks self) Hlen
             i template task); try done.
    + by rewrite Hids.
    + by eapply Forall_lookup_1 in Hnodeps.
  - simpl. intros dep_id (name & Hname & Hlook)%list_elem_of_omap.
    destruct Hres as [Hres1 Hres2].
    destruct (decide (name ∈ TaskTemplate.title <$> templates)) as [Hin|Hnotin].
    + apply list_elem_of_fmap in Hin as (template_j & -> & Hin).
      apply list_elem_of_lookup in Hin as [j Hj].
      exists j, template_j. split_and!; [done|done|].
      by rewrite <- (Hres1 j template_j Hj).
    + rewrite (Hres2 name Hnotin) in Hlook. done.
Qed.

Lemma C3_dependency_wiring_witness :
  let templates := State.task_templates Scenario.pending_inspection in
  let ids := Expansion.batch_ids Scenario.world (length templates) in
  let run :=
    Transaction._create_tasks_from_templates Scenario.pending_inspection
      Scenario.listed Scenario.world in
  run.1.1 = Ok ()
  ∧ ∃ f, Expansion.resolves templates ids f
    ∧ ∀ i template id,
        templates !! i = Some template → ids !! i = Some id →
        ∃ task,
          Transaction.tasks run.1.2 !! id = Some task
          ∧ Task.id task = id
          ∧ Task.dependencies task = omap f (TaskTemplate.dependencies template)
          ∧ ∀ dep_id, dep_id ∈ Task.dependencies task →
              ∃ j template_j,
                templates !! j = Some template_j
                ∧ TaskTemplate.title template_j ∈ TaskTemplate.dependencies template
                ∧ ids !! j = Some dep_id.
Proof.
  intros templates ids run.
  assert (run.1.1 = Ok ()) as Hok by (vm_compute; reflexivity).
  split; [exact Hok|].
  refine (proj2 (C3_dependency_wiring Scenario.pending_inspection Scenario.listed
                   run.1.2 Scenario.world run.2 run.1.1 _ _ _) Hok).
  - cbv zeta. apply (bool_decide_unpack _). vm_compute. reflexivity.
  - cbv zeta. apply (bool_decide_unpack _). vm_compute. reflexivity.
  - subst run.
    by destruct (Transaction._create_tasks_from_templates _ _ _) as [[? ?] ?].
Defined.

(** The task made from [Repair] depends on the task made from [Inspect]
    and on nothing else: [Order inspection] is not a title of the batch. *)
Example repair_depends_on_inspect :
  Task.dependencies
    <$> Transaction.tasks
          (Transaction._create_tasks_from_templates Scenario.pending_inspection
             Scenario.listed Scenario.world).1.2 !! UUID.mk 257
  = Some [UUID.mk 256].
Proof. vm_compute. reflexivity. Qed.

(** That task cannot start while the one it depends on is not completed,
    and can once [mark_completed] has been called on it. *)
Example repair_waits_for_inspect :
  let tasks :=
    Transaction.tasks
      (Transaction._create_tasks_from_templates Scenario.pending_inspection
         Scenario.listed Scenario.world).1.2 in
  ∃ inspect repair,
    tasks !! UUID.mk 256 = Some inspect ∧ tasks !! UUID.mk 257 = Some repair
    ∧ Task.can_start repair tasks = false
    ∧ Task.can_start repair
        (<[UUID.mk 256 := (Task.mark_completed inspect Scenario.world).1]> tasks)
      = true.
Proof. eexists _, _. split_and!; vm_compute; reflexivity. Qed.

(** ** Transitions *)

Section transitions.
Import Expansion.
Context (h : State.store).

Lemma enter_unfold (from : option string) (l : loc) (target notes : string)
    (auto : bool) (self : Transaction.t) (w : World.t) :
  Transaction.enter h from l target notes auto self w
  = let self1 :=
      Transaction.set_current_state (Some l)
        (Transaction.set_state_history
           (Transaction.state_history self
              ++ [StateTransition.mk (World.clock w (World.clock_calls w)) from
                    target notes []]) self) in
    let w1 := (World.now w).2 in
    if auto then
      match State.deref h l with
      | Ok state =>
          match Transaction._create_tasks_from_templates state self1 w1 with
          | (Ok _, s, w') => (Ok true, s, w')
          | (Raise e, s, w') => (Raise e, s, w')
          end
      | Raise e => (Raise e, self1, w1)
      end
    else (Ok true, self1, w1).
Proof. reflexivity. Qed.

(** Whatever template expansion does, the transition is recorded and the
    current state replaced; the only error is the overflow of a due
    date. *)
Lemma enter_spec (from : option string) (l : loc) (state : State.t)
    (target notes : string) (auto : bool) (self self' : Transaction.t)
    (w w' : World.t) (out : result bool) :
  h !! l = Some state →
  Transaction.enter h from l target notes auto self w = (out, self', w') →
  Transaction.state_history self'
  = Transaction.state_history self
      ++ [StateTransition.mk (World.clock w (World.clock_calls w)) from target
            notes []]
  ∧ Transaction.current_state self' = Some l
  ∧ (out = Ok true ∨ (auto = true ∧ ∃ msg, out = Raise (OverflowError msg)))
  ∧ (auto = false → out = Ok true ∧ Transaction.tasks self' = Transaction.tasks self).
Proof.
  intros Hstate. rewrite enter_unfold. unfold State.deref. rewrite Hstate.
  cbv zeta. destruct auto.
  - destruct (Transaction._create_tasks_from_templates _ _ _)
      as [[[u|e] s] w2] eqn:Hrun;
      apply create_tasks_outcome in Hrun as [Herr (ts & ->)];
      intros [= <- <- <-]; (split_and!; [done|done| |done]).
    + by left.
    + right. split; [done|]. destruct (Herr e eq_refl) as [msg ->]. by exists msg.
  - intros [= <- <- <-]. split_and!; try done. by left.
Qed.

Lemma transition_to_first (target notes : string) (auto : bool)
    (self : Transaction.t) (w : World.t) (registry : StateRegistry.t) (l : loc) :
  Transaction._state_registry self = Some registry →
  Transaction.current_state self = None →
  StateRegistry.get registry target = Some l →
  Transaction.transition_to h target notes auto self w
  = Transaction.enter h None l target notes auto self w.
Proof.
  intros Hreg Hcur Hget. unfold Transaction.transition_to.
  by rewrite Hreg, Hget, Hcur.
Qed.

Lemma transition_to_true (target notes : string) (auto : bool)
    (self self' : Transaction.t) (w w' : World.t) (registry : StateRegistry.t)
    (l : loc) :
  Transaction._state_registry self = Some registry →
  StateRegistry.get registry target = Some l →
  Transaction.transition_to h target notes auto self w = (Ok true, self', w') →
  ∃ from, Transaction.enter h from l target notes auto self w = (Ok true, self', w').
Proof.
  intros Hreg Hget. unfold Transaction.transition_to. rewrite Hreg, Hget.
  destruct (Transaction.current_state self) as [c|]; [|by exists None].
  destruct (State.deref h c) as [cur|e]; [|done].
  destruct (State.can_transition_to cur target); [|done].
  by exists (Some (State.name cur)).
Qed.

(** When the clock never gives a reading that a due date of the templates
    overflows from, the first loop ends. *)
Lemma instantiate_loop_clock_in_range (templates : list TaskTemplate.t) :
  ∀ t2t self w,
    (∀ template days k,
       template ∈ templates → TaskTemplate.days_until_due template = Some days →
       ∃ due, Datetime.add_days (World.clock w k) days = Ok due) →
    ∃ t2t' self' w',
      Transaction.instantiate_loop templates t2t self w = (Ok t2t', self', w').
Proof.
  induction templates as [|template templates IH]; intros t2t self w Hrange; simpl.
  - by eexists _, _, _.
  - assert (∃ task w1, Transaction.instantiate template w = (Ok task, w1)
                       ∧ World.clock w1 = World.clock w)
      as (task & w1 & -> & Hclock).
    { unfold Transaction.instantiate, Task.create, World.uuid4, World.now.
      destruct (TaskTemplate.days_until_due template) as [days|] eqn:Hdays;
        simpl; [|by eexists _, _].
      edestruct (Hrange template days) as [due ->]; [by left|done|].
      by eexists _, _. }
    apply IH. intros tpl days k Hin. rewrite Hclock. apply Hrange. by right.
Qed.

(** So a transition into a state none of whose due dates overflows from
    a reading of the clock returns true. *)
Lemma enter_in_range (from : option string) (l : loc) (state : State.t)
    (target notes : string) (auto : bool) (self self' : Transaction.t)
    (w w' : World.t) (out : result bool) :
  h !! l = Some state →
  (∀ template days k,
     template ∈ State.task_templates state →
     TaskTemplate.days_until_due template = Some days →
     ∃ due, Datetime.add_days (World.clock w k) days = Ok due) →
  Transaction.enter h from l target notes auto self w = (out, self', w') →
  out = Ok true.
Proof.
  intros Hstate Hrange. rewrite enter_unfold. unfold State.deref.
  rewrite Hstate. cbv zeta. destruct auto; [|by intros [= <- _ _]].
  rewrite create_tasks_run.
  destruct (instantiate_loop_clock_in_range (State.task_templates state) ∅
              (Transaction.set_current_state (Some l)
                 (Transaction.set_state_history
                    (Transaction.state_history self
                       ++ [StateTransition.mk
                             (World.clock w (World.clock_calls w)) from target
                             notes []]) self))
              (World.now w).2 Hrange) as (t2t' & s1 & w1 & Hloop).
  rewrite Hloop. by intros [= <- _ _].
Qed.

End transitions.

Lemma now_advances (w : World.t) : Expansion.advances w (World.now w).2 0.
Proof. unfold Expansion.advances. simpl. split_and!; try done; lia. Qed.

Lemma batch_ids_now (w : World.t) (n : nat) :
  Expansion.batch_ids (World.now w).2 n = Expansion.batch_ids w n.
Proof. apply batch_ids_advances, now_advances. Qed.

(** C2: a call of [transition_to] with [auto_create_tasks = true] that
    returns true, into a state with N templates, adds exactly N entries to
    [tasks] (the identifiers [uuid4()] generates being unique): the map
    grows by N, every entry it had is untouched, and for the [i]-th
    template there is a new entry, under the [i]-th generated identifier,
    whose task has the template's title, description, assignee and
    metadata, and whose due date is the clock reading of that moment plus
    [days_until_due] when the template gives one and is absent
    otherwise. *)
Theorem C2_template_expansion (h : State.store) (target notes : string)
    (self self' : Transaction.t) (w w' : World.t) (registry : StateRegistry.t)
    (l : loc) (state : State.t) :
  let templates := State.task_templates state in
  let ids := Expansion.batch_ids w (length templates) in
  Transaction._state_registry self = Some registry →
  StateRegistry.get registry target = Some l →
  h !! l = Some state →
  Expansion.fresh (Transaction.tasks self) ids →
  Transaction.transition_to h target notes true self w = (Ok true, self', w') →
  size (Transaction.tasks self') = size (Transaction.tasks self) + length templates
  ∧ (∀ k, k ∉ ids → Transaction.tasks self' !! k = Transaction.tasks self !! k)
  ∧ ∀ i template,
      templates !! i = Some template →
      ∃ id task,
        ids !! i = Some id
        ∧ Transaction.tasks self !! id = None
        ∧ Transaction.tasks self' !! id = Some task
        ∧ Task.id task = id
        ∧ Expansion.carries w w' template task.
Proof.
  intros templates ids Hreg Hget Hstate Hfresh Hrun.
  destruct (transition_to_true h target notes true self self' w w' registry l
              Hreg Hget Hrun) as [from Henter].
  rewrite enter_unfold in Henter. unfold State.deref in Henter.
  rewrite Hstate in Henter. cbv zeta in Henter.
  destruct (Transaction._create_tasks_from_templates _ _ _)
    as [[[[]|e] s] w2] eqn:Hcreate; [|done].
  injection Henter as -> ->.
  apply create_tasks_ok in Hcreate
    as (created & Hids & Hall & Hnodeps & Hadv & ->).
  fold templates in Hids, Hall, Hadv |- *.
  rewrite (batch_ids_now w) in Hids. fold ids in Hids.
  pose proof (Forall2_length _ _ _ Hall) as Hlen. symmetry in Hlen.
  rewrite <- Hids in Hfresh |- *.
  change (Transaction.tasks (Transaction.set_tasks ?ts _)) with ts.
  cbn [Transaction.tasks Transaction.set_tasks Transaction.set_current_state
       Transaction.set_state_history].
  split_and!.
  - by apply final_size.
  - intros k Hk. by apply final_lookup_other.
  - intros i template Hi.
    destruct (lookup_lt_is_Some_2 created i) as [task Htask].
    { rewrite Hlen. by eapply lookup_lt_Some. }
    destruct (final_lookup_created templates created (Transaction.tasks self)
                i task (proj1 Hfresh) Htask) as [ds Hds].
    exists (Task.id task), (Task.set_dependencies ds task).
    assert ((Task.id <$> created) !! i = Some (Task.id task)) as Hid
      by (by rewrite list_lookup_fmap, Htask).
    split_and!; [done| |done|done|].
    + apply (proj2 Hfresh). by eapply list_elem_of_lookup_2.
    + apply carries_set_dependencies.
      pose proof (now_advances w) as (_ & Hclock & _ & Hcalls).
      apply (carries_mono (World.now w).2 w' w w'); [done|done|done|].
      by eapply Forall2_lookup_lr.
Qed.

Lemma C2_template_expansion_witness :
  let templates := State.task_templates Scenario.under_contract in
  let ids := Expansion.batch_ids Scenario.world (length templates) in
  let run :=
    Transaction.transition_to Scenario.store "under_contract" "" true
      Scenario.listed Scenario.world in
  run.1.1 = Ok true
  ∧ size (Transaction.tasks run.1.2)
    = size (Transaction.tasks Scenario.listed) + length templates
  ∧ (∀ k, k ∉ ids →
          Transaction.tasks run.1.2 !! k = Transaction.tasks Scenario.listed !! k)
  ∧ ∀ i template,
      templates !! i = Some template →
      ∃ id task,
        ids !! i = Some id
        ∧ Transaction.tasks Scenario.listed !! id = None
        ∧ Transaction.tasks run.1.2 !! id = Some task
        ∧ Task.id task = id
        ∧ Expansion.carries Scenario.world run.2 template task.
Proof.
  intros templates ids run.
  assert (run.1.1 = Ok true) as Hok by (vm_compute; reflexivity).
  split; [exact Hok|].
  refine (C2_template_expansion Scenario.store "under_contract" "" Scenario.listed
            run.1.2 Scenario.world run.2 Scenario.registry 2%positive
            Scenario.under_contract _ _ _ _ _).
  - reflexivity.
  - reflexivity.
  - reflexivity.
  - split.
    + cbv zeta. apply (bool_decide_unpack _). vm_compute. reflexivity.
    + intros id _. apply lookup_empty.
  - rewrite <- Hok. subst run.
    by destruct (Transaction.transition_to _ _ _ _ _ _) as [[? ?] ?].
Defined.

(** The scenario of the specification: the task created on entering
    [under_contract] is due seven days after the clock reading. *)
Example order_inspection_due :
  (λ task, (Task.title task, Task.due_date task))
    <$> Transaction.tasks
          (Transaction.transition_to Scenario.store "under_contract" "" true
             Scenario.listed Scenario.world).1.2 !! UUID.mk 256
  = Some ("Order inspection", Some (Datetime.mk 2024 3 3 13 5 2 0)).
Proof. vm_compute. reflexivity. Qed.

(** ** The first transition *)

(** C4 (as the code has it): with a registry attached and no current
    state, a transition to any registered state [T] is never refused,
    whatever any [allowed_transitions] says: it appends one
    [StateTransition] with [from_state] null and [to_state] the name [T]
    is registered under, and sets [current_state] to [T].  It returns true unless template
    expansion, which runs after that when [auto_create_tasks] is true,
    raises the overflow of a due date; it returns true whenever
    [auto_create_tasks] is false or no [days_until_due] of [T]'s
    templates, added to a reading of the clock, leaves the range of
    dates. *)
Theorem C4_first_transition (h : State.store) (target notes : string)
    (auto : bool) (self : Transaction.t) (w : World.t)
    (registry : StateRegistry.t) (l : loc) (state : State.t) :
  Transaction._state_registry self = Some registry →
  Transaction.current_state self = None →
  StateRegistry.get registry target = Some l →
  h !! l = Some state →
  ∃ out self' w',
    Transaction.transition_to h target notes auto self w = (out, self', w')
    ∧ Transaction.state_history self'
      = Transaction.state_history self
          ++ [StateTransition.mk (World.clock w (World.clock_calls w)) None target
                notes []]
    ∧ Transaction.current_state self' = Some l
    ∧ (out = Ok true ∨ (auto = true ∧ ∃ msg, out = Raise (OverflowError msg)))
    ∧ (auto = false → out = Ok true)
    ∧ ((∀ template days k,
          template ∈ State.task_templates state →
          TaskTemplate.days_until_due template = Some days →
          ∃ due, Datetime.add_days (World.clock w k) days = Ok due) →
       out = Ok true).
Proof.
  intros Hreg Hcur Hget Hstate.
  rewrite (transition_to_first h target notes auto self w registry l Hreg Hcur Hget).
  destruct (Transaction.enter h None l target notes auto self w)
    as [[out self'] w'] eqn:Henter.
  exists out, self', w'.
  destruct (enter_spec h None l state target notes auto self self' w w' out
              Hstate Henter) as (Hhist & Hcurrent & Hout & Hfalse).
  split_and!; try done.
  - intros Hauto. by apply Hfalse.
  - intros Hrange.
    by apply (enter_in_range h None l state target notes auto self self' w w' out).
Qed.

Lemma C4_first_transition_witness :
  ∃ out self' w',
    Transaction.transition_to Scenario.store "under_contract" "first" true
      Scenario.fresh Scenario.world = (out, self', w')
    ∧ Transaction.state_history self'
      = Transaction.state_history Scenario.fresh
          ++ [StateTransition.mk
                (World.clock Scenario.world (World.clock_calls Scenario.world))
                None "under_contract" "first" []]
    ∧ Transaction.current_state self' = Some 2%positive
    ∧ out = Ok true.
Proof.
  destruct (C4_first_transition Scenario.store "under_contract" "first" true
              Scenario.fresh Scenario.world Scenario.registry 2%positive
              Scenario.under_contract eq_refl eq_refl eq_refl eq_refl)
    as (out & self' & w' & Hrun & Hhist & Hcur & _ & _ & Hrange).
  exists out, self', w'. split_and!; [exact Hrun|exact Hhist|exact Hcur|].
  apply Hrange. intros template days k Hin Hdays.
  apply elem_of_cons in Hin as [->|Hin%elem_of_nil]; [|done].
  injection Hdays as <-. eexists. reflexivity.
Defined.

(** C4 as the specification states it fails on a registered state one of
    whose templates is due in 4000000 days: the first transition into it
    raises instead of returning true. *)
Lemma C4_counterexample :
  Transaction._state_registry Scenario.fresh4 = Some Scenario.registry4
  ∧ Transaction.current_state Scenario.fresh4 = None
  ∧ StateRegistry.get Scenario.registry4 "archived" = Some 4%positive
  ∧ (Transaction.transition_to Scenario.store4 "archived" "" true Scenario.fresh4
       Scenario.world).1.1
    = Raise (OverflowError "date value out of range").
Proof. vm_compute. repeat split. Qed.

(** ** Errors of a transition *)




Example unknown_state_raises :
  Transaction.transition_to Scenario.store "sold" "" true Scenario.listed
    Scenario.world
  = (Raise (ValueError "Unknown state: sold"), Scenario.listed, Scenario.world).
Proof. reflexivity. Qed.


(** ** Numerals *)

Section numerals.
Local Open Scope Z_scope.

Lemma digit_cases (d : Z) :
  0 <= d < 16 →
  d ∈ [0; 1; 2; 3; 4; 5; 6; 7; 8; 9; 10; 11; 12; 13; 14; 15].
Proof.
  intros Hd. rewrite !elem_of_cons. lia.
Qed.

Lemma digit_val_char (d : Z) : 0 <= d < 16 → digit_val (digit_char d) = Some d.
Proof.
  intros Hd%digit_cases. rewrite !elem_of_cons in Hd.
  repeat (destruct Hd as [->|Hd]; [reflexivity|]). by apply elem_of_nil in Hd.
Qed.

Lemma digit_char_not_hyphen (d : Z) : 0 <= d < 16 → digit_char d ≠ UUID.hyphen.
Proof.
  intros Hd%digit_cases. rewrite !elem_of_cons in Hd.
  repeat (destruct Hd as [->|Hd]; [discriminate|]). by apply elem_of_nil in Hd.
Qed.

Lemma length_digits_fixed (base : Z) (width : nat) (n : Z) :
  length (digits_fixed base width n) = width.
Proof. induction width as [|width IH]; simpl; [done|by rewrite IH]. Qed.

Lemma digits_fixed_not_hyphen (width : nat) (n : Z) :
  Forall (λ c, c ≠ UUID.hyphen) (digits_fixed 16 width n).
Proof.
  induction width as [|width IH]; simpl; constructor; [|done].
  apply digit_char_not_hyphen, Z.mod_pos_bound. lia.
Qed.

(** Reading back what was printed gives the number modulo [base ^ width]. *)
Lemma parse_digits_fixed (base : Z) (width : nat) :
  1 < base <= 16 →
  ∀ n acc rest,
    parse_digits base width acc (digits_fixed base width n ++ rest)
    = Some (acc * base ^ Z.of_nat width + n mod base ^ Z.of_nat width, rest).
Proof.
  intros Hbase. induction width as [|width IH]; intros n acc rest.
  - simpl. rewrite Z.mod_1_r. do 2 f_equal. lia.
  - cbn [digits_fixed parse_digits app].
    assert (0 <= (n / base ^ Z.of_nat width) mod base < base) as Hd
      by (apply Z.mod_pos_bound; lia).
    rewrite digit_val_char by lia.
    destruct (Z.ltb_spec ((n / base ^ Z.of_nat width) mod base) base) as [_|?];
      [|lia].
    rewrite IH. do 2 f_equal.
    rewrite Nat2Z.inj_succ, Z.pow_succ_r by lia.
    rewrite (Z.mul_comm base), Z.rem_mul_r by lia. lia.
Qed.

Lemma parse_field (base : Z) (width : nat) (n : Z) (rest : list ascii) :
  1 < base <= 16 → 0 <= n < base ^ Z.of_nat width →
  parse_digits base width 0 (digits_fixed base width n ++ rest) = Some (n, rest).
Proof.
  intros Hbase Hn. rewrite parse_digits_fixed by done.
  by rewrite Z.mod_small.
Qed.

End numerals.

(** ** [UUID] and [datetime] through their string forms *)

Section codecs.
Local Open Scope Z_scope.

Lemma filter_Forall {A} (P : A → Prop) `{∀ x, Decision (P x)} (l : list A) :
  Forall P l → filter P l = l.
Proof.
  induction 1 as [|x l Hx _ IH]; [done|].
  by rewrite filter_cons_True, IH.
Qed.

Lemma filter_hyphen (l : list ascii) :
  filter (λ c, c ≠ UUID.hyphen) (UUID.hyphen :: l)
  = filter (λ c, c ≠ UUID.hyphen) l.
Proof. by rewrite filter_cons_False by (intros Hne; by apply Hne). Qed.

Lemma regroup {A} (l : list A) :
  take 8 l ++ take 4 (drop 8 l) ++ take 4 (drop 12 l) ++ take 4 (drop 16 l)
    ++ drop 20 l = l.
Proof.
  replace (drop 20 l) with (drop 4 (drop 16 l)) by (by rewrite drop_drop).
  rewrite take_drop.
  replace (drop 16 l) with (drop 4 (drop 12 l)) by (by rewrite drop_drop).
  rewrite take_drop.
  replace (drop 12 l) with (drop 4 (drop 8 l)) by (by rewrite drop_drop).
  by rewrite !take_drop.
Qed.

Lemma UUID_roundtrip (u : UUID.t) : UUID.wf u → UUID.of_str (UUID.str u) = Ok u.
Proof.
  intros Hwf. unfold UUID.of_str, UUID.str.
  rewrite String.list_ascii_of_string_of_list_ascii.
  set (hex := digits_fixed 16 32 (UUID.int u)).
  assert (Forall (λ c, c ≠ UUID.hyphen) hex) as Hhex
    by apply digits_fixed_not_hyphen.
  assert (filter (λ c, c ≠ UUID.hyphen)
            (take 8 hex ++ UUID.hyphen :: take 4 (drop 8 hex) ++ UUID.hyphen ::
             take 4 (drop 12 hex) ++ UUID.hyphen :: take 4 (drop 16 hex) ++
             UUID.hyphen :: drop 20 hex) = hex) as ->.
  { repeat (rewrite filter_app || rewrite filter_hyphen).
    rewrite !filter_Forall
      by (try apply Forall_take; try apply Forall_drop; exact Hhex).
    apply regroup. }
  rewrite decide_True by apply length_digits_fixed.
  rewrite <- (app_nil_r hex). unfold hex.
  rewrite parse_field; [by destruct u| lia |].
  change (16 ^ Z.of_nat 32) with (2 ^ 128). exact Hwf.
Qed.

Lemma UUID_str_inj (u v : UUID.t) :
  UUID.wf u → UUID.wf v → UUID.str u = UUID.str v → u = v.
Proof.
  intros Hu Hv Heq. apply UUID_roundtrip in Hu, Hv. congruence.
Qed.

Lemma days_in_month_bound (y m : Z) : Datetime.days_in_month y m <= 31.
Proof.
  unfold Datetime.days_in_month. destruct (_ && _); [lia|].
  destruct (Z.to_nat m) as [|[|[|[|[|[|[|[|[|[|[|[|[|k]]]]]]]]]]]]]; simpl; try lia.
  destruct k; simpl; lia.
Qed.

Lemma valid_ranges (d : Datetime.t) :
  Datetime.valid d = true →
  1 <= Datetime.year d <= 9999 ∧ 1 <= Datetime.month d <= 12
  ∧ 1 <= Datetime.day d <= 31
  ∧ 0 <= Datetime.hour d <= 23 ∧ 0 <= Datetime.minute d <= 59
  ∧ 0 <= Datetime.second d <= 59 ∧ 0 <= Datetime.microsecond d <= 999999.
Proof.
  unfold Datetime.valid. rewrite !andb_true_iff, !Z.leb_le.
  pose proof (days_in_month_bound (Datetime.year d) (Datetime.month d)). lia.
Qed.

Lemma expect_char_head (c : ascii) (rest : list ascii) :
  expect_char c (c :: rest) = Some rest.
Proof. unfold expect_char. by rewrite Ascii.eqb_refl. Qed.

Ltac parse_step :=
  first [ rewrite parse_field by (simpl; lia)
        | rewrite expect_char_head
        | progress unfold any_char ];
  cbn [mbind option_bind].

Lemma parse_isoformat (d : Datetime.t) :
  Datetime.valid d = true →
  Datetime.parse_iso (Datetime.isoformat_chars d) = Some d.
Proof.
  intros (Hy & Hm & Hd & Hh & Hmi & Hs & Hus)%valid_ranges.
  unfold Datetime.parse_iso, Datetime.isoformat_chars.
  destruct (Z.eqb_spec (Datetime.microsecond d) 0) as [Hzero|Hnonzero].
  - rewrite app_nil_r, <- (app_nil_r (digits_fixed 10 2 (Datetime.second d))).
    do 11 parse_step. destruct d; simpl in *. by rewrite Hzero.
  - rewrite <- (app_nil_r (digits_fixed 10 6 _)).
    do 11 parse_step. cbn [app]. do 2 parse_step. by destruct d.
Qed.

Lemma Datetime_roundtrip (d : Datetime.t) :
  Datetime.valid d = true →
  Datetime.fromisoformat (Datetime.isoformat d) = Ok d.
Proof.
  intros Hvalid. unfold Datetime.fromisoformat, Datetime.isoformat.
  rewrite String.list_ascii_of_string_of_list_ascii, parse_isoformat by done.
  by rewrite Hvalid.
Qed.

(** An ISO string is never empty, so it is true as a condition. *)
Lemma isoformat_truthy (d : Datetime.t) :
  truthy (PStr (Datetime.isoformat d)) = true.
Proof.
  unfold Datetime.isoformat, Datetime.isoformat_chars.
  unfold digits_fixed at 1. reflexivity.
Qed.

End codecs.

(** ** Round trips of the dictionary projections *)

Section roundtrip.

Lemma mapM_fmap_roundtrip {A B} (f : A → B) (g : B → result A) (l : list A) :
  Forall (λ a, g (f a) = Ok a) l → mapM g (f <$> l) = Ok l.
Proof.
  induction 1 as [|a l Ha _ IH]; [done|].
  rewrite fmap_cons. simpl. by rewrite Ha, IH.
Qed.

Lemma UUID_of_py_str (u : UUID.t) :
  UUID.wf u → UUID.of_py (PStr (UUID.str u)) = Ok u.
Proof. apply UUID_roundtrip. Qed.

Lemma Datetime_of_py_isoformat (d : Datetime.t) :
  Datetime.valid d = true → Datetime.of_py (PStr (Datetime.isoformat d)) = Ok d.
Proof. apply Datetime_roundtrip. Qed.

Lemma status_roundtrip (s : TaskStatus.t) :
  TaskStatus.of_value (PStr (TaskStatus.value s)) = Ok s.
Proof. by destruct s. Qed.

Lemma opt_datetime_roundtrip (data : dict) (k : string) (o : option Datetime.t) :
  (∀ d, o = Some d → Datetime.valid d = true) →
  dict_lookup k data = Some (opt_to_py (λ d, PStr (Datetime.isoformat d)) o) →
  Task.opt_datetime data k = Ok o.
Proof.
  intros Hvalid Hlook. unfold Task.opt_datetime, get, getitem. rewrite Hlook.
  destruct o as [d|]; simpl opt_to_py.
  - rewrite isoformat_truthy. cbn [mbind result_bind].
    by rewrite Datetime_of_py_isoformat by by apply Hvalid.
  - done.
Qed.

Lemma Task_roundtrip (t : Task.t) :
  WellFormed.task t → Task.from_dict (Task.to_dict t) = Ok t.
Proof.
  intros (Hid & Hcreated & Hcompleted & Hdue & Hdeps).
  unfold Task.from_dict.
  rewrite (opt_datetime_roundtrip _ "completed_at" (Task.completed_at t))
    by done.
  rewrite (opt_datetime_roundtrip _ "due_date" (Task.due_date t)) by done.
  cbv [Task.to_dict getitem get dict_lookup String.eqb Ascii.eqb Bool.eqb
       mbind result_bind expect_str expect_dict iterate].
  rewrite UUID_of_py_str, status_roundtrip, Datetime_of_py_isoformat by done.
  rewrite mapM_fmap_roundtrip.
  2:{ eapply Forall_impl; [exact Hdeps|]. intros u. apply UUID_of_py_str. }
  destruct t as [? ? ? ? ? ? [a|] ? ? ?]; reflexivity.
Qed.

Lemma StateTransition_roundtrip (s : StateTransition.t) :
  WellFormed.transition s →
  StateTransition.from_dict (StateTransition.to_dict s) = Ok s.
Proof.
  intros Hvalid. unfold StateTransition.from_dict.
  cbv [StateTransition.to_dict getitem get dict_lookup String.eqb Ascii.eqb
       Bool.eqb mbind result_bind expect_str expect_dict].
  rewrite Datetime_of_py_isoformat by done.
  destruct s as [? [f|] ? ? ?]; reflexivity.
Qed.

End roundtrip.

Section transaction_roundtrip.
Import Expansion WellFormed.

Lemma dict_set_new (k : string) (v : pyval) (d : dict) :
  k ∉ d.*1 → dict_set k v d = d ++ [(k, v)].
Proof.
  induction d as [|[k' v'] d IH]; intros Hk; [done|].
  rewrite fmap_cons, not_elem_of_cons in Hk. destruct Hk as [Hne Hk]. simpl.
  destruct (String.eqb_spec k k') as [->|_]; [done|]. by rewrite IH.
Qed.

(** A dictionary comprehension whose keys are pairwise distinct lists its
    items in order. *)
Lemma comprehension_distinct {A} (kf : A → string) (vf : A → pyval) (items : list A) :
  ∀ acc,
    NoDup (acc.*1 ++ (kf <$> items)) →
    fold_left (λ d a, dict_set (kf a) (vf a) d) items acc
    = acc ++ ((λ a, (kf a, vf a)) <$> items).
Proof.
  induction items as [|a items IH]; intros acc Hnd; simpl.
  - by rewrite app_nil_r.
  - rewrite fmap_cons in Hnd. pose proof Hnd as (_ & Hdisj & _)%NoDup_app.
    rewrite dict_set_new by (intros Hin; eapply Hdisj; [exact Hin|by left]).
    rewrite IH.
    + by rewrite <- app_assoc.
    + by rewrite fmap_app, <- app_assoc.
Qed.

Lemma tasks_to_dict_spec (ts : gmap UUID.t Task.t) :
  map_Forall (λ k t, UUID.wf k ∧ WellFormed.task t) ts →
  Transaction.tasks_to_dict ts = encode_entry <$> map_to_list ts.
Proof.
  intros Hwf. unfold Transaction.tasks_to_dict.
  rewrite (comprehension_distinct (λ kv, UUID.str kv.1)
             (λ kv, PDict (Task.to_dict kv.2))); [done|].
  simpl. apply NoDup_fmap_2_strong; [|apply NoDup_map_to_list].
  intros [k1 t1] [k2 t2] Hin1%elem_of_map_to_list Hin2%elem_of_map_to_list Heq.
  simpl in Heq.
  assert (k1 = k2) as <-.
  { apply UUID_str_inj; [by apply (Hwf k1 t1)|by apply (Hwf k2 t2)|done]. }
  congruence.
Qed.

Lemma tasks_from_items_spec (items : list (UUID.t * Task.t)) :
  ∀ acc,
    Forall (λ kv, UUID.wf kv.1 ∧ WellFormed.task kv.2) items →
    Transaction.tasks_from_items (encode_entry <$> items) acc
    = Ok (insert_all items acc).
Proof.
  induction items as [|[k t] items IH]; intros acc Hwf; [done|].
  apply Forall_cons in Hwf as [[Hk Ht] Hwf].
  rewrite fmap_cons. unfold insert_all. simpl.
  rewrite UUID_roundtrip, Task_roundtrip by done. by apply IH.
Qed.

Lemma insert_all_map_to_list (ts : gmap UUID.t Task.t) :
  insert_all (map_to_list ts) ∅ = ts.
Proof.
  apply map_eq. intros k. destruct (ts !! k) as [t|] eqn:Hk.
  - apply insert_all_lookup_in; [apply NoDup_fst_map_to_list|].
    by apply elem_of_map_to_list.
  - rewrite insert_all_lookup_notin; [apply lookup_empty|].
    intros ([k' t] & -> & Hin%elem_of_map_to_list)%list_elem_of_fmap.
    simpl in Hk. congruence.
Qed.

(** Reading back the dictionary of a transaction: every field but
    [current_state] is restored, the registry is attached, and the
    current state is what the stored name leads to. *)
Lemma from_dict_fields (v : pyval) (x : Transaction.t)
    (registry : StateRegistry.t) :
  WellFormed.transaction x →
  Transaction.from_dict (Transaction.fields v x) registry
  = if truthy v then
      found ← State.lookup_key (StateRegistry._states registry) v;
      Ok (Transaction.set_state_registry registry
            (Transaction.set_current_state found x))
    else
      Ok (Transaction.set_state_registry registry
            (Transaction.set_current_state None x)).
Proof.
  intros (Hid & Hcreated & Hhist & Htasks).
  unfold Transaction.from_dict.
  cbv [Transaction.fields getitem get dict_lookup String.eqb Ascii.eqb Bool.eqb
       mbind result_bind expect_str expect_dict iterate items].
  rewrite UUID_of_py_str, Datetime_of_py_isoformat by done.
  rewrite (mapM_fmap_roundtrip (λ t, PDict (StateTransition.to_dict t))).
  2:{ eapply Forall_impl; [exact Hhist|]. intros s Hs. simpl.
      by apply StateTransition_roundtrip. }
  rewrite tasks_to_dict_spec, tasks_from_items_spec, insert_all_map_to_list;
    [| |done].
  2:{ apply Forall_forall. intros [k t] Hin%elem_of_map_to_list.
      by apply (Htasks k t). }
  destruct x. destruct (truthy v); [|done].
  by destruct (State.lookup_key _ v).
Qed.

End transaction_roundtrip.

Lemma to_dict_current (h : State.store) (x : Transaction.t) (c : loc) (s : State.t) :
  Transaction.current_state x = Some c → h !! c = Some s →
  Transaction.to_dict h x = Ok (Transaction.fields (PStr (State.name s)) x).
Proof.
  intros Hc Hs. unfold Transaction.to_dict, State.deref. by rewrite Hc, Hs.
Qed.

Lemma to_dict_no_current (h : State.store) (x : Transaction.t) :
  Transaction.current_state x = None →
  Transaction.to_dict h x = Ok (Transaction.fields PNone x).
Proof. intros Hc. unfold Transaction.to_dict. by rewrite Hc. Qed.

Lemma truthy_name (n : string) : n ≠ "" → truthy (PStr n) = true.
Proof. intros Hn. simpl. by destruct (String.eqb_spec n ""). Qed.

(** C6 (as the code has it): [from_dict(to_dict(x))] gives back every
    Task and every StateTransition field for field, the null or present
    [completed_at], [due_date] and [from_state] and the list of dependency
    ids included.  It gives back a Transaction that has the registry
    attached when its current state is unset or is the state the registry
    holds under its name, that name not being empty. *)
Theorem C6_roundtrip (t : Task.t) (s : StateTransition.t) (h : State.store)
    (x : Transaction.t) (registry : StateRegistry.t) :
  WellFormed.task t →
  WellFormed.transition s →
  WellFormed.transaction x →
  Transaction._state_registry x = Some registry →
  WellFormed.linked h registry x →
  Task.from_dict (Task.to_dict t) = Ok t
  ∧ StateTransition.from_dict (StateTransition.to_dict s) = Ok s
  ∧ ∃ data,
      Transaction.to_dict h x = Ok data
      ∧ Transaction.from_dict data registry = Ok x.
Proof.
  intros Ht Hs Hx Hreg Hlinked.
  split; [by apply Task_roundtrip|]. split; [by apply StateTransition_roundtrip|].
  unfold WellFormed.linked in Hlinked.
  destruct (Transaction.current_state x) as [c|] eqn:Hc.
  - destruct Hlinked as (cs & Hcs & Hname & Hget).
    eexists. split; [by apply (to_dict_current h x c cs)|].
    rewrite from_dict_fields, truthy_name by done. simpl.
    unfold StateRegistry.get in Hget. rewrite Hget. simpl.
    destruct x; simpl in *. by subst.
  - eexists. split; [by apply to_dict_no_current|].
    rewrite from_dict_fields by done. simpl.
    destruct x; simpl in *. by subst.
Qed.

Ltac small_uuid := unfold UUID.wf; simpl; split; [lia|reflexivity].

Lemma scenario_listed_wf : WellFormed.transaction Scenario.listed.
Proof.
  split_and!.
  - small_uuid.
  - reflexivity.
  - repeat constructor.
  - apply map_Forall_empty.
Qed.

Lemma C6_roundtrip_witness :
  Task.from_dict (Task.to_dict Scenario.blocked_task) = Ok Scenario.blocked_task
  ∧ StateTransition.from_dict
      (StateTransition.to_dict (StateTransition.mk Scenario.start None "new_listing" "" []))
    = Ok (StateTransition.mk Scenario.start None "new_listing" "" [])
  ∧ ∃ data,
      Transaction.to_dict Scenario.store Scenario.listed = Ok data
      ∧ Transaction.from_dict data Scenario.registry = Ok Scenario.listed.
Proof.
  apply (C6_roundtrip Scenario.blocked_task
           (StateTransition.mk Scenario.start None "new_listing" "" [])
           Scenario.store Scenario.listed Scenario.registry).
  - split_and!; try done.
    constructor; [small_uuid|constructor].
  - reflexivity.
  - exact scenario_listed_wf.
  - reflexivity.
  - exists Scenario.new_listing. split_and!; [reflexivity|discriminate|reflexivity].
Defined.

(** C6 as the specification states it fails in two ways.  A transaction
    to which no registry was attached comes back with the supplied
    registry attached.  And a state whose name is the empty string is
    lost: the registry holds it under that name, [transition_to] enters
    it, [to_dict] writes the name, and [from_dict] takes the empty name
    for no state. *)
Lemma C6_counterexample :
  (∃ data x',
     Transaction.to_dict Scenario.store Scenario.detached = Ok data
     ∧ Transaction.from_dict data Scenario.registry = Ok x'
     ∧ Transaction._state_registry x' = Some Scenario.registry
     ∧ x' ≠ Scenario.detached)
  ∧ (Transaction.transition_to Scenario.store5 "" "" true Scenario.fresh5
       Scenario.world).1
    = (Ok true, Scenario.in_unnamed)
  ∧ Transaction.current_state Scenario.in_unnamed = Some 5%positive
  ∧ Scenario.store5 !! 5%positive = Some Scenario.unnamed
  ∧ StateRegistry.get Scenario.registry5 (State.name Scenario.unnamed)
    = Some 5%positive
  ∧ Transaction._state_registry Scenario.in_unnamed = Some Scenario.registry5
  ∧ ∃ data x',
      Transaction.to_dict Scenario.store5 Scenario.in_unnamed = Ok data
      ∧ Transaction.from_dict data Scenario.registry5 = Ok x'
      ∧ Transaction.current_state x' = None
      ∧ x' ≠ Scenario.in_unnamed.
Proof.
  split.
  { eexists _, _. split_and!.
    - reflexivity.
    - vm_compute. reflexivity.
    - reflexivity.
    - intros Heq. apply (f_equal Transaction._state_registry) in Heq.
      simpl in Heq. discriminate Heq. }
  split_and!; try reflexivity.
  eexists _, _. split_and!.
  - reflexivity.
  - vm_compute. reflexivity.
  - reflexivity.
  - intros Heq. apply (f_equal Transaction.current_state) in Heq.
    vm_compute in Heq. discriminate Heq.
Qed.

(** ** Names that the registry does not hold *)

Section state_from_dict.

Lemma TaskTemplate_roundtrip (tt : TaskTemplate.t) :
  TaskTemplate.from_kwargs (PDict (TaskTemplate.to_dict tt)) = Ok tt.
Proof.
  unfold TaskTemplate.from_kwargs.
  assert (forallb (λ kv, bool_decide (kv.1 ∈ TaskTemplate.field_names))
                  (TaskTemplate.to_dict tt) = true) as -> by reflexivity.
  cbv [TaskTemplate.to_dict get dict_lookup String.eqb Ascii.eqb Bool.eqb mbind
       result_bind expect_str expect_str_list expect_dict].
  rewrite mapM_fmap_roundtrip by (by apply Forall_forall).
  by destruct tt as [? ? [a|] [d|] ? ?].
Qed.

Lemma State_from_dict_fields (v : pyval) (s : State.t)
    (_states : gmap string loc) :
  State.from_dict (State.fields v s) _states
  = if truthy v then
      found ← State.lookup_key _states v; Ok (State.rebuilt found s)
    else Ok (State.rebuilt None s).
Proof.
  unfold State.from_dict.
  cbv [State.fields getitem get dict_lookup String.eqb Ascii.eqb Bool.eqb mbind
       result_bind expect_str expect_dict iterate].
  rewrite (mapM_fmap_roundtrip PStr State.set_element) by (by apply Forall_forall).
  rewrite (mapM_fmap_roundtrip (λ tt, PDict (TaskTemplate.to_dict tt))).
  2:{ apply Forall_forall. intros tt _. apply TaskTemplate_roundtrip. }
  rewrite list_to_set_elements_L. unfold State.rebuilt.
  destruct (truthy v); [|done].
  by destruct (State.lookup_key _states v) as [[p|]|e].
Qed.

End state_from_dict.

(** C10: reading back a Transaction whose current state's name is not
    registered in the supplied registry succeeds and leaves
    [current_state] unset (every other field is restored and the registry
    attached); reading back a State whose parent's name is not registered
    succeeds and leaves [parent] unset. *)
Theorem C10_unresolved_names (h h' : State.store) (x : Transaction.t)
    (registry : StateRegistry.t) (c p : loc) (current s parent : State.t) :
  WellFormed.transaction x →
  Transaction.current_state x = Some c →
  h !! c = Some current →
  StateRegistry.get registry (State.name current) = None →
  State.parent s = Some p →
  h' !! p = Some parent →
  StateRegistry.get registry (State.name parent) = None →
  (∃ data,
     Transaction.to_dict h x = Ok data
     ∧ Transaction.from_dict data registry
       = Ok (Transaction.set_state_registry registry
               (Transaction.set_current_state None x)))
  ∧ (∃ data,
       State.to_dict h' s = Ok data
       ∧ State.from_dict data (StateRegistry._states registry)
         = Ok (State.rebuilt None s)).
Proof.
  intros Hx Hc Hcurrent Hget Hp Hparent Hget'. unfold StateRegistry.get in *.
  split.
  - eexists. split; [by apply (to_dict_current h x c current)|].
    rewrite from_dict_fields by done.
    destruct (truthy _); [|done]. simpl. by rewrite Hget.
  - eexists. split.
    + unfold State.to_dict, State.deref. by rewrite Hp, Hparent.
    + rewrite State_from_dict_fields.
      destruct (truthy _); [|done]. simpl. by rewrite Hget'.
Qed.

Lemma C10_unresolved_names_witness :
  (∃ data,
     Transaction.to_dict Scenario.store Scenario.listed = Ok data
     ∧ Transaction.from_dict data Scenario.registry_small
       = Ok (Transaction.set_state_registry Scenario.registry_small
               (Transaction.set_current_state None Scenario.listed)))
  ∧ (∃ data,
       State.to_dict Scenario.tree Scenario.escrow = Ok data
       ∧ State.from_dict data (StateRegistry._states Scenario.registry_small)
         = Ok (State.rebuilt None Scenario.escrow)).
Proof.
  apply (C10_unresolved_names Scenario.store Scenario.tree Scenario.listed
           Scenario.registry_small 1%positive 1%positive Scenario.new_listing
           Scenario.escrow Scenario.active); try reflexivity.
  exact scenario_listed_wf.
Defined.

(** * Further properties of the code *)

(** ** Dependencies between tasks *)

Section dependencies.
Context (all_tasks : gmap UUID.t Task.t).

Lemma blocked_loop_true (deps : list UUID.t) :
  Task.blocked_loop all_tasks deps = true
  ↔ ∃ dep_id dep_task,
      dep_id ∈ deps ∧ all_tasks !! dep_id = Some dep_task
      ∧ Task.status dep_task ≠ COMPLETED.
Proof.
  induction deps as [|dep_id deps IH]; simpl.
  - split; [done|]. intros (? & ? & []%elem_of_nil & _).
  - destruct (all_tasks !! dep_id) as [dep_task|] eqn:Hdep.
    + destruct (decide (Task.status dep_task ≠ COMPLETED)) as [Hne|Heq].
      * split; [|done]. intros _. exists dep_id, dep_task. by split_and!; [left| |].
      * rewrite IH. split.
        -- intros (d & dt & Hin & Hd & Hs). exists d, dt. by split_and!; [right| |].
        -- intros (d & dt & [->|Hin]%elem_of_cons & Hd & Hs).
           ++ by simplify_eq.
           ++ by exists d, dt.
    + rewrite IH. split.
      * intros (d & dt & Hin & Hd & Hs). exists d, dt. by split_and!; [right| |].
      * intros (d & dt & [->|Hin]%elem_of_cons & Hd & Hs).
        -- by simplify_eq.
        -- by exists d, dt.
Qed.

Lemma can_start_true (t : Task.t) :
  Task.can_start t all_tasks = true
  ↔ ∀ dep_id dep_task,
      dep_id ∈ Task.dependencies t → all_tasks !! dep_id = Some dep_task →
      Task.status dep_task = COMPLETED.
Proof.
  unfold Task.can_start, Task.is_blocked_by_dependencies.
  rewrite negb_true_iff, <- not_true_iff_false, blocked_loop_true. split.
  - intros Hno dep_id dep_task Hin Hdep.
    destruct (decide (Task.status dep_task = COMPLETED)) as [|Hne]; [done|].
    destruct Hno. by exists dep_id, dep_task.
  - intros Hall (dep_id & dep_task & Hin & Hdep & Hne).
    by apply Hne, (Hall dep_id dep_task).
Qed.

End dependencies.

(** [is_blocked_by_dependencies] is true exactly when some dependency id
    is a key of [all_tasks] whose task is not COMPLETED; an id that is not
    a key never blocks.  [can_start] is true exactly when every dependency
    that is a key of [all_tasks] is COMPLETED, so a task without
    dependencies can always start. *)
Theorem blocked_by_dependencies_iff (t : Task.t) (all_tasks : gmap UUID.t Task.t) :
  (Task.is_blocked_by_dependencies t all_tasks = true
   ↔ ∃ dep_id dep_task,
       dep_id ∈ Task.dependencies t ∧ all_tasks !! dep_id = Some dep_task
       ∧ Task.status dep_task ≠ COMPLETED)
  ∧ (Task.can_start t all_tasks = true
     ↔ ∀ dep_id dep_task,
         dep_id ∈ Task.dependencies t → all_tasks !! dep_id = Some dep_task →
         Task.status dep_task = COMPLETED)
  ∧ (Task.dependencies t = [] → Task.can_start t all_tasks = true).
Proof.
  split; [apply blocked_loop_true|]. split; [apply can_start_true|].
  unfold Task.can_start, Task.is_blocked_by_dependencies.
  intros ->. reflexivity.
Qed.

Lemma blocked_by_dependencies_iff_witness :
  Task.can_start Scenario.pending_task ∅ = true.
Proof.
  apply (proj2 (proj2 (blocked_by_dependencies_iff Scenario.pending_task ∅))).
  reflexivity.
Defined.

(** Once the task stored under [dep_id] has been completed, a task all of
    whose other dependencies are COMPLETED or unknown can start. *)
Theorem can_start_after_completion (t dep_task : Task.t)
    (all_tasks : gmap UUID.t Task.t) (dep_id : UUID.t) (w : World.t) :
  all_tasks !! dep_id = Some dep_task →
  (∀ other other_task,
     other ∈ Task.dependencies t → other ≠ dep_id →
     all_tasks !! other = Some other_task → Task.status other_task = COMPLETED) →
  Task.can_start t (<[dep_id := (Task.mark_completed dep_task w).1]> all_tasks)
  = true.
Proof.
  intros _ Hothers.
  apply can_start_true.
  intros other other_task Hin.
  destruct (decide (other = dep_id)) as [->|Hne].
  - rewrite lookup_insert_eq. by intros [= <-].
  - rewrite lookup_insert_ne by done. by apply Hothers.
Qed.

Lemma can_start_after_completion_witness :
  ∃ inspect repair,
    Transaction.tasks Scenario.inspecting !! UUID.mk 256 = Some inspect
    ∧ Transaction.tasks Scenario.inspecting !! UUID.mk 257 = Some repair
    ∧ Task.can_start repair (Transaction.tasks Scenario.inspecting) = false
    ∧ Task.can_start repair
        (<[UUID.mk 256 := (Task.mark_completed inspect Scenario.world).1]>
           (Transaction.tasks Scenario.inspecting)) = true.
Proof.
  eexists _, _. split_and!; [reflexivity|reflexivity|by vm_compute|].
  apply can_start_after_completion; [reflexivity|].
  intros other other_task Hin Hne. exfalso. apply Hne.
  simpl in Hin. by apply elem_of_cons in Hin as [Hin|Hin%elem_of_nil].
Defined.

(** ** Status operations, one after another *)

(** [mark_in_progress] has no effect on a task that was completed, blocked
    or already put in progress; neither it nor [mark_blocked] touches
    [completed_at], so a completed task that is marked blocked is BLOCKED
    and still carries its completion time. *)
Theorem status_operations_compose (t : Task.t) (w : World.t) :
  Task.mark_in_progress (Task.mark_completed t w).1 = (Task.mark_completed t w).1
  ∧ Task.mark_in_progress (Task.mark_blocked t) = Task.mark_blocked t
  ∧ Task.mark_in_progress (Task.mark_in_progress t) = Task.mark_in_progress t
  ∧ Task.completed_at (Task.mark_in_progress t) = Task.completed_at t
  ∧ Task.completed_at (Task.mark_blocked t) = Task.completed_at t
  ∧ Task.status (Task.mark_blocked (Task.mark_completed t w).1) = BLOCKED
  ∧ Task.completed_at (Task.mark_blocked (Task.mark_completed t w).1)
    = Some (World.clock w (World.clock_calls w)).
Proof.
  unfold Task.mark_in_progress, Task.mark_completed, Task.mark_blocked.
  split_and!; try done.
  - destruct (decide (Task.status t = PENDING)) as [Hp|Hp]; simpl; [done|].
    by rewrite decide_False.
  - by destruct (decide (Task.status t = PENDING)).
Qed.

(** ** Reading dictionaries that lack keys *)

Section missing_keys.

Lemma bind_Ok {A B} (m : result A) (k : A → result B) (b : B) :
  m ≫= k = Ok b → ∃ a, m = Ok a ∧ k a = Ok b.
Proof. destruct m as [a|e]; simpl; [by exists a|done]. Qed.

Lemma getitem_Ok (data : dict) (k : string) (v : pyval) :
  getitem data k = Ok v → dict_lookup k data = Some v.
Proof. unfold getitem. by destruct (dict_lookup k data); intros [= ->]. Qed.

Lemma getitem_bind_Ok {A} (data : dict) (k : string) (f : pyval → result A) (a : A) :
  getitem data k ≫= f = Ok a → is_Some (dict_lookup k data).
Proof. intros (v & Hv%getitem_Ok & _)%bind_Ok. by exists v. Qed.

Lemma opt_datetime_falsy (data : dict) (k : string) (o : option Datetime.t) :
  Task.opt_datetime data k = Ok o → truthy (get data k PNone) = false → o = None.
Proof.
  unfold Task.opt_datetime. intros H Hfalsy. rewrite Hfalsy in H.
  by simplify_eq.
Qed.

Lemma get_missing (data : dict) (k : string) (default : pyval) :
  dict_lookup k data = None → get data k default = default.
Proof. unfold get. by intros ->. Qed.

End missing_keys.

(** [Task.from_dict] cannot do without the keys [id], [title],
    [description], [status] and [created_at]: without [id] it raises the
    KeyError of that key, and it returns a task only when all five are
    there.  The other keys are optional: a missing, null or empty
    [completed_at] or [due_date] gives none, a missing [assignee] none, a
    missing [dependencies] the empty list and a missing [metadata] the
    empty dictionary. *)
Theorem Task_from_dict_keys (data : dict) :
  (dict_lookup "id" data = None → Task.from_dict data = Raise (KeyError "id"))
  ∧ ∀ t, Task.from_dict data = Ok t →
      Forall (λ k, is_Some (dict_lookup k data))
             ["id"; "title"; "description"; "status"; "created_at"]
      ∧ (truthy (get data "completed_at" PNone) = false → Task.completed_at t = None)
      ∧ (dict_lookup "assignee" data = None → Task.assignee t = None)
      ∧ (truthy (get data "due_date" PNone) = false → Task.due_date t = None)
      ∧ (dict_lookup "dependencies" data = None → Task.dependencies t = [])
      ∧ (dict_lookup "metadata" data = None → Task.metadata t = []).
Proof.
  split.
  { intros Hid. unfold Task.from_dict, getitem. by rewrite Hid. }
  intros t. unfold Task.from_dict.
  intros (id & Hid & H)%bind_Ok.
  apply bind_Ok in H as (title & Htitle & H).
  apply bind_Ok in H as (description & Hdescription & H).
  apply bind_Ok in H as (status & Hstatus & H).
  apply bind_Ok in H as (created_at & Hcreated & H).
  apply bind_Ok in H as (completed_at & Hcompleted & H).
  apply bind_Ok in H as (assignee & Hassignee & H).
  apply bind_Ok in H as (due_date & Hdue & H).
  apply bind_Ok in H as (dependencies & Hdeps & H).
  apply bind_Ok in H as (metadata & Hmetadata & H).
  injection H as <-. simpl. split_and!.
  - repeat constructor; by eapply getitem_bind_Ok.
  - by apply opt_datetime_falsy.
  - intros Hnone. rewrite (get_missing _ _ _ Hnone) in Hassignee.
    by simplify_eq/=.
  - by apply opt_datetime_falsy.
  - intros Hnone. rewrite (get_missing _ _ _ Hnone) in Hdeps.
    by simplify_eq/=.
  - intros Hnone. rewrite (get_missing _ _ _ Hnone) in Hmetadata.
    by simplify_eq/=.
Qed.

Lemma Task_from_dict_keys_witness :
  ∃ t,
    Task.from_dict Scenario.minimal_task = Ok t
    ∧ Task.completed_at t = None ∧ Task.assignee t = None
    ∧ Task.due_date t = None ∧ Task.dependencies t = []
    ∧ Task.metadata t = [].
Proof.
  assert (∃ t, Task.from_dict Scenario.minimal_task = Ok t) as [t Ht]
    by (eexists; vm_compute; reflexivity).
  exists t. split; [exact Ht|].
  destruct (proj2 (Task_from_dict_keys Scenario.minimal_task) t Ht)
    as (_ & Hc & Ha & Hd & Hdeps & Hm).
  split_and!; [apply Hc|apply Ha|apply Hd|apply Hdeps|apply Hm]; reflexivity.
Defined.

(** [StateTransition.from_dict] cannot do without [timestamp] and
    [to_state]: without [timestamp] it raises the KeyError of that key.
    A missing [from_state] gives none, missing [notes] the empty string
    and missing [metadata] the empty dictionary. *)
Theorem StateTransition_from_dict_keys (data : dict) :
  (dict_lookup "timestamp" data = None →
   StateTransition.from_dict data = Raise (KeyError "timestamp"))
  ∧ ∀ s, StateTransition.from_dict data = Ok s →
      is_Some (dict_lookup "timestamp" data)
      ∧ is_Some (dict_lookup "to_state" data)
      ∧ (dict_lookup "from_state" data = None → StateTransition.from_state s = None)
      ∧ (dict_lookup "notes" data = None → StateTransition.notes s = "")
      ∧ (dict_lookup "metadata" data = None → StateTransition.metadata s = []).
Proof.
  split.
  { intros Hts. unfold StateTransition.from_dict, getitem. by rewrite Hts. }
  intros s. unfold StateTransition.from_dict.
  intros (timestamp & Hts & H)%bind_Ok.
  apply bind_Ok in H as (from_state & Hfrom & H).
  apply bind_Ok in H as (to_state & Hto & H).
  apply bind_Ok in H as (notes & Hnotes & H).
  apply bind_Ok in H as (metadata & Hmetadata & H).
  injection H as <-. simpl. split_and!.
  - by eapply getitem_bind_Ok.
  - by eapply getitem_bind_Ok.
  - intros Hnone. rewrite (get_missing _ _ _ Hnone) in Hfrom. by simplify_eq/=.
  - intros Hnone. rewrite (get_missing _ _ _ Hnone) in Hnotes. by simplify_eq/=.
  - intros Hnone. rewrite (get_missing _ _ _ Hnone) in Hmetadata.
    by simplify_eq/=.
Qed.

Lemma StateTransition_from_dict_keys_witness :
  ∃ s,
    StateTransition.from_dict Scenario.minimal_transition = Ok s
    ∧ StateTransition.from_state s = None ∧ StateTransition.notes s = ""
    ∧ StateTransition.metadata s = [].
Proof.
  assert (∃ s, StateTransition.from_dict Scenario.minimal_transition = Ok s)
    as [s Hs] by (eexists; vm_compute; reflexivity).
  exists s. split; [exact Hs|].
  destruct (proj2 (StateTransition_from_dict_keys Scenario.minimal_transition) s Hs)
    as (_ & _ & Hf & Hn & Hm).
  split_and!; [apply Hf|apply Hn|apply Hm]; reflexivity.
Defined.

(** ** Allowed transitions and the registry *)

Lemma can_transition_to_added (s : State.t) (state_name : string) :
  State.can_transition_to (State.add_allowed_transition s state_name) state_name
  = true.
Proof.
  unfold State.can_transition_to, State.add_allowed_transition. simpl.
  apply bool_decide_eq_true. set_solver.
Qed.

(** [add_allowed_transition] allows the name it is given and changes the
    answer of [can_transition_to] for no other name; adding a name twice
    is adding it once. *)
Theorem add_allowed_transition_spec (s : State.t) (state_name other : string) :
  State.can_transition_to (State.add_allowed_transition s state_name) state_name
  = true
  ∧ (other ≠ state_name →
     State.can_transition_to (State.add_allowed_transition s state_name) other
     = State.can_transition_to s other)
  ∧ State.add_allowed_transition (State.add_allowed_transition s state_name)
      state_name
    = State.add_allowed_transition s state_name.
Proof.
  unfold State.can_transition_to, State.add_allowed_transition. simpl.
  split_and!.
  - apply can_transition_to_added.
  - intros Hne. apply bool_decide_ext. set_solver.
  - f_equal. set_solver.
Qed.

Lemma add_allowed_transition_spec_witness :
  State.can_transition_to
    (State.add_allowed_transition Scenario.new_listing "cancelled") "under_contract"
  = State.can_transition_to Scenario.new_listing "under_contract".
Proof.
  apply (add_allowed_transition_spec Scenario.new_listing "cancelled"
           "under_contract").
  discriminate.
Defined.

(** Once a name has been added to the current state's allowed
    transitions, a transition to the state registered under that name is
    not refused, whether or not the name was allowed before: the call
    records the transition from the current state and enters the
    target. *)
Theorem allowing_opens_the_gate (h : State.store) (target notes : string)
    (auto : bool) (self : Transaction.t) (w : World.t)
    (registry : StateRegistry.t) (a b : loc) (A B : State.t) :
  Transaction._state_registry self = Some registry →
  Transaction.current_state self = Some a →
  h !! a = Some A →
  StateRegistry.get registry target = Some b →
  h !! b = Some B →
  ∃ out self' w',
    Transaction.transition_to (<[a := State.add_allowed_transition A target]> h)
      target notes auto self w = (out, self', w')
    ∧ out ≠ Ok false
    ∧ Transaction.current_state self' = Some b
    ∧ Transaction.state_history self'
      = Transaction.state_history self
          ++ [StateTransition.mk (World.clock w (World.clock_calls w))
                (Some (State.name A)) target notes []].
Proof.
  intros Hreg Hcur HA Hget HB.
  unfold Transaction.transition_to, State.deref.
  rewrite Hreg, Hget, Hcur, lookup_insert_eq.
  rewrite can_transition_to_added.
  destruct (Transaction.enter _ _ b target notes auto self w)
    as [[out self'] w'] eqn:Henter.
  exists out, self', w'. split; [done|].
  assert (∃ B', (<[a := State.add_allowed_transition A target]> h) !! b = Some B')
    as [B' HB'].
  { destruct (decide (a = b)) as [->|Hne].
    - rewrite lookup_insert_eq. by eexists.
    - rewrite lookup_insert_ne by done. by eexists. }
  destruct (enter_spec _ _ b B' target notes auto self self' w w' out HB' Henter)
    as (Hhist & Hcurrent & Hout & _).
  split_and!; [|done|done].
  destruct Hout as [->|[_ [msg ->]]]; done.
Qed.

Lemma allowing_opens_the_gate_witness :
  ∃ out self' w',
    Transaction.transition_to
      (<[1%positive := State.add_allowed_transition Scenario.new_listing "cancelled"]>
         Scenario.store)
      "cancelled" "" true Scenario.listed Scenario.world = (out, self', w')
    ∧ out ≠ Ok false
    ∧ Transaction.current_state self' = Some 3%positive
    ∧ Transaction.state_history self'
      = Transaction.state_history Scenario.listed
          ++ [StateTransition.mk
                (World.clock Scenario.world (World.clock_calls Scenario.world))
                (Some (State.name Scenario.new_listing)) "cancelled" "" []].
Proof.
  apply (allowing_opens_the_gate Scenario.store "cancelled" "" true Scenario.listed
           Scenario.world Scenario.registry 1%positive 3%positive
           Scenario.new_listing Scenario.cancelled); reflexivity.
Defined.

Section registry.
Import Consistency.
Context (h : State.store).

(** [register] files the state under its name, replacing whatever the
    name led to, and leaves every other name alone; [get] then finds it. *)
Theorem register_get (registry : StateRegistry.t) (l : loc) (s : State.t)
    (other : string) :
  h !! l = Some s →
  ∃ registry',
    StateRegistry.register h registry l = Ok registry'
    ∧ StateRegistry.get registry' (State.name s) = Some l
    ∧ (other ≠ State.name s →
       StateRegistry.get registry' other = StateRegistry.get registry other)
    ∧ dom (StateRegistry.all_states registry')
      = {[State.name s]} ∪ dom (StateRegistry.all_states registry).
Proof.
  intros Hs. unfold StateRegistry.register, State.deref. rewrite Hs. simpl.
  eexists. split; [reflexivity|].
  unfold StateRegistry.get, StateRegistry.all_states. simpl. split_and!.
  - apply lookup_insert_eq.
  - intros Hne. by apply lookup_insert_ne.
  - apply dom_insert_L.
Qed.

(** A registry filled by [register] alone keeps every key equal to the
    name of the state it leads to, and holds only states of the store. *)
Theorem register_named (registry registry' : StateRegistry.t) (l : loc) :
  named h registry →
  StateRegistry.register h registry l = Ok registry' →
  named h registry' ∧ registry_in_store h registry'.
Proof.
  intros Hnamed. unfold StateRegistry.register, State.deref.
  destruct (h !! l) as [s|] eqn:Hs; [|done]. simpl. intros [= <-].
  assert (named h (StateRegistry.mk
                     (<[State.name s := l]> (StateRegistry._states registry))))
    as Hnamed'.
  { intros k l'. simpl. rewrite lookup_insert_Some.
    intros [[<- <-]|[_ Hk]]; [by exists s|by apply Hnamed]. }
  split; [done|].
  intros k l' Hk. destruct (Hnamed' k l' Hk) as (s' & Hs' & _). by exists s'.
Qed.

Lemma init_named : named h StateRegistry.init.
Proof. intros k l Hk. simpl in Hk. by rewrite lookup_empty in Hk. Qed.

End registry.

Lemma register_get_witness :
  ∃ registry',
    StateRegistry.register Scenario.store5 Scenario.registry 5%positive
    = Ok registry'
    ∧ StateRegistry.get registry' (State.name Scenario.unnamed) = Some 5%positive
    ∧ ("cancelled" ≠ State.name Scenario.unnamed →
       StateRegistry.get registry' "cancelled"
       = StateRegistry.get Scenario.registry "cancelled")
    ∧ dom (StateRegistry.all_states registry')
      = {[State.name Scenario.unnamed]}
          ∪ dom (StateRegistry.all_states Scenario.registry).
Proof.
  apply (register_get Scenario.store5 Scenario.registry 5%positive
           Scenario.unnamed "cancelled").
  reflexivity.
Defined.

Lemma scenario_registry_named :
  Consistency.named Scenario.store Scenario.registry.
Proof.
  intros k l. unfold Scenario.registry; simpl.
  rewrite !lookup_insert_Some, lookup_empty.
  intros [[<- <-]|[_ [[<- <-]|[_ [[<- <-]|[_ ?]]]]]]; [| | |done].
  - by exists Scenario.new_listing.
  - by exists Scenario.under_contract.
  - by exists Scenario.cancelled.
Qed.

Lemma register_named_witness :
  Consistency.named Scenario.store Scenario.registry
  ∧ Consistency.registry_in_store Scenario.store Scenario.registry.
Proof.
  apply (register_named Scenario.store Scenario.registry Scenario.registry
           3%positive).
  - exact scenario_registry_named.
  - reflexivity.
Defined.

(** ** States through their dictionaries *)

(** [State.to_dict] followed by [State.from_dict] gives the state back
    without its children, which the dictionary does not hold: every other
    field is restored, the parent included when the registry holds it
    under its name and that name is not empty.  A state without children
    comes back as it was. *)
Theorem State_roundtrip (h : State.store) (s : State.t)
    (registry : StateRegistry.t) :
  (∀ p, State.parent s = Some p →
        ∃ parent, h !! p = Some parent ∧ State.name parent ≠ ""
                  ∧ StateRegistry.get registry (State.name parent) = Some p) →
  ∃ data,
    State.to_dict h s = Ok data
    ∧ State.from_dict data (StateRegistry._states registry)
      = Ok (State.set_children [] s)
    ∧ (State.children s = [] →
       State.from_dict data (StateRegistry._states registry) = Ok s).
Proof.
  intros Hparent.
  assert (∃ data,
            State.to_dict h s = Ok data
            ∧ State.from_dict data (StateRegistry._states registry)
              = Ok (State.set_children [] s)) as (data & Hto & Hfrom).
  { unfold State.to_dict, State.deref.
    destruct (State.parent s) as [p|] eqn:Hp.
    - destruct (Hparent p eq_refl) as (parent & Hh & Hname & Hget).
      rewrite Hh. simpl. eexists. split; [reflexivity|].
      rewrite State_from_dict_fields, truthy_name by done. simpl.
      unfold StateRegistry.get in Hget. rewrite Hget. simpl.
      unfold State.rebuilt, State.set_children. by rewrite Hp.
    - simpl. eexists. split; [reflexivity|].
      rewrite State_from_dict_fields. simpl.
      unfold State.rebuilt, State.set_children. by rewrite Hp. }
  exists data. split_and!; [done|done|].
  intros Hchildren. rewrite Hfrom. f_equal.
  destruct s; simpl in *. by subst.
Qed.

Lemma State_roundtrip_witness :
  ∃ data,
    State.to_dict Scenario.tree Scenario.inspection = Ok data
    ∧ State.from_dict data (StateRegistry._states Scenario.tree_registry)
      = Ok (State.set_children [] Scenario.inspection)
    ∧ (State.children Scenario.inspection = [] →
       State.from_dict data (StateRegistry._states Scenario.tree_registry)
       = Ok Scenario.inspection).
Proof.
  apply (State_roundtrip Scenario.tree Scenario.inspection Scenario.tree_registry).
  intros p [= <-]. exists Scenario.escrow. split_and!; [reflexivity|discriminate|reflexivity].
Defined.

(** [State.from_dict] cannot do without [name] and [display_name]: without
    [name] it raises the KeyError of that key.  The state it returns has
    no children; missing [description], [allowed_transitions],
    [task_templates] and [metadata] give the empty string, set, list and
    dictionary; a missing, null or empty [parent] gives no parent, and a
    parent is only ever the state the registry holds under the stored
    name. *)
Theorem State_from_dict_keys (data : dict) (_states : gmap string loc) :
  (dict_lookup "name" data = None →
   State.from_dict data _states = Raise (KeyError "name"))
  ∧ ∀ s, State.from_dict data _states = Ok s →
      is_Some (dict_lookup "name" data)
      ∧ is_Some (dict_lookup "display_name" data)
      ∧ State.children s = []
      ∧ (dict_lookup "description" data = None → State.description s = "")
      ∧ (dict_lookup "allowed_transitions" data = None →
         State.allowed_transitions s = ∅)
      ∧ (dict_lookup "task_templates" data = None → State.task_templates s = [])
      ∧ (dict_lookup "metadata" data = None → State.metadata s = [])
      ∧ (truthy (get data "parent" PNone) = false → State.parent s = None)
      ∧ (∀ p, State.parent s = Some p →
              ∃ parent_name,
                dict_lookup "parent" data = Some (PStr parent_name)
                ∧ _states !! parent_name = Some p).
Proof.
  split.
  { intros Hname. unfold State.from_dict, getitem. by rewrite Hname. }
  intros s. unfold State.from_dict.
  intros (name & Hname & H)%bind_Ok.
  apply bind_Ok in H as (display_name & Hdisplay & H).
  apply bind_Ok in H as (description & Hdescription & H).
  apply bind_Ok in H as (allowed & Hallowed & H).
  apply bind_Ok in H as (task_templates & Htemplates & H).
  apply bind_Ok in H as (metadata & Hmetadata & H).
  cbv zeta in H.
  assert (∃ parent,
            s = State.mk name display_name description parent []
                  (list_to_set allowed) task_templates metadata
            ∧ (truthy (get data "parent" PNone) = false → parent = None)
            ∧ (∀ p, parent = Some p →
                    ∃ parent_name,
                      dict_lookup "parent" data = Some (PStr parent_name)
                      ∧ _states !! parent_name = Some p))
    as (parent & -> & Hfalsy & Hfound).
  { destruct (truthy (get data "parent" PNone)) eqn:Htruthy.
    - apply bind_Ok in H as (found & Hlookup & H).
      exists found. split_and!.
      + destruct found; by injection H as <-.
      + done.
      + intros p ->. unfold get in Hlookup, Htruthy.
        destruct (dict_lookup "parent" data) as [v|]; [|done].
        destruct v as [| | |n| |]; simpl in Hlookup; try done.
        exists n. split; [done|]. by injection Hlookup.
    - exists None. split_and!; [by injection H as <-|done|done]. }
  simpl. split_and!; try done.
  - by eapply getitem_bind_Ok.
  - by eapply getitem_bind_Ok.
  - intros Hnone. rewrite (get_missing _ _ _ Hnone) in Hdescription.
    by simplify_eq/=.
  - intros Hnone. rewrite (get_missing _ _ _ Hnone) in Hallowed.
    by simplify_eq/=.
  - intros Hnone. rewrite (get_missing _ _ _ Hnone) in Htemplates.
    by simplify_eq/=.
  - intros Hnone. rewrite (get_missing _ _ _ Hnone) in Hmetadata.
    by simplify_eq/=.
Qed.

Lemma State_from_dict_keys_witness :
  ∃ s,
    State.from_dict Scenario.minimal_state
      (StateRegistry._states Scenario.registry) = Ok s
    ∧ State.description s = "" ∧ State.allowed_transitions s = ∅
    ∧ State.task_templates s = [] ∧ State.metadata s = []
    ∧ State.parent s = None.
Proof.
  assert (∃ s, State.from_dict Scenario.minimal_state
                 (StateRegistry._states Scenario.registry) = Ok s) as [s Hs]
    by (eexists; reflexivity).
  exists s. split; [exact Hs|].
  destruct (proj2 (State_from_dict_keys Scenario.minimal_state _) s Hs)
    as (_ & _ & _ & Hd & Ha & Ht & Hm & Hp & _).
  split_and!; [apply Hd|apply Ha|apply Ht|apply Hm|apply Hp]; reflexivity.
Defined.

(** ** A validated registry *)

Section validated.
Import Consistency.
Context (h : State.store) (registry : StateRegistry.t).

Lemma validate_loop_in_store (values : list loc) :
  ∀ errors out,
    StateRegistry.validate_loop h registry values errors = Ok out →
    ∀ l, l ∈ values → is_Some (h !! l).
Proof.
  induction values as [|l0 values IH]; intros errors out Hrun l Hin.
  - by apply elem_of_nil in Hin.
  - simpl in Hrun. unfold State.deref in Hrun.
    destruct (h !! l0) as [state|] eqn:Hstate; [|done].
    apply elem_of_cons in Hin as [->|Hin]; [by eexists|].
    by eapply IH.
Qed.

Lemma validated_in_store (errors : list string) :
  StateRegistry.validate_transitions h registry = Ok errors →
  registry_in_store h registry.
Proof.
  intros Hrun k l Hk. eapply validate_loop_in_store; [exact Hrun|].
  apply list_elem_of_fmap. exists (k, l). split; [done|].
  by apply elem_of_map_to_list.
Qed.

Lemma validated_targets (key target_name : string) (l : loc) (state : State.t) :
  StateRegistry.validate_transitions h registry = Ok [] →
  StateRegistry._states registry !! key = Some l →
  h !! l = Some state →
  target_name ∈ State.allowed_transitions state →
  is_Some (StateRegistry._states registry !! target_name).
Proof.
  intros Hrun Hk Hstate Ht.
  pose proof (validated_in_store [] Hrun) as Hstore.
  unfold StateRegistry.validate_transitions in Hrun.
  rewrite validate_loop_spec in Hrun.
  2:{ intros k' l' Hin%elem_of_map_to_list. split; [done|by eapply Hstore]. }
  injection Hrun as Hnil. apply fmap_nil_inv in Hnil.
  destruct (StateRegistry._states registry !! target_name) eqn:Hlook;
    [by eexists|].
  assert ((key, target_name) ∈ undefined_pairs h registry) as Hin.
  { apply elem_of_undefined_pairs. by exists l, state. }
  unfold undefined_pairs in Hin. rewrite Hnil in Hin.
  by apply elem_of_nil in Hin.
Qed.

End validated.

(** When [validate_transitions] has returned no message, a transition
    from a registered current state to any name that state allows finds
    its target: the call raises no ValueError and does not return false.
    It enters the target, and returns true unless a due date of the
    target's templates overflows: it returns true when
    [auto_create_tasks] is false, and whenever no [days_until_due] of the
    target's templates, added to a reading of the clock, leaves the range
    of dates. *)
Theorem validated_transitions_resolve (h : State.store)
    (registry : StateRegistry.t) (self : Transaction.t) (w : World.t)
    (key target notes : string) (auto : bool) (a : loc) (A : State.t) :
  StateRegistry.validate_transitions h registry = Ok [] →
  Transaction._state_registry self = Some registry →
  Transaction.current_state self = Some a →
  StateRegistry.get registry key = Some a →
  h !! a = Some A →
  State.can_transition_to A target = true →
  ∃ b B out self' w',
    StateRegistry.get registry target = Some b
    ∧ h !! b = Some B
    ∧ Transaction.transition_to h target notes auto self w = (out, self', w')
    ∧ (out = Ok true ∨ (auto = true ∧ ∃ msg, out = Raise (OverflowError msg)))
    ∧ Transaction.current_state self' = Some b
    ∧ (auto = false → out = Ok true)
    ∧ ((∀ template days k,
          template ∈ State.task_templates B →
          TaskTemplate.days_until_due template = Some days →
          ∃ due, Datetime.add_days (World.clock w k) days = Ok due) →
       out = Ok true).
Proof.
  intros Hvalid Hreg Hcur Hkey HA Hallowed.
  unfold State.can_transition_to in Hallowed.
  apply bool_decide_eq_true in Hallowed.
  destruct (validated_targets h registry key target a A Hvalid Hkey HA Hallowed)
    as [b Hb].
  destruct (validated_in_store h registry [] Hvalid target b Hb) as [B HB].
  unfold Transaction.transition_to, State.deref, StateRegistry.get.
  rewrite Hreg, Hb, Hcur, HA.
  unfold State.can_transition_to. rewrite bool_decide_eq_true_2 by done.
  destruct (Transaction.enter h _ b target notes auto self w)
    as [[out self'] w'] eqn:Henter.
  exists b, B, out, self', w'.
  destruct (enter_spec h _ b B target notes auto self self' w w' out HB Henter)
    as (_ & Hcurrent & Hout & Hfalse).
  split_and!; try done.
  - intros Hauto. by apply Hfalse.
  - intros Hrange.
    by apply (enter_in_range h (Some (State.name A)) b B target notes auto self
                self' w w' out).
Qed.

Lemma validated_transitions_resolve_witness :
  ∃ b out self' w',
    StateRegistry.get Scenario.registry_full "pending_inspection" = Some b
    ∧ Transaction.transition_to Scenario.store_full "pending_inspection" "" true
        Scenario.contracted Scenario.world = (out, self', w')
    ∧ Transaction.current_state self' = Some b
    ∧ out = Ok true.
Proof.
  destruct (validated_transitions_resolve Scenario.store_full
              Scenario.registry_full Scenario.contracted Scenario.world
              "under_contract" "pending_inspection" "" true 2%positive
              Scenario.under_contract eq_refl eq_refl eq_refl eq_refl eq_refl
              eq_refl)
    as (b & B & out & self' & w' & Hget & HB & Hrun & _ & Hcur & _ & Hrange).
  exists b, out, self', w'. split_and!; [exact Hget|exact Hrun|exact Hcur|].
  apply Hrange. intros template days k Hin Hdays.
  assert (B = Scenario.pending_inspection) as ->.
  { change (Some 4%positive = Some b) in Hget. injection Hget as <-.
    change (Some Scenario.pending_inspection = Some B) in HB.
    by injection HB as <-. }
  apply elem_of_cons in Hin as [->|Hin]; [injection Hdays as <-; by eexists|].
  apply elem_of_cons in Hin as [->|Hin%elem_of_nil]; [|done].
  discriminate Hdays.
Defined.

(** ** The tasks of a transaction *)

(** [add_task] returns the task's own identifier and files the task under
    it: [get_task] then finds it, every other identifier leads where it
    led, and the number of tasks grows by one exactly when the identifier
    was new (a task already filed under it is replaced). *)
Theorem add_task_get_task (task : Task.t) (self : Transaction.t) (other : UUID.t) :
  (Transaction.add_task task self).1 = Task.id task
  ∧ Transaction.get_task (Transaction.add_task task self).2 (Task.id task)
    = Some task
  ∧ (other ≠ Task.id task →
     Transaction.get_task (Transaction.add_task task self).2 other
     = Transaction.get_task self other)
  ∧ (Transaction.get_task self (Task.id task) = None →
     size (Transaction.tasks (Transaction.add_task task self).2)
     = S (size (Transaction.tasks self)))
  ∧ (is_Some (Transaction.get_task self (Task.id task)) →
     size (Transaction.tasks (Transaction.add_task task self).2)
     = size (Transaction.tasks self)).
Proof.
  unfold Transaction.add_task, Transaction.get_task. simpl. split_and!.
  - done.
  - apply lookup_insert_eq.
  - intros Hne. by apply lookup_insert_ne.
  - apply map_size_insert_None.
  - apply map_size_insert_Some.
Qed.

Lemma add_task_get_task_witness :
  size (Transaction.tasks (Transaction.add_task Scenario.pending_task
                             Scenario.listed).2)
  = S (size (Transaction.tasks Scenario.listed)).
Proof.
  apply (add_task_get_task Scenario.pending_task Scenario.listed (UUID.mk 0)).
  reflexivity.
Defined.

Section queries.
Context (self : Transaction.t).

Lemma elem_of_values (task : Task.t) :
  task ∈ (map_to_list (Transaction.tasks self)).*2
  ↔ ∃ id, Transaction.tasks self !! id = Some task.
Proof.
  rewrite list_elem_of_fmap. split.
  - intros ([id t] & -> & Hin%elem_of_map_to_list). by exists id.
  - intros [id Hid]. exists (id, task). split; [done|].
    by apply elem_of_map_to_list.
Qed.

Lemma elem_of_get_tasks_by_status (status : TaskStatus.t) (task : Task.t) :
  task ∈ Transaction.get_tasks_by_status self status
  ↔ (∃ id, Transaction.tasks self !! id = Some task) ∧ Task.status task = status.
Proof.
  unfold Transaction.get_tasks_by_status.
  rewrite list_elem_of_filter, elem_of_values. tauto.
Qed.

Lemma elem_of_get_pending_tasks (task : Task.t) :
  task ∈ Transaction.get_pending_tasks self
  ↔ (∃ id, Transaction.tasks self !! id = Some task)
    ∧ Task.status task = PENDING
    ∧ ∀ dep_id dep_task,
        dep_id ∈ Task.dependencies task →
        Transaction.tasks self !! dep_id = Some dep_task →
        Task.status dep_task = COMPLETED.
Proof.
  unfold Transaction.get_pending_tasks.
  rewrite list_elem_of_filter, elem_of_values.
  unfold Task.can_start, Task.is_blocked_by_dependencies.
  rewrite negb_true_iff, <- not_true_iff_false, blocked_loop_true.
  split.
  - intros [[Hp Hno] Hin]. split_and!; [done|done|].
    intros dep_id dep_task Hdep Hlook.
    destruct (decide (Task.status dep_task = COMPLETED)) as [|Hne]; [done|].
    destruct Hno. by exists dep_id, dep_task.
  - intros (Hin & Hp & Hall). split_and!; [done| |done].
    intros (dep_id & dep_task & Hdep & Hlook & Hne).
    by apply Hne, (Hall dep_id dep_task).
Qed.

Lemma status_partition (l : list Task.t) :
  length (filter (λ task, Task.status task = PENDING) l)
  + length (filter (λ task, Task.status task = IN_PROGRESS) l)
  + length (filter (λ task, Task.status task = COMPLETED) l)
  + length (filter (λ task, Task.status task = BLOCKED) l)
  = length l.
Proof.
  induction l as [|task l IH]; [done|].
  rewrite !filter_cons.
  destruct (Task.status task); simpl; lia.
Qed.

End queries.

(** [get_tasks_by_status] returns the tasks of the transaction that have
    the status, and no other; the four statuses divide the tasks: the
    lengths of the four lists add up to the number of tasks.  (The order
    within a list is that of the dictionary, which the map of the model
    does not keep.) *)
Theorem get_tasks_by_status_spec (self : Transaction.t) :
  (∀ status task,
     task ∈ Transaction.get_tasks_by_status self status
     ↔ (∃ id, Transaction.tasks self !! id = Some task)
       ∧ Task.status task = status)
  ∧ length (Transaction.get_tasks_by_status self PENDING)
    + length (Transaction.get_tasks_by_status self IN_PROGRESS)
    + length (Transaction.get_tasks_by_status self COMPLETED)
    + length (Transaction.get_tasks_by_status self BLOCKED)
    = size (Transaction.tasks self).
Proof.
  split; [apply elem_of_get_tasks_by_status|].
  unfold Transaction.get_tasks_by_status.
  by rewrite status_partition, length_fmap, length_map_to_list.
Qed.

(** [get_pending_tasks] returns exactly the PENDING tasks of the
    transaction all of whose dependencies that are tasks of the
    transaction are COMPLETED; a dependency on an identifier the
    transaction does not hold never keeps a task back.  Every task it
    returns is one [get_tasks_by_status] returns for PENDING, and a task
    that lists its own identifier as a dependency is never returned. *)
Theorem get_pending_tasks_spec (self : Transaction.t) (task : Task.t) :
  (task ∈ Transaction.get_pending_tasks self
   ↔ (∃ id, Transaction.tasks self !! id = Some task)
     ∧ Task.status task = PENDING
     ∧ ∀ dep_id dep_task,
         dep_id ∈ Task.dependencies task →
         Transaction.tasks self !! dep_id = Some dep_task →
         Task.status dep_task = COMPLETED)
  ∧ (task ∈ Transaction.get_pending_tasks self →
     task ∈ Transaction.get_tasks_by_status self PENDING)
  ∧ (∀ id, Transaction.tasks self !! id = Some task →
           id ∈ Task.dependencies task →
           task ∉ Transaction.get_pending_tasks self).
Proof.
  split_and!.
  - apply elem_of_get_pending_tasks.
  - rewrite elem_of_get_pending_tasks, elem_of_get_tasks_by_status. tauto.
  - intros id Hid Hself (_ & Hp & Hall)%elem_of_get_pending_tasks.
    specialize (Hall id task Hself Hid). congruence.
Qed.

Lemma get_pending_tasks_spec_witness :
  ∃ inspect repair,
    Transaction.tasks Scenario.inspecting !! UUID.mk 256 = Some inspect
    ∧ Transaction.tasks Scenario.inspecting !! UUID.mk 257 = Some repair
    ∧ inspect ∈ Transaction.get_tasks_by_status Scenario.inspecting PENDING
    ∧ repair ∉ Transaction.get_pending_tasks Scenario.inspecting.
Proof.
  eexists _, _. split; [reflexivity|]. split; [reflexivity|]. split.
  - apply (proj1 (proj2 (get_pending_tasks_spec Scenario.inspecting _))).
    apply (proj2 (proj1 (get_pending_tasks_spec Scenario.inspecting _))).
    split_and!; [by exists (UUID.mk 256)|reflexivity|].
    intros dep_id dep_task Hin. change (dep_id ∈ []) in Hin.
    by apply elem_of_nil in Hin.
  - intros Hin.
    apply (proj1 (get_pending_tasks_spec Scenario.inspecting _)) in Hin
      as (_ & _ & Hall).
    assert (UUID.mk 256 ∈ [UUID.mk 256]) as Hdep by (by left).
    specialize (Hall (UUID.mk 256) _ Hdep eq_refl). discriminate Hall.
Defined.

(** ** Which new tasks can start *)

(** After template expansion, with distinct titles and distinct generated
    identifiers, every task of the batch is PENDING, and the task made
    from a template is among [get_pending_tasks] exactly when none of the
    template's dependency names is the title of a template of the batch:
    a name of the batch holds the task back until the task it names is
    completed, any other name has no effect. *)
Theorem expansion_readiness (state : State.t) (self self' : Transaction.t)
    (w w' : World.t) :
  let templates := State.task_templates state in
  let ids := Expansion.batch_ids w (length templates) in
  NoDup (TaskTemplate.title <$> templates) →
  NoDup ids →
  Transaction._create_tasks_from_templates state self w = (Ok (), self', w') →
  ∀ i template id,
    templates !! i = Some template → ids !! i = Some id →
    ∃ task,
      Transaction.tasks self' !! id = Some task
      ∧ Task.status task = PENDING
      ∧ (task ∈ Transaction.get_pending_tasks self'
         ↔ ∀ name, name ∈ TaskTemplate.dependencies template →
                   name ∉ TaskTemplate.title <$> templates).
Proof.
  intros templates ids Hndt Hndi Hrun i template id Hi Hid.
  apply create_tasks_ok in Hrun as (created & Hids & Hall & Hnodeps & _ & ->).
  fold templates in Hids, Hall. fold ids in Hids. rewrite <- Hids in Hndi, Hid.
  pose proof (Forall2_length _ _ _ Hall) as Hlen. symmetry in Hlen.
  rewrite list_lookup_fmap in Hid.
  destruct (created !! i) as [task0|] eqn:Hci; [|done]. injection Hid as <-.
  assert (Task.dependencies task0 = []) as Hnd0.
  { eapply (proj1 (Forall_forall _ _) Hnodeps). by eapply list_elem_of_lookup_2. }
  pose proof (final_lookup_wired templates created (Transaction.tasks self) Hlen
                i template task0 Hndt Hndi Hi Hci Hnd0) as Hfinal.
  pose proof (Forall2_lookup_lr _ _ _ _ _ _ Hall Hi Hci)
    as (_ & _ & _ & _ & Hstatus & _).
  eexists. split; [exact Hfinal|]. split; [exact Hstatus|].
  rewrite elem_of_get_pending_tasks. simpl. split.
  - intros (_ & _ & Hdeps) name Hname Htitle.
    apply list_elem_of_fmap in Htitle as (template_j & -> & Hj).
    apply list_elem_of_lookup in Hj as [j Hj].
    destruct (lookup_lt_is_Some_2 created j) as [task_j Hcj].
    { rewrite Hlen. by eapply lookup_lt_Some. }
    pose proof (recorded_title templates created Hlen j template_j Hndt Hj)
      as Hrec.
    rewrite list_lookup_fmap, Hcj in Hrec. simpl in Hrec.
    destruct (final_lookup_created templates created (Transaction.tasks self)
                j task_j Hndi Hcj) as [ds Hds].
    pose proof (Forall2_lookup_lr _ _ _ _ _ _ Hall Hj Hcj)
      as (_ & _ & _ & _ & Hstatus_j & _).
    assert (Task.status (Task.set_dependencies ds task_j) = COMPLETED) as Hc.
    { apply (Hdeps (Task.id task_j)); [|exact Hds].
      apply list_elem_of_omap. by exists (TaskTemplate.title template_j). }
    simpl in Hc. congruence.
  - intros Hnone. split_and!.
    + by exists (Task.id task0).
    + done.
    + intros dep_id dep_task Hdep _. exfalso.
      apply list_elem_of_omap in Hdep as (name & Hname & Hrec).
      rewrite (unknown_title templates created Hlen name) in Hrec; [done|].
      by apply Hnone.
Qed.

Lemma expansion_readiness_witness :
  let run :=
    Transaction._create_tasks_from_templates Scenario.pending_inspection
      Scenario.listed Scenario.world in
  ∃ task,
    Transaction.tasks run.1.2 !! UUID.mk 257 = Some task
    ∧ Task.status task = PENDING
    ∧ (task ∈ Transaction.get_pending_tasks run.1.2
       ↔ ∀ name, name ∈ TaskTemplate.dependencies Scenario.repair →
                 name ∉ TaskTemplate.title
                          <$> State.task_templates Scenario.pending_inspection).
Proof.
  intros run.
  assert (run.1.1 = Ok ()) as Hok by (vm_compute; reflexivity).
  apply (expansion_readiness Scenario.pending_inspection Scenario.listed run.1.2
           Scenario.world run.2) with (i := 1%nat).
  - cbv zeta. apply (bool_decide_unpack _). vm_compute. reflexivity.
  - cbv zeta. apply (bool_decide_unpack _). vm_compute. reflexivity.
  - rewrite <- Hok. subst run.
    by destruct (Transaction._create_tasks_from_templates _ _ _) as [[? ?] ?].
  - reflexivity.
  - reflexivity.
Defined.

(** ** Every outcome of a transition *)

Section any_outcome.
Context (h : State.store).

Lemma instantiate_world (template : TaskTemplate.t) (w w1 : World.t)
    (r : result Task.t) :
  Transaction.instantiate template w = (r, w1) →
  World.uuid_calls w1 = S (World.uuid_calls w)
  ∧ World.clock_calls w < World.clock_calls w1.
Proof.
  unfold Transaction.instantiate, Task.create, World.uuid4, World.now.
  destruct (TaskTemplate.days_until_due template) as [days|]; simpl.
  - destruct (Datetime.add_days _ days); intros [= <- <-]; simpl; lia.
  - intros [= <- <-]; simpl; lia.
Qed.

Lemma instantiate_loop_grows (templates : list TaskTemplate.t) :
  ∀ t2t self w r self' w',
    Transaction.instantiate_loop templates t2t self w = (r, self', w') →
    dom (Transaction.tasks self) ⊆ dom (Transaction.tasks self')
    ∧ World.uuid_calls w ≤ World.uuid_calls w'
    ∧ World.clock_calls w ≤ World.clock_calls w'.
Proof.
  induction templates as [|template templates IH]; intros t2t self w r self' w';
    simpl.
  - by intros [= <- <- <-].
  - destruct (Transaction.instantiate template w) as [[task|e] w1] eqn:Hinst;
      apply instantiate_world in Hinst as [Hu Hc].
    + intros (Hdom & Hu' & Hc')%IH. simpl in Hdom.
      split_and!; [|lia|lia].
      etrans; [|exact Hdom]. rewrite dom_insert_L. set_solver.
    + intros [= <- <- <-]. split_and!; [done|lia|lia].
Qed.

Lemma create_tasks_grows (state : State.t) (self self' : Transaction.t)
    (w w' : World.t) (out : result unit) :
  Transaction._create_tasks_from_templates state self w = (out, self', w') →
  dom (Transaction.tasks self) ⊆ dom (Transaction.tasks self')
  ∧ World.uuid_calls w ≤ World.uuid_calls w'
  ∧ World.clock_calls w ≤ World.clock_calls w'.
Proof.
  rewrite create_tasks_run.
  destruct (Transaction.instantiate_loop _ _ _ _) as [[[t2t|e] self1] w1] eqn:Hloop;
    apply instantiate_loop_grows in Hloop as (Hdom & Hu & Hc);
    intros [= <- <- <-]; [|done].
  simpl. by rewrite wire_all_dom.
Qed.

Lemma create_tasks_no_templates (state : State.t) (self : Transaction.t)
    (w : World.t) :
  State.task_templates state = [] →
  Transaction._create_tasks_from_templates state self w = (Ok (), self, w).
Proof.
  intros Hnil. unfold Transaction._create_tasks_from_templates.
  by rewrite Hnil.
Qed.

(** What [enter] makes of the transaction, whatever its outcome. *)
Lemma enter_shape (from : option string) (l : loc) (target notes : string)
    (auto : bool) (self self' : Transaction.t) (w w' : World.t)
    (out : result bool) :
  Transaction.enter h from l target notes auto self w = (out, self', w') →
  out ≠ Ok false
  ∧ (∃ ts,
       self' = Transaction.set_tasks ts
                 (Transaction.set_current_state (Some l)
                    (Transaction.set_state_history
                       (Transaction.state_history self
                          ++ [StateTransition.mk
                                (World.clock w (World.clock_calls w)) from target
                                notes []]) self))
       ∧ dom (Transaction.tasks self) ⊆ dom ts
       ∧ (auto = false → ts = Transaction.tasks self))
  ∧ World.uuid_calls w ≤ World.uuid_calls w'
  ∧ World.clock_calls w < World.clock_calls w'
  ∧ (auto = false →
     out = Ok true ∧ World.uuid_calls w' = World.uuid_calls w
     ∧ World.clock_calls w' = S (World.clock_calls w)).
Proof.
  rewrite enter_unfold. cbv zeta. destruct auto.
  - destruct (State.deref h l) as [state|e].
    + destruct (Transaction._create_tasks_from_templates _ _ _)
        as [[r s] w2] eqn:Hrun.
      pose proof (create_tasks_outcome _ _ _ _ _ _ Hrun) as [_ [ts Hts]].
      pose proof (create_tasks_grows _ _ _ _ _ _ Hrun) as (Hdom & Hu & Hc).
      subst s. simpl in Hdom, Hu, Hc.
      destruct r as [[]|e]; intros [= <- <- <-];
        (split_and!; [done| |lia|lia|done]); by exists ts.
    + intros [= <- <- <-]. split_and!; [done| |simpl; lia|simpl; lia|done].
      exists (Transaction.tasks self). by split_and!.
  - intros [= <- <- <-]. split_and!; [done| |simpl; lia|simpl; lia|done].
    exists (Transaction.tasks self). by split_and!.
Qed.

(** The two ways a call of [transition_to] can go: nothing is written, or
    the target is entered. *)
Lemma transition_to_shape (target notes : string) (auto : bool)
    (self self' : Transaction.t) (w w' : World.t) (out : result bool) :
  Transaction.transition_to h target notes auto self w = (out, self', w') →
  (self' = self ∧ w' = w ∧ out ≠ Ok true
   ∧ ∀ msg, out ≠ Raise (OverflowError msg))
  ∨ ∃ registry b from,
      Transaction._state_registry self = Some registry
      ∧ StateRegistry.get registry target = Some b
      ∧ match Transaction.current_state self with
        | Some c => ∃ cur, h !! c = Some cur ∧ from = Some (State.name cur)
        | None => from = None
        end
      ∧ Transaction.enter h from b target notes auto self w = (out, self', w').
Proof.
  unfold Transaction.transition_to.
  destruct (Transaction._state_registry self) as [registry|] eqn:Hreg;
    [|intros [= <- <- <-]; left; by split_and!].
  destruct (StateRegistry.get registry target) as [b|] eqn:Hget;
    [|intros [= <- <- <-]; left; by split_and!].
  destruct (Transaction.current_state self) as [c|] eqn:Hc.
  - unfold State.deref. destruct (h !! c) as [cur|] eqn:Hcur;
      [|intros [= <- <- <-]; left; by split_and!].
    destruct (State.can_transition_to cur target);
      [|intros [= <- <- <-]; left; by split_and!].
    intros Henter. right. exists registry, b, (Some (State.name cur)).
    split_and!; [done|done| |done]. by exists cur.
  - intros Henter. right. by exists registry, b, None.
Qed.

End any_outcome.

(** However a call of [transition_to] ends (true, false or an error), it
    takes nothing away: the history it leaves starts with the history it
    found and is at most one entry longer, every task identifier is still
    there, and the identifier, address, metadata, creation time and
    registry of the transaction are the ones before the call.  When it
    returns true the history is exactly one entry longer, the new entry
    naming the target and carrying the notes; when it returns false the
    transaction and the world are untouched. *)
Theorem transition_takes_nothing_away (h : State.store) (target notes : string)
    (auto : bool) (self self' : Transaction.t) (w w' : World.t)
    (out : result bool) :
  Transaction.transition_to h target notes auto self w = (out, self', w') →
  Transaction.state_history self `prefix_of` Transaction.state_history self'
  ∧ length (Transaction.state_history self')
    ≤ S (length (Transaction.state_history self))
  ∧ dom (Transaction.tasks self) ⊆ dom (Transaction.tasks self')
  ∧ Transaction.id self' = Transaction.id self
  ∧ Transaction.property_address self' = Transaction.property_address self
  ∧ Transaction.property_metadata self' = Transaction.property_metadata self
  ∧ Transaction.created_at self' = Transaction.created_at self
  ∧ Transaction.metadata self' = Transaction.metadata self
  ∧ Transaction._state_registry self' = Transaction._state_registry self
  ∧ World.uuid_calls w ≤ World.uuid_calls w'
  ∧ World.clock_calls w ≤ World.clock_calls w'
  ∧ (out = Ok true →
     ∃ from,
       Transaction.state_history self'
       = Transaction.state_history self
           ++ [StateTransition.mk (World.clock w (World.clock_calls w)) from
                 target notes []])
  ∧ (out = Ok false → self' = self ∧ w' = w).
Proof.
  intros [(-> & -> & Hout & _)|(registry & b & from & Hreg & Hget & _ & Henter)]
    %transition_to_shape.
  - split_and!; try done; try lia; by intros ->.
  - apply enter_shape in Henter
      as (Hout & (ts & -> & Hdom & _) & Hu & Hc & _).
    simpl. split_and!; try done; try lia.
    + by apply prefix_app_r.
    + rewrite length_app. simpl. lia.
    + intros _. by exists from.
Qed.

Lemma transition_takes_nothing_away_witness :
  let run :=
    Transaction.transition_to Scenario.store4 "archived" "" true Scenario.fresh4
      Scenario.world in
  (∃ msg, run.1.1 = Raise (OverflowError msg))
  ∧ Transaction.state_history Scenario.fresh4
      `prefix_of` Transaction.state_history run.1.2
  ∧ dom (Transaction.tasks Scenario.fresh4) ⊆ dom (Transaction.tasks run.1.2)
  ∧ Transaction._state_registry run.1.2
    = Transaction._state_registry Scenario.fresh4.
Proof.
  intros run.
  destruct (transition_takes_nothing_away Scenario.store4 "archived" "" true
              Scenario.fresh4 run.1.2 Scenario.world run.2 run.1.1)
    as (Hprefix & _ & Hdom & _ & _ & _ & _ & _ & Hreg & _).
  { subst run. by destruct (Transaction.transition_to _ _ _ _ _ _) as [[? ?] ?]. }
  split_and!; [|done|done|done].
  eexists. vm_compute. reflexivity.
Defined.

(** A transition that creates no tasks, because [auto_create_tasks] is
    false or because the target state has no templates, leaves [tasks] as
    it was, makes no call of [uuid4()] and cannot fail on a due date; when
    it enters the target it reads the clock once, for the timestamp of
    the transition. *)
Theorem transition_without_tasks (h : State.store) (target notes : string)
    (auto : bool) (self self' : Transaction.t) (w w' : World.t)
    (registry : StateRegistry.t) (b : loc) (B : State.t) (out : result bool) :
  Transaction._state_registry self = Some registry →
  StateRegistry.get registry target = Some b →
  h !! b = Some B →
  auto = false ∨ State.task_templates B = [] →
  Transaction.transition_to h target notes auto self w = (out, self', w') →
  Transaction.tasks self' = Transaction.tasks self
  ∧ World.uuid_calls w' = World.uuid_calls w
  ∧ (∀ msg, out ≠ Raise (OverflowError msg))
  ∧ (out = Ok true → World.clock_calls w' = S (World.clock_calls w)).
Proof.
  intros Hreg Hget HB Hno
    [(-> & -> & Hout & Hover)
    |(registry' & b' & from & Hreg' & Hget' & Hfrom & Henter)]
    %transition_to_shape.
  { by split_and!. }
  rewrite Hreg in Hreg'. injection Hreg' as <-.
  rewrite Hget in Hget'. injection Hget' as <-.
  destruct Hno as [->|Hnil].
  - apply enter_shape in Henter as (_ & (ts & -> & _ & Hts) & _ & _ & Hfalse).
    destruct (Hfalse eq_refl) as (-> & Hu & Hc).
    rewrite (Hts eq_refl). by split_and!.
  - rewrite enter_unfold in Henter. cbv zeta in Henter.
    unfold State.deref in Henter. rewrite HB in Henter.
    destruct auto.
    + rewrite (create_tasks_no_templates B _ _ Hnil) in Henter.
      injection Henter as <- <- <-. by split_and!.
    + injection Henter as <- <- <-. by split_and!.
Qed.

Lemma transition_without_tasks_witness :
  let run :=
    Transaction.transition_to Scenario.store "under_contract" "" false
      Scenario.listed Scenario.world in
  Transaction.tasks run.1.2 = Transaction.tasks Scenario.listed
  ∧ World.uuid_calls run.2 = World.uuid_calls Scenario.world
  ∧ (∀ msg, run.1.1 ≠ Raise (OverflowError msg))
  ∧ (run.1.1 = Ok true →
     World.clock_calls run.2 = S (World.clock_calls Scenario.world)).
Proof.
  intros run.
  apply (transition_without_tasks Scenario.store "under_contract" "" false
           Scenario.listed run.1.2 Scenario.world run.2 Scenario.registry
           2%positive Scenario.under_contract run.1.1);
    [reflexivity|reflexivity|reflexivity|by left|].
  subst run. by destruct (Transaction.transition_to _ _ _ _ _ _) as [[? ?] ?].
Defined.

(** ** The history as a chain *)

Section audit.
Import Audit.

Lemma chained_snoc (history : list StateTransition.t) (tr : StateTransition.t) :
  chained history →
  (history = [] → StateTransition.from_state tr = None) →
  (∀ final, last history = Some final →
            StateTransition.from_state tr
            = Some (StateTransition.to_state final)) →
  chained (history ++ [tr]).
Proof.
  intros [Hhead Hstep] Hempty Hlast. split.
  - intros first. destruct history as [|x history]; simpl; intros [= <-].
    + by apply Hempty.
    + by apply Hhead.
  - intros i before after Hb Ha.
    pose proof (lookup_lt_Some _ _ _ Ha) as Hlt.
    rewrite length_app in Hlt. simpl in Hlt.
    destruct (decide (S i < length history)) as [Hin|Hout].
    + rewrite lookup_app_l in Hb by lia. rewrite lookup_app_l in Ha by lia.
      by eapply Hstep.
    + assert (S i = length history) as Hi by lia.
      rewrite lookup_app_l in Hb by lia. rewrite lookup_app_r in Ha by lia.
      rewrite Hi, Nat.sub_diag in Ha. injection Ha as <-.
      apply Hlast. rewrite last_lookup, <- Hi. exact Hb.
Qed.

Lemma chained_nil : chained [].
Proof. split; [done|]. intros i before after Hb. by destruct i. Qed.

End audit.

(** The history of a transaction is a chain that ends at the current
    state, and [transition_to] keeps it one, however the call ends: the
    first transition starts from no state, every later one starts from
    the state the one before it led to, and the last one leads to the
    current state.  This holds when every state is registered under its
    own name, as [register] files it. *)
Theorem transition_keeps_history_chained (h : State.store)
    (target notes : string) (auto : bool) (self self' : Transaction.t)
    (w w' : World.t) (out : result bool) :
  (∀ registry, Transaction._state_registry self = Some registry →
               Consistency.named h registry) →
  Audit.chained (Transaction.state_history self) →
  Audit.tracks h self →
  Transaction.transition_to h target notes auto self w = (out, self', w') →
  Audit.chained (Transaction.state_history self') ∧ Audit.tracks h self'.
Proof.
  intros Hnamed Hchained Htracks
    [(-> & -> & _)|(registry & b & from & Hreg & Hget & Hfrom & Henter)]
    %transition_to_shape; [done|].
  apply enter_shape in Henter as (_ & (ts & -> & _) & _).
  destruct (Hnamed registry Hreg target b Hget) as (B & HB & Hname).
  unfold Audit.tracks in *. simpl. split.
  - apply chained_snoc; [done| |].
    + intros Hnil. simpl.
      destruct (Transaction.current_state self) as [c|]; [|done].
      destruct Htracks as (final & _ & Hlast & _). by rewrite Hnil in Hlast.
    + intros final Hlast. simpl.
      destruct (Transaction.current_state self) as [c|].
      * destruct Htracks as (final' & s & Hlast' & Hs & Hto).
        destruct Hfrom as (cur & Hcur & ->). congruence.
      * by rewrite Htracks in Hlast.
  - eexists _, B. by rewrite last_snoc.
Qed.

Lemma transition_keeps_history_chained_witness :
  let run :=
    Transaction.transition_to Scenario.store "under_contract" "" true
      Scenario.listed Scenario.world in
  Audit.chained (Transaction.state_history run.1.2)
  ∧ Audit.tracks Scenario.store run.1.2.
Proof.
  intros run.
  apply (transition_keeps_history_chained Scenario.store "under_contract" "" true
           Scenario.listed run.1.2 Scenario.world run.2 run.1.1).
  - intros registry [= <-]. exact scenario_registry_named.
  - apply (chained_snoc [] _ chained_nil); [done|]. by intros final.
  - by exists (StateTransition.mk Scenario.start None "new_listing" "" []),
              Scenario.new_listing.
  - subst run. by destruct (Transaction.transition_to _ _ _ _ _ _) as [[? ?] ?].
Defined.

(** ** The path of the current state *)

Lemma scenario_tree_named :
  Consistency.named Scenario.tree Scenario.tree_registry.
Proof.
  intros k l. unfold Scenario.tree_registry; simpl.
  rewrite !lookup_insert_Some, lookup_empty.
  intros [[<- <-]|[_ [[<- <-]|[_ [[<- <-]|[_ ?]]]]]]; [| | |done].
  - by exists Scenario.active.
  - by exists Scenario.escrow.
  - by exists Scenario.inspection.
Qed.

(** [get_state_path] is the empty list while the transaction has no
    current state.  After a call of [transition_to] that returned true it
    is the path of the state registered under the target name: the one
    name when that state has no parent, and in general (the parent chain
    being acyclic) the names from the root down, ending with the target
    name. *)
Theorem state_path_after_transition (h : State.store) (target notes : string)
    (auto : bool) (self self' : Transaction.t) (w w' : World.t)
    (registry : StateRegistry.t) :
  Consistency.named h registry →
  Transaction._state_registry self = Some registry →
  Transaction.transition_to h target notes auto self w = (Ok true, self', w') →
  (Transaction.current_state self = None →
   ∀ fuel, Transaction.get_state_path h fuel self = Some (Ok []))
  ∧ ∃ b B,
      StateRegistry.get registry target = Some b
      ∧ Transaction.current_state self' = Some b
      ∧ h !! b = Some B
      ∧ (State.parent B = None →
         ∀ fuel, Transaction.get_state_path h (S fuel) self' = Some (Ok [target]))
      ∧ (Hierarchy.closed h → Hierarchy.acyclic h b →
         ∃ path,
           (∀ fuel, size h ≤ fuel →
                    Transaction.get_state_path h fuel self' = Some (Ok path))
           ∧ Hierarchy.root_path h b path
           ∧ last path = Some target).
Proof.
  intros Hnamed Hreg
    [(_ & _ & Hout & _)|(registry' & b & from & Hreg' & Hget & _ & Henter)]
    %transition_to_shape; [done|].
  rewrite Hreg in Hreg'. injection Hreg' as <-.
  apply enter_shape in Henter as (_ & (ts & -> & _) & _).
  destruct (Hnamed target b Hget) as (B & HB & Hname).
  split.
  { intros Hnone fuel. unfold Transaction.get_state_path. by rewrite Hnone. }
  exists b, B. unfold Transaction.get_state_path, State.get_full_path. simpl.
  split_and!; [done|done|done| |].
  - intros Hroot fuel. simpl. unfold State.deref. rewrite HB, Hroot, Hname.
    by destruct fuel.
  - intros Hclosed Hac.
    destruct (root_path_bounded h Hclosed (size h) (dom h) b)
      as (path & Hpath & Hlen); [by rewrite size_dom|by eexists| |done|].
    { intros i x Hi. apply elem_of_dom. by eapply nth_parent_in_store. }
    exists path. split_and!; [|done|].
    + intros fuel Hfuel.
      rewrite (get_full_path_loop_root_path h b path Hpath) by lia.
      by rewrite app_nil_r.
    + rewrite <- Hname. by eapply root_path_last.
Qed.

Lemma state_path_after_transition_witness :
  let run :=
    Transaction.transition_to Scenario.tree "inspection" "" true
      Scenario.fresh_tree Scenario.world in
  (Transaction.current_state Scenario.fresh_tree = None →
   ∀ fuel, Transaction.get_state_path Scenario.tree fuel Scenario.fresh_tree
           = Some (Ok []))
  ∧ ∃ b B,
      StateRegistry.get Scenario.tree_registry "inspection" = Some b
      ∧ Transaction.current_state run.1.2 = Some b
      ∧ Scenario.tree !! b = Some B
      ∧ (State.parent B = None →
         ∀ fuel, Transaction.get_state_path Scenario.tree (S fuel) run.1.2
                 = Some (Ok ["inspection"]))
      ∧ (Hierarchy.closed Scenario.tree → Hierarchy.acyclic Scenario.tree b →
         ∃ path,
           (∀ fuel, size Scenario.tree ≤ fuel →
                    Transaction.get_state_path Scenario.tree fuel run.1.2
                    = Some (Ok path))
           ∧ Hierarchy.root_path Scenario.tree b path
           ∧ last path = Some "inspection").
Proof.
  intros run.
  apply (state_path_after_transition Scenario.tree "inspection" "" true
           Scenario.fresh_tree run.1.2 Scenario.world run.2
           Scenario.tree_registry).
  - exact scenario_tree_named.
  - reflexivity.
  - assert (run.1.1 = Ok true) as Hok by (vm_compute; reflexivity).
    rewrite <- Hok. subst run.
    by destruct (Transaction.transition_to _ _ _ _ _ _) as [[? ?] ?].
Defined.

Example state_path_tree :
  Transaction.get_state_path Scenario.tree 3
    (Transaction.transition_to Scenario.tree "inspection" "" true
       Scenario.fresh_tree Scenario.world).1.2
  = Some (Ok ["active"; "escrow"; "inspection"]).
Proof. reflexivity. Qed.

(** ** Transactions read from dictionaries *)

(** [Transaction.from_dict] cannot do without [id], [property_address]
    and [created_at]: without [id] it raises the KeyError of that key.
    The transaction it returns has the supplied registry attached;
    missing [state_history], [tasks], [property_metadata] and [metadata]
    give the empty list, map and dictionaries; a missing, null or empty
    [current_state] gives no current state, and a current state is only
    ever the state the registry holds under the stored name. *)
Theorem Transaction_from_dict_keys (data : dict) (registry : StateRegistry.t) :
  (dict_lookup "id" data = None →
   Transaction.from_dict data registry = Raise (KeyError "id"))
  ∧ ∀ x, Transaction.from_dict data registry = Ok x →
      Forall (λ k, is_Some (dict_lookup k data))
             ["id"; "property_address"; "created_at"]
      ∧ Transaction._state_registry x = Some registry
      ∧ (dict_lookup "state_history" data = None →
         Transaction.state_history x = [])
      ∧ (dict_lookup "tasks" data = None → Transaction.tasks x = ∅)
      ∧ (dict_lookup "property_metadata" data = None →
         Transaction.property_metadata x = [])
      ∧ (dict_lookup "metadata" data = None → Transaction.metadata x = [])
      ∧ (truthy (get data "current_state" PNone) = false →
         Transaction.current_state x = None)
      ∧ (∀ c, Transaction.current_state x = Some c →
              ∃ name,
                dict_lookup "current_state" data = Some (PStr name)
                ∧ StateRegistry.get registry name = Some c).
Proof.
  split.
  { intros Hid. unfold Transaction.from_dict, getitem. by rewrite Hid. }
  intros x. unfold Transaction.from_dict.
  intros (id & Hid & H)%bind_Ok.
  apply bind_Ok in H as (property_address & Haddress & H).
  apply bind_Ok in H as (state_history & Hhistory & H).
  apply bind_Ok in H as (tasks & Htasks & H).
  apply bind_Ok in H as (property_metadata & Hpm & H).
  apply bind_Ok in H as (created_at & Hcreated & H).
  apply bind_Ok in H as (metadata & Hmetadata & H).
  cbv zeta in H.
  assert (∃ current,
            x = Transaction.mk id property_address current state_history tasks
                  property_metadata created_at metadata (Some registry)
            ∧ (truthy (get data "current_state" PNone) = false → current = None)
            ∧ (∀ c, current = Some c →
                    ∃ name,
                      dict_lookup "current_state" data = Some (PStr name)
                      ∧ StateRegistry.get registry name = Some c))
    as (current & -> & Hfalsy & Hfound).
  { destruct (truthy (get data "current_state" PNone)) eqn:Htruthy.
    - apply bind_Ok in H as (found & Hlookup & H).
      exists found. split_and!.
      + by injection H as <-.
      + done.
      + intros c ->. unfold get in Hlookup, Htruthy.
        destruct (dict_lookup "current_state" data) as [v|]; [|done].
        destruct v as [| | |n| |]; simpl in Hlookup; try done.
        exists n. split; [done|]. by injection Hlookup.
    - exists None. split_and!; [by injection H as <-|done|done]. }
  simpl. split_and!; try done.
  - repeat constructor; by eapply getitem_bind_Ok.
  - intros Hnone. rewrite (get_missing _ _ _ Hnone) in Hhistory.
    by simplify_eq/=.
  - intros Hnone. rewrite (get_missing _ _ _ Hnone) in Htasks.
    by simplify_eq/=.
  - intros Hnone. rewrite (get_missing _ _ _ Hnone) in Hpm.
    by simplify_eq/=.
  - intros Hnone. rewrite (get_missing _ _ _ Hnone) in Hmetadata.
    by simplify_eq/=.
Qed.

Lemma Transaction_from_dict_keys_witness :
  ∃ x,
    Transaction.from_dict Scenario.minimal_transaction Scenario.registry = Ok x
    ∧ Transaction._state_registry x = Some Scenario.registry
    ∧ Transaction.state_history x = [] ∧ Transaction.tasks x = ∅
    ∧ Transaction.property_metadata x = [] ∧ Transaction.metadata x = []
    ∧ Transaction.current_state x = None.
Proof.
  assert (∃ x, Transaction.from_dict Scenario.minimal_transaction
                 Scenario.registry = Ok x) as [x Hx]
    by (eexists; vm_compute; reflexivity).
  exists x. split; [exact Hx|].
  destruct (proj2 (Transaction_from_dict_keys Scenario.minimal_transaction _) x Hx)
    as (_ & Hr & Hh & Ht & Hpm & Hm & Hc & _).
  split_and!; [exact Hr|apply Hh|apply Ht|apply Hpm|apply Hm|apply Hc];
    reflexivity.
Defined.

(** Whether [Transaction.from_dict] succeeds does not depend on the
    registry it is given, and the registry decides two fields only: read
    with another registry, the same dictionary gives the same
    transaction but for the registry attached and for the current state,
    which is what that registry holds under the stored name. *)
Theorem from_dict_any_registry (data : dict) (r1 r2 : StateRegistry.t)
    (x1 : Transaction.t) :
  Transaction.from_dict data r1 = Ok x1 →
  ∃ current,
    Transaction.from_dict data r2
    = Ok (Transaction.set_state_registry r2
            (Transaction.set_current_state current x1))
    ∧ (current = None
       ∨ ∃ name, dict_lookup "current_state" data = Some (PStr name)
                 ∧ current = StateRegistry.get r2 name).
Proof.
  unfold Transaction.from_dict.
  destruct (getitem data "id" ≫= UUID.of_py) as [id|]; simpl; [|done].
  destruct (getitem data "property_address" ≫= _) as [address|]; simpl; [|done].
  destruct (iterate _ ≫= _) as [history|]; simpl; [|done].
  destruct (items _ ≫= _) as [tasks|]; simpl; [|done].
  destruct (expect_dict "property_metadata" _) as [pm|]; simpl; [|done].
  destruct (getitem data "created_at" ≫= _) as [created|]; simpl; [|done].
  destruct (expect_dict "metadata" _) as [metadata|]; simpl; [|done].
  unfold get.
  destruct (dict_lookup "current_state" data) as [v|]; simpl.
  - destruct v as [|b|z|n|l|d]; simpl.
    + intros [= <-]. exists None. split; [done|by left].
    + destruct b; simpl; intros [= <-]; exists None; (split; [done|by left]).
    + destruct (negb _); simpl; intros [= <-]; exists None;
        (split; [done|by left]).
    + destruct (negb _); simpl; intros [= <-].
      * exists (StateRegistry.get r2 n). split; [done|]. right. by exists n.
      * exists None. split; [done|by left].
    + destruct l; simpl; [|done].
      intros [= <-]. exists None. split; [done|by left].
    + destruct d; simpl; [|done].
      intros [= <-]. exists None. split; [done|by left].
  - intros [= <-]. exists None. split; [done|by left].
Qed.

Lemma from_dict_any_registry_witness :
  ∃ data current,
    Transaction.to_dict Scenario.store Scenario.listed = Ok data
    ∧ Transaction.from_dict data Scenario.registry_small
      = Ok (Transaction.set_state_registry Scenario.registry_small
              (Transaction.set_current_state current Scenario.listed))
    ∧ (current = None
       ∨ ∃ name, dict_lookup "current_state" data = Some (PStr name)
                 ∧ current = StateRegistry.get Scenario.registry_small name).
Proof.
  exists (Transaction.fields (PStr "new_listing") Scenario.listed).
  destruct (from_dict_any_registry
              (Transaction.fields (PStr "new_listing") Scenario.listed)
              Scenario.registry Scenario.registry_small Scenario.listed)
    as (current & Hfrom & Hc).
  { rewrite from_dict_fields by exact scenario_listed_wf. reflexivity. }
  exists current. split_and!; [reflexivity|exact Hfrom|exact Hc].
Defined.

(** ** Children *)

Section children.
Context (h : State.store) (self child : loc) (self_obj child_obj : State.t).
Context (Hself : h !! self = Some self_obj).
Context (Hchild : h !! child = Some child_obj).

(** The other children of [self] differ from the new child by their
    name, so that the test [child_state not in self.children] is decided
    by the first field of the comparison. *)
Context (Hnames : ∀ c, c ∈ State.children self_obj → c ≠ child →
                       ∃ s, h !! c = Some s ∧ State.name s ≠ State.name child_obj).

Lemma contains_decided (store : State.store) (cs : list loc) (x : State.t) :
  store !! child = Some x →
  (∀ c, c ∈ cs → c ≠ child →
        ∃ s, store !! c = Some s ∧ State.name s ≠ State.name x) →
  State.contains store cs child = Ok (bool_decide (child ∈ cs)).
Proof.
  intros Hx. induction cs as [|c cs IH]; intros Hcs; cbn [State.contains].
  - reflexivity.
  - unfold State.equal. destruct (decide (c = child)) as [->|Hne].
    + by rewrite bool_decide_eq_true_2 by left.
    + destruct (Hcs c) as (s & Hs & Hname); [by left|done|].
      unfold State.deref. rewrite Hs, Hx. simpl.
      rewrite decide_False by done. rewrite IH.
      * f_equal. apply bool_decide_ext. rewrite elem_of_cons. naive_solver.
      * intros c' Hin. apply Hcs. by right.
Qed.

(** The store between the two statements of [add_child], and the object
    [self] is then. *)
Local Abbreviation adopted :=
  (<[child := State.set_parent (Some self) child_obj]> h).
Local Abbreviation self_then :=
  (if decide (self = child) then State.set_parent (Some self) child_obj
   else self_obj).

Lemma adopted_self : adopted !! self = Some self_then.
Proof.
  destruct (decide (self = child)) as [->|Hne].
  - by rewrite lookup_insert_eq.
  - by rewrite lookup_insert_ne.
Qed.

Lemma self_then_fields :
  State.children self_then = State.children self_obj
  ∧ State.name self_then = State.name self_obj
  ∧ (self ≠ child → State.parent self_then = State.parent self_obj).
Proof.
  destruct (decide (self = child)) as [Heq|Hne]; [|done].
  subst child. rewrite Hself in Hchild. injection Hchild as <-. by split_and!.
Qed.

Lemma add_child_run :
  State.add_child h self child
  = Ok (if decide (child ∈ State.children self_obj) then adopted
        else <[self := State.set_children (State.children self_obj ++ [child])
                         self_then]> adopted).
Proof.
  unfold State.add_child, State.deref. rewrite Hchild. simpl.
  rewrite adopted_self. simpl.
  destruct self_then_fields as (Hchildren & _ & _). rewrite Hchildren.
  rewrite (contains_decided adopted (State.children self_obj)
             (State.set_parent (Some self) child_obj)).
  - destruct (decide (child ∈ State.children self_obj)) as [Hin|Hout].
    + by rewrite bool_decide_eq_true_2.
    + by rewrite bool_decide_eq_false_2.
  - apply lookup_insert_eq.
  - intros c Hin Hne. rewrite lookup_insert_ne by done. by apply Hnames.
Qed.

End children.

(** The objects [add_child] leaves. *)
Lemma add_child_objects (h : State.store) (self child : loc)
    (self_obj child_obj : State.t) :
  h !! self = Some self_obj →
  h !! child = Some child_obj →
  (∀ c, c ∈ State.children self_obj → c ≠ child →
        ∃ s, h !! c = Some s ∧ State.name s ≠ State.name child_obj) →
  ∃ h' self_obj' child_obj',
    State.add_child h self child = Ok h'
    ∧ h' !! self = Some self_obj'
    ∧ h' !! child = Some child_obj'
    ∧ State.parent child_obj' = Some self
    ∧ State.children self_obj'
      = (if decide (child ∈ State.children self_obj) then State.children self_obj
         else State.children self_obj ++ [child])
    ∧ State.name self_obj' = State.name self_obj
    ∧ State.name child_obj' = State.name child_obj
    ∧ (∀ l, l ≠ self → l ≠ child → h' !! l = h !! l)
    ∧ (self ≠ child → State.parent self_obj' = State.parent self_obj).
Proof.
  intros Hself Hchild Hnames.
  pose proof (self_then_fields h self child self_obj child_obj Hself Hchild
                Hnames) as (Hchildren & Hname & Hparent).
  pose proof (adopted_self h self child self_obj child_obj Hself) as Hthen.
  rewrite (add_child_run h self child self_obj child_obj Hself Hchild Hnames).
  destruct (decide (child ∈ State.children self_obj)) as [Hin|Hout].
  - eexists _, _, _. split; [reflexivity|].
    split; [exact Hthen|]. split; [apply lookup_insert_eq|].
    split_and!; try done.
    intros l _ Hl. by rewrite lookup_insert_ne.
  - destruct (decide (self = child)) as [Heq|Hne].
    + eexists _, _, _. split; [reflexivity|].
      split; [apply lookup_insert_eq|].
      split; [rewrite Heq at 1; apply lookup_insert_eq|].
      subst child. rewrite Hself in Hchild. injection Hchild as <-.
      split_and!; try done.
      intros l Hl _. by rewrite !lookup_insert_ne.
    + eexists _, _, _. split; [reflexivity|].
      split; [apply lookup_insert_eq|].
      split; [rewrite lookup_insert_ne by done; apply lookup_insert_eq|].
      split_and!; try done.
      intros l Hl Hl'. by rewrite !lookup_insert_ne.
Qed.

(** Apart from the child, which has a new parent, every object keeps its
    name and its parent. *)
Lemma add_child_keeps (h h' : State.store) (self child : loc)
    (self_obj self_obj' : State.t) :
  h !! self = Some self_obj →
  h' !! self = Some self_obj' →
  State.name self_obj' = State.name self_obj →
  (self ≠ child → State.parent self_obj' = State.parent self_obj) →
  (∀ l, l ≠ self → l ≠ child → h' !! l = h !! l) →
  ∀ l s, l ≠ child → h !! l = Some s →
         ∃ s', h' !! l = Some s' ∧ State.name s' = State.name s
               ∧ State.parent s' = State.parent s.
Proof.
  intros Hself Hself' Hname Hparent Hframe l s Hl Hs.
  destruct (decide (l = self)) as [->|Hne].
  - exists self_obj'. rewrite Hself in Hs. injection Hs as <-.
    split_and!; [done|done|by apply Hparent].
  - exists s. by rewrite Hframe.
Qed.

(** [add_child] makes [self] the parent of the child and lists the child
    among the children of [self] once: it is appended when it was not
    listed, and left where it was when it was.  Names are kept, every
    other object is left as it was (the former parent of the child still
    lists it), and calling [add_child] again changes nothing. *)
Theorem add_child_spec (h : State.store) (self child : loc)
    (self_obj child_obj : State.t) :
  h !! self = Some self_obj →
  h !! child = Some child_obj →
  (∀ c, c ∈ State.children self_obj → c ≠ child →
        ∃ s, h !! c = Some s ∧ State.name s ≠ State.name child_obj) →
  ∃ h' self_obj' child_obj',
    State.add_child h self child = Ok h'
    ∧ h' !! self = Some self_obj'
    ∧ h' !! child = Some child_obj'
    ∧ State.parent child_obj' = Some self
    ∧ State.children self_obj'
      = (if decide (child ∈ State.children self_obj) then State.children self_obj
         else State.children self_obj ++ [child])
    ∧ State.name self_obj' = State.name self_obj
    ∧ State.name child_obj' = State.name child_obj
    ∧ (∀ l, l ≠ self → l ≠ child → h' !! l = h !! l)
    ∧ State.add_child h' self child = Ok h'.
Proof.
  intros Hself Hchild Hnames.
  destruct (add_child_objects h self child self_obj child_obj Hself Hchild Hnames)
    as (h' & self_obj' & child_obj' & Hrun & Hself' & Hchild' & Hparent
        & Hchildren' & Hname' & Hcname' & Hframe & _).
  exists h', self_obj', child_obj'. split_and!; try done.
  rewrite (add_child_run h' self child self_obj' child_obj' Hself' Hchild').
  - assert (child ∈ State.children self_obj') as Hin.
    { rewrite Hchildren'.
      destruct (decide (child ∈ State.children self_obj)); [done|].
      apply elem_of_app. right. by left. }
    rewrite decide_True by done. f_equal. apply insert_id.
    rewrite Hchild'. f_equal. destruct child_obj'; simpl in *. by subst.
  - intros c Hin Hne.
    assert (c ∈ State.children self_obj) as Hin0.
    { rewrite Hchildren' in Hin.
      destruct (decide (child ∈ State.children self_obj)); [done|].
      apply elem_of_app in Hin as [?|Hin]; [done|].
      by apply elem_of_cons in Hin as [?|?%elem_of_nil]. }
    destruct (Hnames c Hin0 Hne) as (s & Hs & Hdiff).
    rewrite Hcname'. destruct (decide (c = self)) as [->|Hcs].
    + exists self_obj'. split; [done|]. rewrite Hname'. congruence.
    + exists s. split; [|done]. by rewrite Hframe.
Qed.

Lemma add_child_spec_witness :
  ∃ h' self_obj' child_obj',
    State.add_child Scenario.store 1%positive 3%positive = Ok h'
    ∧ h' !! 1%positive = Some self_obj'
    ∧ h' !! 3%positive = Some child_obj'
    ∧ State.parent child_obj' = Some 1%positive
    ∧ State.children self_obj'
      = (if decide (3%positive ∈ State.children Scenario.new_listing)
         then State.children Scenario.new_listing
         else State.children Scenario.new_listing ++ [3%positive])
    ∧ State.name self_obj' = State.name Scenario.new_listing
    ∧ State.name child_obj' = State.name Scenario.cancelled
    ∧ (∀ l, l ≠ 1%positive → l ≠ 3%positive → h' !! l = Scenario.store !! l)
    ∧ State.add_child h' 1%positive 3%positive = Ok h'.
Proof.
  apply (add_child_spec Scenario.store 1%positive 3%positive Scenario.new_listing
           Scenario.cancelled); [reflexivity|reflexivity|].
  intros c Hin. simpl in Hin. by apply elem_of_nil in Hin.
Defined.

(** ** Paths after [add_child] *)

Section adoption_paths.
Import Hierarchy.
Context (h h' : State.store) (child : loc).
Context (Hkeeps : ∀ l s, l ≠ child → h !! l = Some s →
                         ∃ s', h' !! l = Some s'
                               ∧ State.name s' = State.name s
                               ∧ State.parent s' = State.parent s).

Lemma root_path_keeps (l : loc) (path : list string) :
  root_path h l path → (∀ k, nth_parent h k l ≠ Some child) →
  root_path h' l path.
Proof.
  induction 1 as [l s Hs Hp|l s p path Hs Hp _ IH]; intros Hnot.
  - destruct (Hkeeps l s) as (s' & Hs' & Hn & Hpar);
      [intros ->; by apply (Hnot 0)|done|].
    rewrite <- Hn. apply root_path_root; [done|congruence].
  - destruct (Hkeeps l s) as (s' & Hs' & Hn & Hpar);
      [intros ->; by apply (Hnot 0)|done|].
    rewrite <- Hn. apply (root_path_child h' l s' p path); [done|congruence|].
    apply IH. intros k Hk. apply (Hnot (S k)).
    by rewrite (nth_parent_succ h k l p s).
Qed.

Lemma nth_parent_keeps (k : nat) : ∀ l x,
  (∀ j, j < k → nth_parent h j l ≠ Some child) →
  nth_parent h k l = Some x → nth_parent h' k l = Some x.
Proof.
  induction k as [|k IH]; intros l x Hnot Hk; [done|].
  simpl in Hk.
  destruct (h !! l) as [s|] eqn:Hs; simpl in Hk; [|done].
  destruct (State.parent s) as [p|] eqn:Hp; simpl in Hk; [|done].
  destruct (Hkeeps l s) as (s' & Hs' & _ & Hpar); [|done|].
  { intros ->. by apply (Hnot 0); [lia|]. }
  rewrite (nth_parent_succ h' k l p s') by congruence.
  apply IH; [|done].
  intros j Hj Hjp. apply (Hnot (S j)); [lia|].
  by rewrite (nth_parent_succ h j l p s).
Qed.

End adoption_paths.

Section cycles.
Import Hierarchy.
Context (h : State.store).

Lemma nth_parent_add (a b : nat) : ∀ l,
  nth_parent h (a + b) l = nth_parent h a l ≫= nth_parent h b.
Proof.
  induction a as [|a IH]; intros l; simpl; [done|].
  destruct (h !! l) as [s|]; simpl; [|done].
  destruct (State.parent s) as [p|]; simpl; [|done].
  apply IH.
Qed.

Lemma cycle_unbounded (n : nat) (l : loc) :
  nth_parent h (S n) l = Some l → ∀ i, is_Some (nth_parent h i l).
Proof.
  intros Hcycle i. induction (lt_wf i) as [i _ IH].
  destruct (decide (i < S n)) as [Hlt|Hge].
  - assert (S n = i + (S n - i)) as Hsplit by lia.
    rewrite Hsplit, nth_parent_add in Hcycle.
    destruct (nth_parent h i l); [by eexists|done].
  - assert (i = S n + (i - S n)) as Hsplit by lia.
    rewrite Hsplit, nth_parent_add, Hcycle. simpl. apply IH. lia.
Qed.

Lemma unbounded_loops (fuel : nat) : ∀ l acc,
  (∀ i, is_Some (nth_parent h i l)) →
  State.get_full_path_loop h fuel acc (Some l) = None.
Proof.
  induction fuel as [|fuel IH]; intros l acc Hall; simpl; [done|].
  destruct (Hall 1) as [x Hx]. simpl in Hx. unfold State.deref.
  destruct (h !! l) as [s|] eqn:Hs; simpl in Hx; [|done].
  destruct (State.parent s) as [p|] eqn:Hp; simpl in Hx; [|done].
  apply IH. intros i. specialize (Hall (S i)).
  by rewrite (nth_parent_succ h i l p s) in Hall.
Qed.

Lemma first_visit (l x : loc) (k : nat) :
  nth_parent h k l = Some x →
  ∃ k', nth_parent h k' l = Some x ∧ ∀ j, j < k' → nth_parent h j l ≠ Some x.
Proof.
  intros Hk.
  assert ((∃ k', k' ≤ k ∧ nth_parent h k' l = Some x
                 ∧ ∀ j, j < k' → nth_parent h j l ≠ Some x)
          ∨ ∀ j, j ≤ k → nth_parent h j l ≠ Some x) as [Hfound|Hnone].
  { clear Hk. induction k as [|k IH].
    - destruct (decide (nth_parent h 0 l = Some x)) as [H0|H0].
      + left. exists 0. split_and!; [lia|done|]. intros j Hj. lia.
      + right. intros j Hj. by replace j with 0 by lia.
    - destruct IH as [(k' & Hle & Hk' & Hmin)|Hnone].
      + left. exists k'. split_and!; [lia|done|done].
      + destruct (decide (nth_parent h (S k) l = Some x)) as [HS|HS].
        * left. exists (S k). split_and!; [lia|done|].
          intros j Hj. apply Hnone. lia.
        * right. intros j Hj. destruct (decide (j = S k)) as [->|Hne]; [done|].
          apply Hnone. lia. }
  - destruct Hfound as (k' & _ & Hk' & Hmin). by exists k'.
  - by destruct (Hnone k).
Qed.

End cycles.

(** After [add_child], the full path of the child is the full path of
    [self] followed by the child's name, when the child is not [self] or
    one of its ancestors. *)
Theorem add_child_full_path (h : State.store) (self child : loc)
    (self_obj child_obj : State.t) (path : list string) :
  h !! self = Some self_obj →
  h !! child = Some child_obj →
  (∀ c, c ∈ State.children self_obj → c ≠ child →
        ∃ s, h !! c = Some s ∧ State.name s ≠ State.name child_obj) →
  Hierarchy.root_path h self path →
  (∀ k, Hierarchy.nth_parent h k self ≠ Some child) →
  ∃ h',
    State.add_child h self child = Ok h'
    ∧ Hierarchy.root_path h' self path
    ∧ Hierarchy.root_path h' child (path ++ [State.name child_obj])
    ∧ ∀ fuel, length path < fuel →
              State.get_full_path h' fuel child
              = Some (Ok (path ++ [State.name child_obj])).
Proof.
  intros Hself Hchild Hnames Hpath Hnot.
  destruct (add_child_objects h self child self_obj child_obj Hself Hchild Hnames)
    as (h' & self_obj' & child_obj' & Hrun & Hself' & Hchild' & Hparent
        & _ & Hname' & Hcname' & Hframe & Hsparent).
  pose proof (add_child_keeps h h' self child self_obj self_obj' Hself Hself'
                Hname' Hsparent Hframe) as Hkeeps.
  pose proof (root_path_keeps h h' child Hkeeps self path Hpath Hnot) as Hpath'.
  assert (Hierarchy.root_path h' child (path ++ [State.name child_obj]))
    as Hcpath.
  { rewrite <- Hcname'. by eapply Hierarchy.root_path_child. }
  exists h'. split_and!; [done|done|done|].
  intros fuel Hfuel. unfold State.get_full_path.
  rewrite (get_full_path_loop_root_path h' child _ Hcpath).
  - by rewrite app_nil_r.
  - rewrite length_app. simpl. lia.
Qed.

Lemma add_child_full_path_witness :
  ∃ h',
    State.add_child Scenario.store 1%positive 3%positive = Ok h'
    ∧ Hierarchy.root_path h' 1%positive ["new_listing"]
    ∧ Hierarchy.root_path h' 3%positive (["new_listing"] ++ ["cancelled"])
    ∧ ∀ fuel, length ["new_listing"] < fuel →
              State.get_full_path h' fuel 3%positive
              = Some (Ok (["new_listing"] ++ ["cancelled"])).
Proof.
  apply (add_child_full_path Scenario.store 1%positive 3%positive
           Scenario.new_listing Scenario.cancelled ["new_listing"]);
    [reflexivity|reflexivity| | |].
  - intros c Hin. simpl in Hin. by apply elem_of_nil in Hin.
  - by apply (Hierarchy.root_path_root Scenario.store 1%positive
                Scenario.new_listing).
  - intros [|k]; [discriminate|]. simpl. discriminate.
Defined.

(** [add_child] does not look for cycles: when the child is [self] or an
    ancestor of [self], the call succeeds and leaves a parent chain that
    comes back to the child, and [get_full_path] of the child then never
    returns, whatever the number of iterations allowed. *)
Theorem add_child_cycle (h : State.store) (self child : loc)
    (self_obj child_obj : State.t) (k : nat) :
  h !! self = Some self_obj →
  h !! child = Some child_obj →
  (∀ c, c ∈ State.children self_obj → c ≠ child →
        ∃ s, h !! c = Some s ∧ State.name s ≠ State.name child_obj) →
  Hierarchy.nth_parent h k self = Some child →
  ∃ h' n,
    State.add_child h self child = Ok h'
    ∧ Hierarchy.nth_parent h' (S n) child = Some child
    ∧ ∀ fuel, State.get_full_path h' fuel child = None.
Proof.
  intros Hself Hchild Hnames Hk.
  destruct (first_visit h self child k Hk) as (n & Hn & Hmin).
  destruct (add_child_objects h self child self_obj child_obj Hself Hchild Hnames)
    as (h' & self_obj' & child_obj' & Hrun & Hself' & Hchild' & Hparent
        & _ & Hname' & Hcname' & Hframe & Hsparent).
  pose proof (add_child_keeps h h' self child self_obj self_obj' Hself Hself'
                Hname' Hsparent Hframe) as Hkeeps.
  assert (Hierarchy.nth_parent h' (S n) child = Some child) as Hcycle.
  { rewrite (nth_parent_succ h' n child self child_obj') by done.
    by apply (nth_parent_keeps h h' child Hkeeps). }
  exists h', n. split_and!; [done|done|].
  intros fuel. apply unbounded_loops. by eapply cycle_unbounded.
Qed.

Lemma add_child_cycle_witness :
  ∃ h' n,
    State.add_child Scenario.tree 3%positive 1%positive = Ok h'
    ∧ Hierarchy.nth_parent h' (S n) 1%positive = Some 1%positive
    ∧ ∀ fuel, State.get_full_path h' fuel 1%positive = None.
Proof.
  apply (add_child_cycle Scenario.tree 3%positive 1%positive Scenario.inspection
           Scenario.active 2); [reflexivity|reflexivity| |reflexivity].
  intros c Hin. simpl in Hin. by apply elem_of_nil in Hin.
Defined.

(** ** Templates read from dictionaries *)

(** [TaskTemplate] called with the entries of a dictionary as keyword
    arguments, as [State.from_dict] does for every entry of
    [task_templates], raises a TypeError when the dictionary lacks
    [title] and when it has a key that is not a field.  When it returns,
    the title is the stored one, and missing [description], [assignee],
    [days_until_due], [dependencies] and [metadata] give the defaults of
    the dataclass. *)
Theorem TaskTemplate_from_kwargs_keys (kw : dict) :
  (dict_lookup "title" kw = None →
   ∃ msg, TaskTemplate.from_kwargs (PDict kw) = Raise (TypeError msg))
  ∧ (∀ k v, (k, v) ∈ kw → k ∉ TaskTemplate.field_names →
            ∃ msg, TaskTemplate.from_kwargs (PDict kw) = Raise (TypeError msg))
  ∧ ∀ tt, TaskTemplate.from_kwargs (PDict kw) = Ok tt →
      dict_lookup "title" kw = Some (PStr (TaskTemplate.title tt))
      ∧ (dict_lookup "description" kw = None → TaskTemplate.description tt = "")
      ∧ (dict_lookup "assignee" kw = None → TaskTemplate.assignee tt = None)
      ∧ (dict_lookup "days_until_due" kw = None →
         TaskTemplate.days_until_due tt = None)
      ∧ (dict_lookup "dependencies" kw = None → TaskTemplate.dependencies tt = [])
      ∧ (dict_lookup "metadata" kw = None → TaskTemplate.metadata tt = []).
Proof.
  unfold TaskTemplate.from_kwargs. split_and!.
  - intros Hnone. rewrite Hnone. destruct (forallb _ kw); by eexists.
  - intros k v Hin Hk.
    assert (forallb (λ kv, bool_decide (kv.1 ∈ TaskTemplate.field_names)) kw
            = false) as ->; [|by eexists].
    apply not_true_iff_false. intros Hall.
    rewrite forallb_forall in Hall.
    specialize (Hall (k, v) (proj1 (list_elem_of_In _ _) Hin)).
    by apply bool_decide_eq_true in Hall.
  - intros tt. destruct (forallb _ kw); [|done].
    destruct (dict_lookup "title" kw) as [v|] eqn:Htitle; [|done].
    intros (title & Ht & H)%bind_Ok.
    apply bind_Ok in H as (description & Hdescription & H).
    apply bind_Ok in H as (assignee & Hassignee & H).
    apply bind_Ok in H as (days & Hdays & H).
    apply bind_Ok in H as (dependencies & Hdeps & H).
    apply bind_Ok in H as (metadata & Hmetadata & H).
    injection H as <-. simpl. split_and!.
    + destruct v; simpl in Ht; by simplify_eq.
    + intros Hnone. rewrite (get_missing _ _ _ Hnone) in Hdescription.
      by simplify_eq/=.
    + intros Hnone. rewrite (get_missing _ _ _ Hnone) in Hassignee.
      by simplify_eq/=.
    + intros Hnone. rewrite (get_missing _ _ _ Hnone) in Hdays.
      by simplify_eq/=.
    + intros Hnone. rewrite (get_missing _ _ _ Hnone) in Hdeps.
      by simplify_eq/=.
    + intros Hnone. rewrite (get_missing _ _ _ Hnone) in Hmetadata.
      by simplify_eq/=.
Qed.

Lemma TaskTemplate_from_kwargs_keys_witness :
  ∃ msg,
    TaskTemplate.from_kwargs (PDict [("title", PStr "Inspect"); ("owner", PNone)])
    = Raise (TypeError msg).
Proof.
  apply (proj1 (proj2 (TaskTemplate_from_kwargs_keys
                         [("title", PStr "Inspect"); ("owner", PNone)]))
           "owner" PNone).
  - right. left.
  - apply (bool_decide_unpack _). vm_compute. reflexivity.
Defined.

(** ** Registering and validating *)

(** After a state has been registered, [validate_transitions] complains
    about no transition to that state's name any more, and complains
    about nothing new but the transitions that state itself allows: each
    of its messages is about a target other than the new name that is
    allowed by the new state or was undefined before. *)
Theorem register_then_validate (h : State.store) (registry registry' : StateRegistry.t)
    (l : loc) (s : State.t) :
  Consistency.registry_in_store h registry →
  h !! l = Some s →
  StateRegistry.register h registry l = Ok registry' →
  ∃ errors,
    StateRegistry.validate_transitions h registry' = Ok errors
    ∧ ∀ msg, msg ∈ errors →
        ∃ key target,
          Consistency.undefined_target h registry' key target
          ∧ msg = Consistency.pair_message h registry' (key, target)
          ∧ target ≠ State.name s
          ∧ (key = State.name s
             ∨ Consistency.undefined_target h registry key target).
Proof.
  intros Hstore Hs. unfold StateRegistry.register, State.deref.
  rewrite Hs. simpl. intros [= <-].
  set (registry' :=
         StateRegistry.mk (<[State.name s := l]> (StateRegistry._states registry))).
  assert (Consistency.registry_in_store h registry') as Hstore'.
  { intros k l'. unfold registry'. simpl. rewrite lookup_insert_Some.
    intros [[_ <-]|[_ Hk]]; [by eexists|by eapply Hstore]. }
  eexists. split.
  { unfold StateRegistry.validate_transitions.
    rewrite (validate_loop_spec h registry'
               (map_to_list (StateRegistry._states registry'))); [done|].
    intros k l' Hin%elem_of_map_to_list. split; [done|by eapply Hstore']. }
  intros msg ([key target] & -> & Hin)%list_elem_of_fmap.
  fold (Consistency.undefined_pairs h registry') in Hin.
  apply elem_of_undefined_pairs in Hin.
  exists key, target. split; [done|]. split; [done|].
  destruct Hin as (l' & state & Hkey & Hstate & Ht & Hnone).
  unfold registry' in Hkey, Hnone. simpl in Hkey, Hnone.
  apply lookup_insert_None in Hnone as [Hnone Hne].
  split; [done|].
  apply lookup_insert_Some in Hkey as [[<- <-]|[Hk Hkey]]; [by left|].
  right. by exists l', state.
Qed.

Lemma register_then_validate_witness :
  ∃ errors,
    StateRegistry.validate_transitions Scenario.store_full Scenario.registry_full
    = Ok errors
    ∧ ∀ msg, msg ∈ errors →
        ∃ key target,
          Consistency.undefined_target Scenario.store_full Scenario.registry_full
            key target
          ∧ msg = Consistency.pair_message Scenario.store_full
                    Scenario.registry_full (key, target)
          ∧ target ≠ State.name Scenario.pending_inspection
          ∧ (key = State.name Scenario.pending_inspection
             ∨ Consistency.undefined_target Scenario.store_full Scenario.registry
                 key target).
Proof.
  apply (register_then_validate Scenario.store_full Scenario.registry
           Scenario.registry_full 4%positive Scenario.pending_inspection).
  - intros k l Hk. destruct (scenario_registry_in_store k l Hk) as [s Hs].
    exists s. unfold Scenario.store_full.
    rewrite lookup_insert_ne; [done|].
    intros <-. vm_compute in Hs. discriminate Hs.
  - reflexivity.
  - reflexivity.
Defined.

(** ** An expansion that fails part of the way *)

Section partial_expansion.
Import Expansion.

Lemma instantiate_loop_app (before after : list TaskTemplate.t) :
  ∀ t2t self w,
    Transaction.instantiate_loop (before ++ after) t2t self w
    = match Transaction.instantiate_loop before t2t self w with
      | (Ok t2t', self', w') => Transaction.instantiate_loop after t2t' self' w'
      | (Raise e, self', w') => (Raise e, self', w')
      end.
Proof.
  induction before as [|template before IH]; intros t2t self w; simpl; [done|].
  destruct (Transaction.instantiate template w) as [[task|e] w1]; [|done].
  apply IH.
Qed.

Lemma instantiate_overflow (template : TaskTemplate.t) (days : Z) (w : World.t) :
  TaskTemplate.days_until_due template = Some days →
  (∀ k due, Datetime.add_days (World.clock w k) days ≠ Ok due) →
  ∃ msg w1,
    Transaction.instantiate template w = (Raise (OverflowError msg), w1)
    ∧ World.uuid_calls w1 = S (World.uuid_calls w)
    ∧ World.uuid_source w1 = World.uuid_source w
    ∧ World.clock w1 = World.clock w
    ∧ World.clock_calls w ≤ World.clock_calls w1.
Proof.
  intros Hdays Hover.
  unfold Transaction.instantiate, Task.create, World.uuid4, World.now.
  rewrite Hdays. simpl.
  destruct (Datetime.add_days _ days) as [due|e] eqn:Hadd.
  - by apply Hover in Hadd.
  - apply add_days_raise in Hadd as [msg ->].
    eexists _, _. split; [reflexivity|]. simpl. split_and!; try done. lia.
Qed.

End partial_expansion.

(** When the due date of a template overflows, template expansion raises
    the error and stops there: the tasks made from the templates before
    it stay in [tasks], under the identifiers generated for them and with
    what they carry over from their templates, and none of them has
    received a dependency, the second loop not having run.  The
    identifier generated for the failing template is used up. *)
Theorem expansion_stops_at_overflow (state : State.t) (self : Transaction.t)
    (w : World.t) (before after : list TaskTemplate.t) (template : TaskTemplate.t)
    (days : Z) :
  State.task_templates state = before ++ template :: after →
  (∀ earlier d k,
     earlier ∈ before → TaskTemplate.days_until_due earlier = Some d →
     ∃ due, Datetime.add_days (World.clock w k) d = Ok due) →
  TaskTemplate.days_until_due template = Some days →
  (∀ k due, Datetime.add_days (World.clock w k) days ≠ Ok due) →
  ∃ msg created self' w',
    Transaction._create_tasks_from_templates state self w
    = (Raise (OverflowError msg), self', w')
    ∧ Task.id <$> created = Expansion.batch_ids w (length before)
    ∧ Forall2 (Expansion.carries w w') before created
    ∧ Forall (λ task, Task.dependencies task = []) created
    ∧ self' = Transaction.set_tasks
                (Expansion.insert_all (Expansion.entries_of created)
                   (Transaction.tasks self)) self
    ∧ World.uuid_calls w' = World.uuid_calls w + S (length before).
Proof.
  intros Htemplates Hrange Hdays Hover.
  rewrite create_tasks_run, Htemplates, instantiate_loop_app.
  destruct (instantiate_loop_clock_in_range before ∅ self w Hrange)
    as (t2t & self1 & w1 & Hloop).
  rewrite Hloop.
  apply instantiate_loop_ok in Hloop
    as (created & Hids & Hall & Hnodeps & -> & _ & Hadv).
  pose proof Hadv as (Hsource & Hclock & Hcalls & Hreads).
  destruct (instantiate_overflow template days w1 Hdays)
    as (msg & w2 & Hinst & Hu & Hs & Hc & Hr).
  { intros k due. rewrite Hclock. apply Hover. }
  simpl. rewrite Hinst.
  eexists msg, created, _, w2. split; [reflexivity|].
  split_and!; [done| |done|done|lia].
  eapply Forall2_impl; [exact Hall|]. intros tpl task.
  apply (carries_mono w w1 w w2); [done|lia|lia].
Qed.

Lemma expansion_stops_at_overflow_witness :
  ∃ msg created self' w',
    Transaction._create_tasks_from_templates Scenario.overdue Scenario.listed
      Scenario.world
    = (Raise (OverflowError msg), self', w')
    ∧ Task.id <$> created = Expansion.batch_ids Scenario.world (length [Scenario.inspect])
    ∧ Forall2 (Expansion.carries Scenario.world w') [Scenario.inspect] created
    ∧ Forall (λ task, Task.dependencies task = []) created
    ∧ self' = Transaction.set_tasks
                (Expansion.insert_all (Expansion.entries_of created)
                   (Transaction.tasks Scenario.listed)) Scenario.listed
    ∧ World.uuid_calls w'
      = World.uuid_calls Scenario.world + S (length [Scenario.inspect]).
Proof.
  apply (expansion_stops_at_overflow Scenario.overdue Scenario.listed
           Scenario.world [Scenario.inspect] [] Scenario.far_template 4000000).
  - reflexivity.
  - intros earlier d k Hin Hd.
    apply elem_of_cons in Hin as [->|Hin%elem_of_nil]; [|done].
    injection Hd as <-. eexists. reflexivity.
  - reflexivity.
  - intros k due. discriminate.
Defined.

(** ** Two templates of one title *)

Section shadowing.
Import Expansion.

Lemma insert_all_last `{Countable K} {A : Type} (l : list (K * A)) :
  ∀ (m : gmap K A) k v,
    insert_all l m !! k = Some v →
    (∃ j, l !! j = Some (k, v) ∧ ∀ j' v', j < j' → l !! j' ≠ Some (k, v'))
    ∨ (m !! k = Some v ∧ ∀ j' v', l !! j' ≠ Some (k, v')).
Proof.
  induction l as [|[k0 v0] l IH]; intros m k v.
  - intros Hm. right. split; [done|]. intros j' v'. by rewrite lookup_nil.
  - change (insert_all ((k0, v0) :: l) m) with (insert_all l (<[k0 := v0]> m)).
    intros [(j & Hj & Hlast)|[Hm Hnone]]%IH.
    + left. exists (S j). split; [done|].
      intros [|j'] v' Hlt; [lia|]. simpl. apply Hlast. lia.
    + apply lookup_insert_Some in Hm as [[<- <-]|[Hne Hm]].
      * left. exists 0. split; [done|].
        intros [|j'] v' Hlt; [lia|]. simpl. apply Hnone.
      * right. split; [done|].
        intros [|j'] v'; simpl; [by intros [= -> _]|apply Hnone].
Qed.

End shadowing.

(** When a later template of the state has the same title, the task made
    from the earlier one ends without any dependency, whatever its
    template lists: the title leads to the task of the last template that
    has it, and only that task is given dependencies. *)
Theorem shadowed_template_unwired (state : State.t) (self self' : Transaction.t)
    (w w' : World.t) (i j : nat) (earlier later : TaskTemplate.t) :
  let templates := State.task_templates state in
  let ids := Expansion.batch_ids w (length templates) in
  NoDup ids →
  Transaction._create_tasks_from_templates state self w = (Ok (), self', w') →
  templates !! i = Some earlier →
  templates !! j = Some later →
  i < j →
  TaskTemplate.title earlier = TaskTemplate.title later →
  ∃ id task,
    ids !! i = Some id
    ∧ Transaction.tasks self' !! id = Some task
    ∧ Task.id task = id
    ∧ Expansion.carries w w' earlier task
    ∧ Task.dependencies task = [].
Proof.
  intros templates ids Hndi Hrun Hi Hj Hlt Htitle. subst templates ids.
  apply create_tasks_ok in Hrun as (created & Hids & Hall & Hnodeps & _ & ->).
  cbv zeta in Hids, Hall. rewrite <- Hids in Hndi |- *.
  pose proof (Forall2_length _ _ _ Hall) as Hlen. symmetry in Hlen.
  destruct (lookup_lt_is_Some_2 created i) as [task Hci].
  { rewrite Hlen. by eapply lookup_lt_Some. }
  destruct (lookup_lt_is_Some_2 created j) as [task_j Hcj].
  { rewrite Hlen. by eapply lookup_lt_Some. }
  exists (Task.id task), task.
  assert ((Task.id <$> created) !! i = Some (Task.id task)) as Hid
    by (by rewrite list_lookup_fmap, Hci).
  split_and!; [done| |done| |].
  - simpl. unfold Expansion.final_tasks. rewrite wire_all_lookup_other.
    + apply insert_all_lookup_in; [by rewrite entries_of_keys|].
      apply list_elem_of_fmap. exists task. split; [done|].
      by eapply list_elem_of_lookup_2.
    + intros template _ Hrec. unfold Expansion.title_map in Hrec.
      apply insert_all_last in Hrec as [(j0 & Hj0 & Hlast)|[Hempty _]];
        [|by rewrite lookup_empty in Hempty].
      apply lookup_zip_with_Some in Hj0 as (t & id & [= <- <-] & Ht & Hid0).
      assert (j0 = i) as -> by (by eapply NoDup_lookup).
      rewrite list_lookup_fmap, Hi in Ht. injection Ht as Ht.
      apply (Hlast j (Task.id task_j) Hlt).
      apply lookup_zip_with_Some. exists (TaskTemplate.title later), (Task.id task_j).
      split_and!.
      * by rewrite <- Ht, Htitle.
      * by rewrite list_lookup_fmap, Hj.
      * by rewrite list_lookup_fmap, Hcj.
  - by eapply Forall2_lookup_lr.
  - eapply (proj1 (Forall_forall _ _) Hnodeps). by eapply list_elem_of_lookup_2.
Qed.

Lemma shadowed_template_unwired_witness :
  let run :=
    Transaction._create_tasks_from_templates Scenario.repairs Scenario.listed
      Scenario.world in
  ∃ id task,
    Expansion.batch_ids Scenario.world
      (length (State.task_templates Scenario.repairs)) !! 0 = Some id
    ∧ Transaction.tasks run.1.2 !! id = Some task
    ∧ Task.id task = id
    ∧ Expansion.carries Scenario.world run.2 Scenario.repair task
    ∧ Task.dependencies task = [].
Proof.
  intros run.
  assert (run.1.1 = Ok ()) as Hok by (vm_compute; reflexivity).
  apply (shadowed_template_unwired Scenario.repairs Scenario.listed run.1.2
           Scenario.world run.2 0 2 Scenario.repair Scenario.repair_again).
  - cbv zeta. apply (bool_decide_unpack _). vm_compute. reflexivity.
  - rewrite <- Hok. subst run.
    by destruct (Transaction._create_tasks_from_templates _ _ _) as [[? ?] ?].
  - reflexivity.
  - reflexivity.
  - lia.
  - reflexivity.
Defined.

(** The task of the second [Repair] is the one that depends on the task
    of [Inspect]. *)
Example second_repair_is_wired :
  Task.dependencies
    <$> Transaction.tasks
          (Transaction._create_tasks_from_templates Scenario.repairs
             Scenario.listed Scenario.world).1.2 !! UUID.mk 258
  = Some [UUID.mk 257].
Proof. vm_compute. reflexivity. Qed.
